(** * The live voice agent's audio bridge (src/LiveVoiceAgent.tsx)

    A shallow embedding of the component's audio path and session lifecycle:
    the resampler, the 16-bit quantisation of captured frames, the playback
    queue and the handlers of the streaming session.

    Numbers.  JavaScript numbers are rationals ([Q]): every finite binary64
    or binary32 value is one.  The source is read in two arithmetics.  In
    [exact] the operations of the source ([+], [-], [*], [/]) are those of the
    rationals and a store into a [Float32Array] keeps its value; [resample],
    [quantize] and [dequantize] are the functions of the source in this
    arithmetic, and what is proved of them is stated where rounding does not
    change it.  In [binary64] every operation is rounded to the nearest
    binary64 value and a store into a [Float32Array] to the nearest binary32
    value, ties to even, as JavaScript does; [resample_in binary64],
    [quantize_in binary64] and [dequantize_in binary64] are the functions of
    the source as they run, and the statements on lengths and on the way of a
    sample through playback and capture are made there.  [Math.floor] and
    [Math.round] are exact in both.  Sample rates are positive; [NaN], the
    infinities, overflow and division by zero are outside the model.
    Typed arrays are lists: a [Float32Array] is a [list Q], an [Int16Array] a
    [list Z] of values in the signed 16-bit range, a [Uint8Array] a [list Z] of
    values below 256.

    Beside the component, the development embeds the functions of the analysis
    and speech service that work on data (src/server.ts, lines 85-213): the
    retry loop, the choice of the image data and the writer of the WAV
    header. *)

From Stdlib Require Import ZArith QArith Qpower Qround Qabs Lia Lqa Ascii String.
From stdpp Require Import base list strings pretty.

Local Open Scope Z_scope.

(** ** JavaScript arithmetic *)

Module Math.

(** [Math.floor] *)
Definition floor (x : Q) : Z := Qfloor x.

(** [Math.round]: the nearest integer, ties towards +infinity. *)
Definition round (x : Q) : Z := Qfloor (x + (1 # 2))%Q.

(** [Math.max] and [Math.min] on two arguments *)
Definition max (x y : Q) : Q := if Qle_bool x y then y else x.
Definition min (x y : Q) : Q := if Qle_bool x y then x else y.

(** Truncation towards zero, the first step of every conversion of a number
    to an integer type. *)
Definition trunc (x : Q) : Z := if Qle_bool 0 x then Qfloor x else Qceiling x.

End Math.

(** [ToInt16]: the value stored by an assignment into an [Int16Array];
    truncation, then reduction modulo 2^16 into [-32768, 32767]. *)
Definition ToInt16 (x : Q) : Z :=
  let int16bit := Math.trunc x mod 65536 in
  if 32768 <=? int16bit then int16bit - 65536 else int16bit.

(** [for (let i = 0; i < n; i++) body] over a state [a]. *)
Definition for_loop {A : Type} (n : nat) (body : nat -> A -> A) (a : A) : A :=
  foldl (fun acc i => body i acc) a (seq 0 n).

(** A typed array of [n] zeros, [new Float32Array(n)] and [new Int16Array(n)].
    A negative length raises in the source; lengths are never negative for
    positive rates (see [newLength_nonneg]). *)
Definition new_array {A : Type} (zero : A) (n : Z) : list A := replicate (Z.to_nat n) zero.

(** Reading [a[i]] from a typed array; the source never reads out of range
    (see [resample_reads_in_range]), where JavaScript would give [undefined]. *)
Definition get {A : Type} (zero : A) (a : list A) (i : Z) : A :=
  if i <? 0 then zero else default zero (a !! Z.to_nat i).

(** ** The resampler *)

Definition array_length {A : Type} (a : list A) : Z := Z.of_nat (length a).

(** [resample], lines 180-196: linear interpolation between the two samples
    that bracket each output position; in exact arithmetic (it is
    [resample_in exact], see [resample_in] for the arithmetic of the
    source as it runs). *)
Definition resample (data : list Q) (fromRate toRate : Q) : list Q :=
  if Qeq_bool fromRate toRate then data else
  let ratio := (fromRate / toRate)%Q in
  let newLength := Math.round (inject_Z (array_length data) / ratio)%Q in
  let result := new_array 0%Q newLength in
  for_loop (Z.to_nat newLength) (fun i result =>
    let pos := (inject_Z (Z.of_nat i) * ratio)%Q in
    let index := Math.floor pos in
    let frac := (pos - inject_Z index)%Q in
    if index + 1 <? array_length data then
      <[i := (get 0%Q data index * (1 - frac) + get 0%Q data (index + 1) * frac)%Q]> result
    else
      <[i := get 0%Q data index]> result) result.


(** The quantisation of one captured sample, line 151:
    [pcm16[i] = Math.max(-1, Math.min(1, resampledData[i])) * 0x7FFF]. *)
Definition quantize (x : Q) : Z := ToInt16 (Math.max (-1) (Math.min 1 x) * 32767)%Q.

(** The conversion of one received sample, line 208:
    [float32[i] = pcm16[i] / 0x7FFF]. *)
Definition dequantize (n : Z) : Q := (inject_Z n / 32767)%Q.

(** Lines 149-152: the loop that fills [pcm16] from the resampled frame. *)
Definition to_pcm16 (resampledData : list Q) : list Z :=
  let pcm16 := new_array 0 (array_length resampledData) in
  for_loop (length resampledData) (fun i pcm16 =>
    <[i := quantize (get 0%Q resampledData (Z.of_nat i))]> pcm16) pcm16.

(** Lines 206-209: the loop that fills [float32] from a queued chunk. *)
Definition to_float32 (pcm16 : list Z) : list Q :=
  let float32 := new_array 0%Q (array_length pcm16) in
  for_loop (length pcm16) (fun i float32 =>
    <[i := dequantize (get 0 pcm16 (Z.of_nat i))]> float32) float32.

(** ** Binary floating point *)

(** The exponent of a positive rational: the [k] with [2 ^ k <= x < 2 ^ (k + 1)]. *)
Definition ilog2 (x : Q) : Z :=
  let k := Z.log2 (Qnum x) - Z.log2 (Z.pos (Qden x)) in
  if Qle_bool (2 ^ k) x then k else k - 1.

(** The nearest integer, ties to the even one. *)
Definition round_half_even (x : Q) : Z :=
  let f := Qfloor x in
  match (x - inject_Z f ?= 1 # 2)%Q with
  | Lt => f
  | Gt => f + 1
  | Eq => if Z.even f then f else f + 1
  end.

(** Rounding to the nearest value of a binary format with [prec] bits of
    precision whose smallest positive value is [2 ^ emin], ties to even.
    Overflow is outside the model. *)
Definition round_to (prec emin : Z) (x : Q) : Q :=
  if Qeq_bool x 0 then 0%Q else
  let e := Z.max (ilog2 (Qabs x) - (prec - 1)) emin in
  Qred (inject_Z (round_half_even (x / 2 ^ e)) * 2 ^ e).

Definition binary64_round : Q -> Q := round_to 53 (-1074).
Definition binary32_round : Q -> Q := round_to 24 (-149).

(** The arithmetic of the source: the four operations on numbers and the
    store into a [Float32Array]. *)
Record Arithmetic : Type := {
  div : Q -> Q -> Q;
  mul : Q -> Q -> Q;
  add : Q -> Q -> Q;
  sub : Q -> Q -> Q;
  Float32Array_store : Q -> Q
}.

(** The arithmetic without rounding. *)
Definition exact : Arithmetic :=
  {| div := Qdiv; mul := Qmult; add := Qplus; sub := Qminus; Float32Array_store := fun x => x |}.

(** The arithmetic of JavaScript: every operation is rounded to binary64,
    and a store into a [Float32Array] to binary32. *)
Definition binary64 : Arithmetic :=
  {| div x y := binary64_round (x / y);
     mul x y := binary64_round (x * y);
     add x y := binary64_round (x + y);
     sub x y := binary64_round (x - y);
     Float32Array_store := binary32_round |}.

(** [resample], lines 180-196, in the arithmetic [A]. *)
Definition resample_in (A : Arithmetic) (data : list Q) (fromRate toRate : Q) : list Q :=
  if Qeq_bool fromRate toRate then data else
  let ratio := div A fromRate toRate in
  let newLength := Math.round (div A (inject_Z (array_length data)) ratio) in
  let result := new_array 0%Q newLength in
  for_loop (Z.to_nat newLength) (fun i result =>
    let pos := mul A (inject_Z (Z.of_nat i)) ratio in
    let index := Math.floor pos in
    let frac := sub A pos (inject_Z index) in
    if index + 1 <? array_length data then
      <[i := Float32Array_store A
               (add A (mul A (get 0%Q data index) (sub A 1 frac))
                      (mul A (get 0%Q data (index + 1)) frac))]> result
    else
      <[i := Float32Array_store A (get 0%Q data index)]> result) result.

(** Line 151 and line 208 in the arithmetic [A]. *)
Definition quantize_in (A : Arithmetic) (x : Q) : Z :=
  ToInt16 (mul A (Math.max (-1) (Math.min 1 x)) 32767).

Definition dequantize_in (A : Arithmetic) (n : Z) : Q :=
  Float32Array_store A (div A (inject_Z n) 32767).

(** ** Binary strings, bytes and base64 *)

(** [s.charCodeAt(i)] and [String.fromCharCode(n)] on binary strings, whose
    characters are the codes 0..255. *)
Definition charCode (c : ascii) : Z := Z.of_N (N_of_ascii c).
Definition fromCharCode (n : Z) : ascii := ascii_of_N (Z.to_N n).
Definition charCodeAt (binary : string) (i : nat) : Z :=
  charCode (default zero (String.get i binary)).

Definition base64_alphabet : string :=
  "ABCDEFGHIJKLMNOPQRSTUVWXYZabcdefghijklmnopqrstuvwxyz0123456789+/".

Definition base64_char (n : Z) : ascii :=
  default "="%char (String.get (Z.to_nat n) base64_alphabet).

Definition base64_value (c : ascii) : option Z :=
  Z.of_nat <$> String.index 0 (String c EmptyString) base64_alphabet.

Fixpoint btoa_groups (bytes : list Z) : list ascii :=
  match bytes with
  | [] => []
  | [a] =>
      let n := a * 65536 in
      [base64_char (n / 262144); base64_char (n / 4096 mod 64); "="%char; "="%char]
  | [a; b] =>
      let n := a * 65536 + b * 256 in
      [base64_char (n / 262144); base64_char (n / 4096 mod 64);
       base64_char (n / 64 mod 64); "="%char]
  | a :: b :: c :: rest =>
      let n := a * 65536 + b * 256 + c in
      base64_char (n / 262144) :: base64_char (n / 4096 mod 64) ::
      base64_char (n / 64 mod 64) :: base64_char (n mod 64) :: btoa_groups rest
  end.

(** [btoa]: base64 of a binary string, with padding. *)
Definition btoa (binary : string) : string :=
  string_of_list_ascii (btoa_groups (map charCode (list_ascii_of_string binary))).

Fixpoint atob_groups (sextets : list Z) : list Z :=
  match sextets with
  | a :: b :: c :: d :: rest =>
      let n := a * 262144 + b * 4096 + c * 64 + d in
      n / 65536 :: n / 256 mod 256 :: n mod 256 :: atob_groups rest
  | [a; b; c] =>
      let n := a * 4096 + b * 64 + c in
      [n / 1024; n / 4 mod 256]
  | [a; b] =>
      let n := a * 64 + b in
      [n / 16]
  | _ => []
  end.

Definition is_ascii_whitespace (c : ascii) : bool :=
  let n := charCode c in
  (n =? 9) || (n =? 10) || (n =? 12) || (n =? 13) || (n =? 32).

Definition strip_padding (data : list ascii) : list ascii :=
  if (length data mod 4 =? 0)%nat then
    match reverse data with
    | c1 :: c2 :: r =>
        if Ascii.eqb c1 "=" then (if Ascii.eqb c2 "=" then reverse r else reverse (c2 :: r))
        else data
    | _ => data
    end
  else data.

(** [atob]: the forgiving base64 decoding of the browser; [None] stands for
    the [InvalidCharacterError] it raises. *)
Definition atob (base64 : string) : option string :=
  let data :=
    List.filter (fun c => negb (is_ascii_whitespace c)) (list_ascii_of_string base64) in
  let data := strip_padding data in
  if (length data mod 4 =? 1)%nat then None else
  sextets ← mapM base64_value data;
  Some (string_of_list_ascii (map fromCharCode (atob_groups sextets))).

(** [new Uint8Array(pcm16.buffer)]: the bytes of the samples, low byte first. *)
Definition Uint8Array_of_buffer (pcm16 : list Z) : list Z :=
  flat_map (fun v => [v mod 256; v / 256 mod 256]) pcm16.

(** [new Int16Array(bytes.buffer)]: pairs of bytes read as signed 16-bit
    values, low byte first; [None] stands for the [RangeError] raised when
    the byte length is odd. *)
Fixpoint Int16Array_of_buffer (bytes : list Z) : option (list Z) :=
  match bytes with
  | [] => Some []
  | [_] => None
  | lo :: hi :: rest =>
      let v := lo + 256 * hi in
      cons (if 32768 <=? v then v - 65536 else v) <$> Int16Array_of_buffer rest
  end.

(** ** The component: props, state, refs and the browser around it *)

Inductive Lang : Type := en | bn.

Record AudioContext : Type := { context_id : nat; sampleRate : Q }.
Record MediaStream : Type := { stream_id : nat }.

(** A render of the component: the values of [lang] and [isConnected] that
    the functions created in that render close over. *)
Record Render : Type := { render_lang : Lang; render_isConnected : bool }.

(** A session of the streaming service, made by one call of
    [ai.live.connect]; its callbacks are those of the [connect] closure that
    made the call, which belongs to [session_render]. *)
Record Session : Type := { session_id : nat; session_render : Render }.

(** The script processor of one successful [startMic]: its [onaudioprocess]
    closes over the local [audioContext] and over [isConnected]. *)
Record Processor : Type := { processor_context : AudioContext; processor_isConnected : bool }.

(** The argument of [sendRealtimeInput]. *)
Record Media : Type := { data : string; mimeType : string }.

(** What [onmessage] reads of a [LiveServerMessage]:
    [serverContent?.modelTurn?.parts?.[0]?.inlineData?.data],
    [serverContent?.modelTurn?.parts?.[0]?.text] and
    [serverContent?.interrupted]. *)
Record LiveServerMessage : Type := {
  inlineData : option string;
  text : option string;
  interrupted : option bool
}.

(** The error caught by [connect]: [err.message] and [err.status]. *)
Record ConnectError : Type := { err_message : option string; err_status : option string }.

Abbreviation Int16Array := (list Z) (only parsing).
Abbreviation Float32Array := (list Q) (only parsing).

#[global] Instance Lang_eq_dec : EqDecision Lang.
Proof. solve_decision. Defined.
#[global] Instance Q_eq_dec : EqDecision Q.
Proof. solve_decision. Defined.
#[global] Instance AudioContext_eq_dec : EqDecision AudioContext.
Proof. solve_decision. Defined.
#[global] Instance MediaStream_eq_dec : EqDecision MediaStream.
Proof. solve_decision. Defined.
#[global] Instance Render_eq_dec : EqDecision Render.
Proof. solve_decision. Defined.
#[global] Instance Session_eq_dec : EqDecision Session.
Proof. solve_decision. Defined.
#[global] Instance Processor_eq_dec : EqDecision Processor.
Proof. solve_decision. Defined.

(** The component instance and its surroundings.  [lang] is the prop; the
    next four fields are React state; the five after them are the refs;
    [connectRender] is the render in which the memoised [connect] was created
    ([useCallback] with dependencies [lang] and [systemInstruction]).  The
    remaining fields record the browser and the service: whether
    [navigator.mediaDevices.getUserMedia] exists, the sessions made by
    [ai.live.connect], those that are open, the [startMic] calls that await
    the device, the processors installed, the media sent, the buffer sources
    started and those still sounding, the streams whose tracks were stopped
    and the audio contexts closed. *)
Record State : Type := {
  lang : Lang;
  isConnected : bool;
  isConnecting : bool;
  isListening : bool;
  error : option string;
  audioContextRef : option AudioContext;
  streamRef : option MediaStream;
  sessionRef : option Session;
  audioQueue : list Int16Array;
  isPlaying : bool;
  connectRender : Render;
  mediaDevices : bool;
  sessions : list Session;
  liveSessions : list Session;
  micPending : list Render;
  processors : list Processor;
  sent : list (Session * Media);
  started : list Float32Array;
  active : list Float32Array;
  stoppedStreams : list MediaStream;
  closedContexts : list AudioContext
}.

Definition set_lang (v : Lang) (s : State) : State :=
  {| lang := v; isConnected := isConnected s; isConnecting := isConnecting s;
     isListening := isListening s; error := error s; audioContextRef := audioContextRef s;
     streamRef := streamRef s; sessionRef := sessionRef s; audioQueue := audioQueue s;
     isPlaying := isPlaying s; connectRender := connectRender s; mediaDevices := mediaDevices s;
     sessions := sessions s; liveSessions := liveSessions s; micPending := micPending s;
     processors := processors s; sent := sent s; started := started s; active := active s;
     stoppedStreams := stoppedStreams s; closedContexts := closedContexts s |}.

Definition setIsConnected (v : bool) (s : State) : State :=
  {| lang := lang s; isConnected := v; isConnecting := isConnecting s;
     isListening := isListening s; error := error s; audioContextRef := audioContextRef s;
     streamRef := streamRef s; sessionRef := sessionRef s; audioQueue := audioQueue s;
     isPlaying := isPlaying s; connectRender := connectRender s; mediaDevices := mediaDevices s;
     sessions := sessions s; liveSessions := liveSessions s; micPending := micPending s;
     processors := processors s; sent := sent s; started := started s; active := active s;
     stoppedStreams := stoppedStreams s; closedContexts := closedContexts s |}.

Definition setIsConnecting (v : bool) (s : State) : State :=
  {| lang := lang s; isConnected := isConnected s; isConnecting := v;
     isListening := isListening s; error := error s; audioContextRef := audioContextRef s;
     streamRef := streamRef s; sessionRef := sessionRef s; audioQueue := audioQueue s;
     isPlaying := isPlaying s; connectRender := connectRender s; mediaDevices := mediaDevices s;
     sessions := sessions s; liveSessions := liveSessions s; micPending := micPending s;
     processors := processors s; sent := sent s; started := started s; active := active s;
     stoppedStreams := stoppedStreams s; closedContexts := closedContexts s |}.

Definition setIsListening (v : bool) (s : State) : State :=
  {| lang := lang s; isConnected := isConnected s; isConnecting := isConnecting s;
     isListening := v; error := error s; audioContextRef := audioContextRef s;
     streamRef := streamRef s; sessionRef := sessionRef s; audioQueue := audioQueue s;
     isPlaying := isPlaying s; connectRender := connectRender s; mediaDevices := mediaDevices s;
     sessions := sessions s; liveSessions := liveSessions s; micPending := micPending s;
     processors := processors s; sent := sent s; started := started s; active := active s;
     stoppedStreams := stoppedStreams s; closedContexts := closedContexts s |}.

Definition setError (v : option string) (s : State) : State :=
  {| lang := lang s; isConnected := isConnected s; isConnecting := isConnecting s;
     isListening := isListening s; error := v; audioContextRef := audioContextRef s;
     streamRef := streamRef s; sessionRef := sessionRef s; audioQueue := audioQueue s;
     isPlaying := isPlaying s; connectRender := connectRender s; mediaDevices := mediaDevices s;
     sessions := sessions s; liveSessions := liveSessions s; micPending := micPending s;
     processors := processors s; sent := sent s; started := started s; active := active s;
     stoppedStreams := stoppedStreams s; closedContexts := closedContexts s |}.

Definition set_audioContextRef (v : option AudioContext) (s : State) : State :=
  {| lang := lang s; isConnected := isConnected s; isConnecting := isConnecting s;
     isListening := isListening s; error := error s; audioContextRef := v;
     streamRef := streamRef s; sessionRef := sessionRef s; audioQueue := audioQueue s;
     isPlaying := isPlaying s; connectRender := connectRender s; mediaDevices := mediaDevices s;
     sessions := sessions s; liveSessions := liveSessions s; micPending := micPending s;
     processors := processors s; sent := sent s; started := started s; active := active s;
     stoppedStreams := stoppedStreams s; closedContexts := closedContexts s |}.

Definition set_streamRef (v : option MediaStream) (s : State) : State :=
  {| lang := lang s; isConnected := isConnected s; isConnecting := isConnecting s;
     isListening := isListening s; error := error s; audioContextRef := audioContextRef s;
     streamRef := v; sessionRef := sessionRef s; audioQueue := audioQueue s;
     isPlaying := isPlaying s; connectRender := connectRender s; mediaDevices := mediaDevices s;
     sessions := sessions s; liveSessions := liveSessions s; micPending := micPending s;
     processors := processors s; sent := sent s; started := started s; active := active s;
     stoppedStreams := stoppedStreams s; closedContexts := closedContexts s |}.

Definition set_sessionRef (v : option Session) (s : State) : State :=
  {| lang := lang s; isConnected := isConnected s; isConnecting := isConnecting s;
     isListening := isListening s; error := error s; audioContextRef := audioContextRef s;
     streamRef := streamRef s; sessionRef := v; audioQueue := audioQueue s;
     isPlaying := isPlaying s; connectRender := connectRender s; mediaDevices := mediaDevices s;
     sessions := sessions s; liveSessions := liveSessions s; micPending := micPending s;
     processors := processors s; sent := sent s; started := started s; active := active s;
     stoppedStreams := stoppedStreams s; closedContexts := closedContexts s |}.

Definition set_audioQueue (v : list Int16Array) (s : State) : State :=
  {| lang := lang s; isConnected := isConnected s; isConnecting := isConnecting s;
     isListening := isListening s; error := error s; audioContextRef := audioContextRef s;
     streamRef := streamRef s; sessionRef := sessionRef s; audioQueue := v;
     isPlaying := isPlaying s; connectRender := connectRender s; mediaDevices := mediaDevices s;
     sessions := sessions s; liveSessions := liveSessions s; micPending := micPending s;
     processors := processors s; sent := sent s; started := started s; active := active s;
     stoppedStreams := stoppedStreams s; closedContexts := closedContexts s |}.

Definition set_isPlaying (v : bool) (s : State) : State :=
  {| lang := lang s; isConnected := isConnected s; isConnecting := isConnecting s;
     isListening := isListening s; error := error s; audioContextRef := audioContextRef s;
     streamRef := streamRef s; sessionRef := sessionRef s; audioQueue := audioQueue s;
     isPlaying := v; connectRender := connectRender s; mediaDevices := mediaDevices s;
     sessions := sessions s; liveSessions := liveSessions s; micPending := micPending s;
     processors := processors s; sent := sent s; started := started s; active := active s;
     stoppedStreams := stoppedStreams s; closedContexts := closedContexts s |}.

Definition set_connectRender (v : Render) (s : State) : State :=
  {| lang := lang s; isConnected := isConnected s; isConnecting := isConnecting s;
     isListening := isListening s; error := error s; audioContextRef := audioContextRef s;
     streamRef := streamRef s; sessionRef := sessionRef s; audioQueue := audioQueue s;
     isPlaying := isPlaying s; connectRender := v; mediaDevices := mediaDevices s;
     sessions := sessions s; liveSessions := liveSessions s; micPending := micPending s;
     processors := processors s; sent := sent s; started := started s; active := active s;
     stoppedStreams := stoppedStreams s; closedContexts := closedContexts s |}.

Definition set_sessions (v : list Session) (s : State) : State :=
  {| lang := lang s; isConnected := isConnected s; isConnecting := isConnecting s;
     isListening := isListening s; error := error s; audioContextRef := audioContextRef s;
     streamRef := streamRef s; sessionRef := sessionRef s; audioQueue := audioQueue s;
     isPlaying := isPlaying s; connectRender := connectRender s; mediaDevices := mediaDevices s;
     sessions := v; liveSessions := liveSessions s; micPending := micPending s;
     processors := processors s; sent := sent s; started := started s; active := active s;
     stoppedStreams := stoppedStreams s; closedContexts := closedContexts s |}.

Definition set_liveSessions (v : list Session) (s : State) : State :=
  {| lang := lang s; isConnected := isConnected s; isConnecting := isConnecting s;
     isListening := isListening s; error := error s; audioContextRef := audioContextRef s;
     streamRef := streamRef s; sessionRef := sessionRef s; audioQueue := audioQueue s;
     isPlaying := isPlaying s; connectRender := connectRender s; mediaDevices := mediaDevices s;
     sessions := sessions s; liveSessions := v; micPending := micPending s;
     processors := processors s; sent := sent s; started := started s; active := active s;
     stoppedStreams := stoppedStreams s; closedContexts := closedContexts s |}.

Definition set_micPending (v : list Render) (s : State) : State :=
  {| lang := lang s; isConnected := isConnected s; isConnecting := isConnecting s;
     isListening := isListening s; error := error s; audioContextRef := audioContextRef s;
     streamRef := streamRef s; sessionRef := sessionRef s; audioQueue := audioQueue s;
     isPlaying := isPlaying s; connectRender := connectRender s; mediaDevices := mediaDevices s;
     sessions := sessions s; liveSessions := liveSessions s; micPending := v;
     processors := processors s; sent := sent s; started := started s; active := active s;
     stoppedStreams := stoppedStreams s; closedContexts := closedContexts s |}.

Definition set_processors (v : list Processor) (s : State) : State :=
  {| lang := lang s; isConnected := isConnected s; isConnecting := isConnecting s;
     isListening := isListening s; error := error s; audioContextRef := audioContextRef s;
     streamRef := streamRef s; sessionRef := sessionRef s; audioQueue := audioQueue s;
     isPlaying := isPlaying s; connectRender := connectRender s; mediaDevices := mediaDevices s;
     sessions := sessions s; liveSessions := liveSessions s; micPending := micPending s;
     processors := v; sent := sent s; started := started s; active := active s;
     stoppedStreams := stoppedStreams s; closedContexts := closedContexts s |}.

Definition set_sent (v : list (Session * Media)) (s : State) : State :=
  {| lang := lang s; isConnected := isConnected s; isConnecting := isConnecting s;
     isListening := isListening s; error := error s; audioContextRef := audioContextRef s;
     streamRef := streamRef s; sessionRef := sessionRef s; audioQueue := audioQueue s;
     isPlaying := isPlaying s; connectRender := connectRender s; mediaDevices := mediaDevices s;
     sessions := sessions s; liveSessions := liveSessions s; micPending := micPending s;
     processors := processors s; sent := v; started := started s; active := active s;
     stoppedStreams := stoppedStreams s; closedContexts := closedContexts s |}.

Definition set_started (v : list Float32Array) (s : State) : State :=
  {| lang := lang s; isConnected := isConnected s; isConnecting := isConnecting s;
     isListening := isListening s; error := error s; audioContextRef := audioContextRef s;
     streamRef := streamRef s; sessionRef := sessionRef s; audioQueue := audioQueue s;
     isPlaying := isPlaying s; connectRender := connectRender s; mediaDevices := mediaDevices s;
     sessions := sessions s; liveSessions := liveSessions s; micPending := micPending s;
     processors := processors s; sent := sent s; started := v; active := active s;
     stoppedStreams := stoppedStreams s; closedContexts := closedContexts s |}.

Definition set_active (v : list Float32Array) (s : State) : State :=
  {| lang := lang s; isConnected := isConnected s; isConnecting := isConnecting s;
     isListening := isListening s; error := error s; audioContextRef := audioContextRef s;
     streamRef := streamRef s; sessionRef := sessionRef s; audioQueue := audioQueue s;
     isPlaying := isPlaying s; connectRender := connectRender s; mediaDevices := mediaDevices s;
     sessions := sessions s; liveSessions := liveSessions s; micPending := micPending s;
     processors := processors s; sent := sent s; started := started s; active := v;
     stoppedStreams := stoppedStreams s; closedContexts := closedContexts s |}.

Definition set_stoppedStreams (v : list MediaStream) (s : State) : State :=
  {| lang := lang s; isConnected := isConnected s; isConnecting := isConnecting s;
     isListening := isListening s; error := error s; audioContextRef := audioContextRef s;
     streamRef := streamRef s; sessionRef := sessionRef s; audioQueue := audioQueue s;
     isPlaying := isPlaying s; connectRender := connectRender s; mediaDevices := mediaDevices s;
     sessions := sessions s; liveSessions := liveSessions s; micPending := micPending s;
     processors := processors s; sent := sent s; started := started s; active := active s;
     stoppedStreams := v; closedContexts := closedContexts s |}.

Definition set_closedContexts (v : list AudioContext) (s : State) : State :=
  {| lang := lang s; isConnected := isConnected s; isConnecting := isConnecting s;
     isListening := isListening s; error := error s; audioContextRef := audioContextRef s;
     streamRef := streamRef s; sessionRef := sessionRef s; audioQueue := audioQueue s;
     isPlaying := isPlaying s; connectRender := connectRender s; mediaDevices := mediaDevices s;
     sessions := sessions s; liveSessions := liveSessions s; micPending := micPending s;
     processors := processors s; sent := sent s; started := started s; active := active s;
     stoppedStreams := stoppedStreams s; closedContexts := v |}.

(** The state of a freshly mounted component. *)
Definition mount (l : Lang) (hasMediaDevices : bool) : State :=
  {| lang := l; isConnected := false; isConnecting := false; isListening := false;
     error := None; audioContextRef := None; streamRef := None; sessionRef := None;
     audioQueue := []; isPlaying := false;
     connectRender := {| render_lang := l; render_isConnected := false |};
     mediaDevices := hasMediaDevices; sessions := []; liveSessions := [];
     micPending := []; processors := []; sent := []; started := []; active := [];
     stoppedStreams := []; closedContexts := [] |}.

(** A handler either returns or is left by an exception; the state it has
    reached stays as it is in both cases. *)
Inductive Completion : Type := Normal | Thrown.

(** ** The handlers *)

(** [stopAll], lines 221-234.  The session is not closed: the call is
    commented out in the source. *)
Definition stopAll (s : State) : State :=
  let s := match streamRef s with
           | Some stream => set_stoppedStreams (stoppedStreams s ++ [stream]) s
           | None => s
           end in
  let s := match audioContextRef s with
           | Some audioContext => set_closedContexts (closedContexts s ++ [audioContext]) s
           | None => s
           end in
  let s := setIsConnected false s in
  let s := setIsListening false s in
  setIsConnecting false s.

(** [playNextChunk], lines 198-219.  [createBuffer] raises for a buffer of
    zero frames. *)
Definition playNextChunk (s : State) : Completion * State :=
  if (array_length (audioQueue s) =? 0) || negb (bool_decide (is_Some (audioContextRef s))) then
    (Normal, set_isPlaying false s)
  else
    let s := set_isPlaying true s in
    match audioQueue s with
    | [] => (Normal, s)
    | pcm16 :: rest =>
        let s := set_audioQueue rest s in
        let float32 := to_float32 pcm16 in
        if array_length float32 =? 0 then (Thrown, s) else
        let s := set_started (started s ++ [float32]) s in
        (Normal, set_active (active s ++ [float32]) s)
    end.

(** Lines 56-61: the decoding of an audio payload. *)
Definition decode_audio (base64Audio : string) : option Int16Array :=
  binary ← atob base64Audio;
  let bytes := new_array 0 (Z.of_nat (String.length binary)) in
  let bytes := for_loop (String.length binary) (fun i bytes =>
                 <[i := charCodeAt binary i]> bytes) bytes in
  Int16Array_of_buffer bytes.

Definition truthy_string (o : option string) : option string :=
  match o with
  | Some EmptyString => None
  | _ => o
  end.

Definition truthy_bool (o : option bool) : bool := default false o.

(** [onmessage], lines 52-77. *)
Definition onmessage (message : LiveServerMessage) (s : State) : Completion * State :=
  let after_audio :=
    match truthy_string (inlineData message) with
    | Some base64Audio =>
        match decode_audio base64Audio with
        | None => (Thrown, s)
        | Some pcm16 =>
            let s := set_audioQueue (audioQueue s ++ [pcm16]) s in
            if negb (isPlaying s) then playNextChunk s else (Normal, s)
        end
    | None => (Normal, s)
    end in
  match after_audio with
  | (Thrown, s) => (Thrown, s)
  | (Normal, s) =>
      if truthy_bool (interrupted message) then
        let s := set_audioQueue [] s in
        (Normal, set_isPlaying false s)
      else (Normal, s)
  end.

(** [onaudioprocess], lines 140-158, for the processor whose closure holds
    [audioContext] and the value [isConnected]. *)
Definition onaudioprocess (audioContext : AudioContext) (isConnected : bool)
    (inputData : Float32Array) (s : State) : State :=
  match sessionRef s with
  | None => s
  | Some session =>
      if negb isConnected then s else
      let targetSampleRate := 16000 in
      let resampledData :=
        resample inputData (sampleRate audioContext) (inject_Z targetSampleRate) in
      let pcm16 := to_pcm16 resampledData in
      let base64 :=
        btoa (string_of_list_ascii (map fromCharCode (Uint8Array_of_buffer pcm16))) in
      set_sent (sent s ++ [(session,
        {| data := base64; mimeType := "audio/pcm;rate=" +:+ pretty targetSampleRate |})]) s
  end.

(** The outcome of the awaits of [startMic]: a rejection with [err.name],
    no audio input among the enumerated devices, or a stream together with
    the audio context then created. *)
Inductive MicOutcome : Type :=
| MicRejected (name : string)
| NoAudioInput
| MicGranted (stream : MediaStream) (audioContext : AudioContext).

Definition micErrorMessage (l : Lang) (name : string) : string :=
  if bool_decide (name = "NotFoundError" \/ name = "DevicesNotFoundError"
                  \/ name = "OverconstrainedError") then
    match l with
    | en => "No microphone found or it's being used by another app. "
            +:+ "Please check your connection."
    | bn => "কোনো মাইক্রোফোন পাওয়া যায়নি বা এটি অন্য অ্যাপ ব্যবহার করছে। আপনার সংযোগ পরীক্ষা করুন।"
    end
  else if bool_decide (name = "NotAllowedError" \/ name = "PermissionDeniedError") then
    match l with
    | en => "Microphone permission denied. Please allow access in your browser settings."
    | bn => "মাইক্রোফোন ব্যবহারের অনুমতি দেওয়া হয়নি। অনুগ্রহ করে ব্রাউজার সেটিংসে অনুমতি দিন।"
    end
  else
    match l with
    | en => "Microphone access error."
    | bn => "মাইক্রোফোন অ্যাক্সেস ত্রুটি।"
    end.

(** [startMic], lines 104-110: up to the first await. *)
Definition startMic (r : Render) (s : State) : State :=
  if negb (mediaDevices s) then
    setError (Some match render_lang r with
                   | en => "Your browser does not support microphone access."
                   | bn => "আপনার ব্রাউজার মাইক্রোফোন অ্যাক্সেস সমর্থন করে না।"
                   end) s
  else set_micPending (micPending s ++ [r]) s.

(** [startMic], lines 112-176: after the awaits. *)
Definition startMic_settled (r : Render) (o : MicOutcome) (s : State) : State :=
  let failed name := stopAll (setError (Some (micErrorMessage (render_lang r) name)) s) in
  match o with
  | MicRejected name => failed name
  | NoAudioInput => failed "NotFoundError"
  | MicGranted stream audioContext =>
      let s := set_streamRef (Some stream) s in
      let s := set_audioContextRef (Some audioContext) s in
      let s := set_processors (processors s ++
                 [{| processor_context := audioContext;
                     processor_isConnected := render_isConnected r |}]) s in
      setIsListening true s
  end.

(** [connect], lines 28-88: up to the await; [ai.live.connect] makes the
    session and hands it the callbacks of this closure. *)
Definition connect (s : State) : State :=
  let s := setIsConnecting true s in
  let s := setError None s in
  let session := {| session_id := length (sessions s); session_render := connectRender s |} in
  set_sessions (sessions s ++ [session]) s.

(** [connect], line 90: the await has returned the session. *)
Definition connect_resolved (session : Session) (s : State) : State :=
  set_sessionRef (Some session) s.

Definition includes (str sub : string) : bool := bool_decide (is_Some (String.index 0 sub str)).

(** [connect], lines 91-101: the await has raised [err]. *)
Definition connect_rejected (r : Render) (err : ConnectError) (s : State) : State :=
  let quota := match err_message err with Some m => includes m "429" | None => false end
               || bool_decide (err_status err = Some "RESOURCE_EXHAUSTED") in
  let s :=
    if quota then
      setError (Some match render_lang r with
                     | en => "AI Quota Exceeded. Please wait a few minutes."
                     | bn => "এআই কোটা শেষ হয়ে গেছে। অনুগ্রহ করে কয়েক মিনিট অপেক্ষা করুন।"
                     end) s
    else setError (Some "Failed to initialize voice agent.") s in
  setIsConnecting false s.

(** The callbacks handed to [ai.live.connect], lines 47-51 and 78-86. *)
Definition onopen (r : Render) (s : State) : State :=
  let s := setIsConnected true s in
  let s := setIsConnecting false s in
  startMic r s.

Definition onerror (s : State) : State :=
  let s := setError (Some "Connection error. Please try again.") s in
  stopAll s.

Definition onclose (s : State) : State :=
  let s := setIsConnected false s in
  stopAll s.

(** The main button, lines 276-278: [onClick={isConnected ? stopAll : connect}]
    and [disabled={isConnecting}]. *)
Definition onClick (s : State) : State :=
  if isConnected s then stopAll s else connect s.

Definition click (s : State) : State :=
  if isConnecting s then s else onClick s.

(** A render with a new [lang]: [useCallback] keeps the old [connect] unless
    [lang] has changed. *)
Definition render (l : Lang) (s : State) : State :=
  if bool_decide (l = lang s) then s else
  let s := set_lang l s in
  set_connectRender {| render_lang := l; render_isConnected := isConnected s |} s.

(** ** Events *)

Inductive Event : Type :=
| Click
| LangChange (l : Lang)
| Unmount
| ConnectResolved (session : Session)
| ConnectRejected (session : Session) (err : ConnectError)
| OnOpen (session : Session)
| OnMessage (session : Session) (message : LiveServerMessage)
| OnError (session : Session)
| OnClose (session : Session)
| MicSettled (r : Render) (o : MicOutcome)
| AudioProcess (p : Processor) (inputData : Float32Array)
| Ended (i : nat).

(** One event; [None] when the event cannot occur in [s]: a callback of a
    session that [connect] has not made, the end of a source that is not
    sounding, and the like. *)
Definition step (e : Event) (s : State) : option State :=
  match e with
  | Click => Some (click s)
  | LangChange l => Some (render l s)
  | Unmount => Some (stopAll s)
  | ConnectResolved session =>
      if bool_decide (session ∈ sessions s) then Some (connect_resolved session s) else None
  | ConnectRejected session err =>
      if bool_decide (session ∈ sessions s)
      then Some (connect_rejected (session_render session) err s) else None
  | OnOpen session =>
      if bool_decide (session ∈ sessions s)
      then Some (onopen (session_render session)
                   (set_liveSessions (liveSessions s ++ [session]) s))
      else None
  | OnMessage session message =>
      if bool_decide (session ∈ sessions s) then Some (snd (onmessage message s)) else None
  | OnError session =>
      if bool_decide (session ∈ sessions s) then Some (onerror s) else None
  | OnClose session =>
      if bool_decide (session ∈ sessions s)
      then Some (onclose (set_liveSessions
                   (List.filter (fun x => negb (bool_decide (x = session))) (liveSessions s)) s))
      else None
  | MicSettled r o =>
      match micPending s with
      | r' :: rest =>
          if bool_decide (r = r') then Some (startMic_settled r o (set_micPending rest s))
          else None
      | [] => None
      end
  | AudioProcess p inputData =>
      if bool_decide (p ∈ processors s)
      then Some (onaudioprocess (processor_context p) (processor_isConnected p) inputData s)
      else None
  | Ended i =>
      match active s !! i with
      | Some _ => Some (snd (playNextChunk (set_active (delete i (active s)) s)))
      | None => None
      end
  end.

Fixpoint run (events : list Event) (s : State) : option State :=
  match events with
  | [] => Some s
  | e :: events => s' ← step e s; run events s'
  end.

(** ** Vocabulary of the statements *)

(** The chunk that the audio payload of a message decodes to, as a list of at
    most one element. *)
Definition payload (message : LiveServerMessage) : list Int16Array :=
  match truthy_string (inlineData message) with
  | Some base64Audio => option_list (decode_audio base64Audio)
  | None => []
  end.

Definition delivered_event (e : Event) : list Int16Array :=
  match e with
  | OnMessage _ message => payload message
  | _ => []
  end.

(** The chunks delivered by the messages of a sequence of events, in order. *)
Definition delivered (events : list Event) : list Int16Array := flat_map delivered_event events.

Definition nonempty_chunk (pcm16 : Int16Array) : bool := negb (array_length pcm16 =? 0).

(** A message as the service sends it: the audio payload, when there is one,
    is base64 of 16-bit PCM with at least one sample. *)
Definition wf_message (message : LiveServerMessage) : bool :=
  match truthy_string (inlineData message) with
  | Some base64Audio =>
      match decode_audio base64Audio with
      | Some pcm16 => nonempty_chunk pcm16
      | None => false
      end
  | None => true
  end.

Definition wf_queue (s : State) : bool := forallb nonempty_chunk (audioQueue s).

Definition not_interrupting (e : Event) : bool :=
  match e with
  | OnMessage _ message => negb (truthy_bool (interrupted message))
  | _ => true
  end.

(** The events of undisturbed playback: messages without interruption and
    ends of sources. *)
Definition playback_event (e : Event) : bool :=
  match e with
  | OnMessage _ message => wf_message message && negb (truthy_bool (interrupted message))
  | Ended _ => true
  | _ => false
  end.

Definition ended_event (e : Event) : nat :=
  match e with
  | Ended _ => 1
  | _ => 0
  end.

(** The number of completion callbacks in a sequence of events. *)
Definition ended (events : list Event) : nat := sum_list (map ended_event events).

Definition not_message (e : Event) : bool :=
  match e with
  | OnMessage _ _ => false
  | _ => true
  end.

Definition no_language_change (e : Event) : bool :=
  match e with
  | LangChange _ => false
  | _ => true
  end.

(** No audio context yet: nothing plays and nothing has played. *)
Record idle_without_context (s : State) : Prop := {
  iwc_context : audioContextRef s = None;
  iwc_isPlaying : isPlaying s = false;
  iwc_active : active s = [];
  iwc_started : started s = []
}.

(** Undisturbed playback: at most one source sounds, the flag says whether
    one does, and an idle bridge has an empty queue. *)
Record playing_inv (s : State) : Prop := {
  pi_context : is_Some (audioContextRef s);
  pi_one : (length (active s) <= 1)%nat;
  pi_flag : isPlaying s = bool_decide (active s <> []);
  pi_idle : isPlaying s = false -> audioQueue s = [];
  pi_queue : wf_queue s = true
}.

(** Every closure in use was created in a render whose [isConnected] was
    false, and nothing has been sent. *)
Record first_render_closures (s : State) : Prop := {
  frc_connect : render_isConnected (connectRender s) = false;
  frc_sessions : Forall (fun x => render_isConnected (session_render x) = false) (sessions s);
  frc_micPending : Forall (fun r => render_isConnected r = false) (micPending s);
  frc_processors : Forall (fun p => processor_isConnected p = false) (processors s);
  frc_sent : sent s = []
}.

(** ** Sample runs *)

Definition first_render : Render := {| render_lang := en; render_isConnected := false |}.
Definition session0 : Session := {| session_id := 0; session_render := first_render |}.
Definition session1 : Session := {| session_id := 1; session_render := first_render |}.
Definition context48k : AudioContext := {| context_id := 0; sampleRate := 48000 |}.
Definition stream0 : MediaStream := {| stream_id := 0 |}.

Definition audio (base64Audio : string) : LiveServerMessage :=
  {| inlineData := Some base64Audio; text := None; interrupted := None |}.

Definition interruption : LiveServerMessage :=
  {| inlineData := None; text := None; interrupted := Some true |}.

(** Connect, open, microphone granted. *)
Definition connected : list Event :=
  [Click; OnOpen session0; ConnectResolved session0;
   MicSettled first_render (MicGranted stream0 context48k)].

(** Three payloads: the chunks [[1; 2]], [[3]] and [[4]]. *)
Definition three_chunks : list Event :=
  [OnMessage session0 (audio "AQACAA=="); OnMessage session0 (audio "AwA=");
   OnMessage session0 (audio "BAA=")].

Definition listening : State :=
  Eval vm_compute in default (mount en true) (run connected (mount en true)).

Definition sounding : State :=
  Eval vm_compute in default (mount en true) (run (connected ++ three_chunks) (mount en true)).

(** Two payloads arrive while the microphone is still awaited. *)
Definition awaiting_microphone : list Event :=
  [Click; OnOpen session0; ConnectResolved session0;
   OnMessage session0 (audio "AQACAA=="); OnMessage session0 (audio "AwA=")].

Definition unheard : State :=
  Eval vm_compute in default (mount en true) (run awaiting_microphone (mount en true)).

(** The language changes while connected; the next [connect] then closes
    over [isConnected = true]. *)
Definition second_render : Render := {| render_lang := bn; render_isConnected := true |}.
Definition session1_bn : Session := {| session_id := 1; session_render := second_render |}.
Definition context44k : AudioContext := {| context_id := 1; sampleRate := 44100 |}.
Definition stream1 : MediaStream := {| stream_id := 1 |}.

Definition reconnected_after_language_change : list Event :=
  connected ++
  [LangChange bn; Click; Click; OnOpen session1_bn; ConnectResolved session1_bn;
   MicSettled second_render (MicGranted stream1 context44k)].

(** ** The analysis and speech service (src/server.ts, lines 85-213) *)

(** The outcome of an awaited promise: the value it resolves to or the error
    it rejects with ([err.message] and [err.status], as in [connect]). *)
Inductive Outcome (T : Type) : Type :=
| Resolved (value : T)
| Rejected (err : ConnectError).
Arguments Resolved {T} value.
Arguments Rejected {T} err.

(** [err.message?.includes('429') || err.status === 'RESOURCE_EXHAUSTED'] *)
Definition is_quota_error (err : ConnectError) : bool :=
  match err_message err with Some m => includes m "429" | None => false end
  || bool_decide (err_status err = Some "RESOURCE_EXHAUSTED").

(** [withRetry], lines 90-100.  [fn k] is the outcome of the call of [fn]
    that is made after [k] earlier calls, [made] the number of calls made so
    far; the result comes with the delays waited, in order.  [retries] is a
    natural number at every call of the source (the default is 2). *)
Fixpoint withRetry {T : Type} (fn : nat -> Outcome T) (retries : nat) (delay : Z) (made : nat)
    : Outcome T * list Z :=
  match fn made with
  | Resolved value => (Resolved value, [])
  | Rejected err =>
      match retries with
      | S retries' =>
          if is_quota_error err then
            let (result, waited) := withRetry fn retries' (delay * 2) (S made) in
            (result, delay :: waited)
          else (Rejected err, [])
      | O => (Rejected err, [])
      end
  end.

(** [s.split(sep)] for a separator of one character: the first piece and
    the pieces after it. *)
Fixpoint split_pieces (sep : ascii) (s : string) : string * list string :=
  match s with
  | EmptyString => (EmptyString, [])
  | String c rest =>
      let (piece, pieces) := split_pieces sep rest in
      if Ascii.eqb c sep then (EmptyString, piece :: pieces) else (String c piece, pieces)
  end.

Definition split (sep : ascii) (s : string) : list string :=
  let (piece, pieces) := split_pieces sep s in piece :: pieces.

(** [analyzeChart], line 118: [imageBase64.split(',')[1] || imageBase64]. *)
Definition image_data (imageBase64 : string) : string :=
  default imageBase64 (truthy_string (split "," imageBase64 !! 1%nat)).

(** Conversions of [DataView]'s setters. *)
Definition ToUint32 (x : Q) : Z := Math.trunc x mod 4294967296.
Definition ToUint16 (x : Q) : Z := Math.trunc x mod 65536.

(** [view.setUint32(byteOffset, value, littleEndian)] and
    [view.setUint16(byteOffset, value, littleEndian)] on the bytes of the
    buffer.  A write past the end raises in the source; the writes of
    [addWavHeader] all lie within the 44 bytes. *)
Definition setUint32 (byteOffset : nat) (value : Q) (littleEndian : bool) (view : list Z)
    : list Z :=
  let v := ToUint32 value in
  let b0 := v mod 256 in
  let b1 := v / 256 mod 256 in
  let b2 := v / 65536 mod 256 in
  let b3 := v / 16777216 in
  if littleEndian then
    <[(byteOffset + 3)%nat := b3]> (<[(byteOffset + 2)%nat := b2]> (<[(byteOffset + 1)%nat := b1]>
      (<[byteOffset := b0]> view)))
  else
    <[(byteOffset + 3)%nat := b0]> (<[(byteOffset + 2)%nat := b1]> (<[(byteOffset + 1)%nat := b2]>
      (<[byteOffset := b3]> view))).

Definition setUint16 (byteOffset : nat) (value : Q) (littleEndian : bool) (view : list Z)
    : list Z :=
  let v := ToUint16 value in
  let b0 := v mod 256 in
  let b1 := v / 256 in
  if littleEndian then <[(byteOffset + 1)%nat := b1]> (<[byteOffset := b0]> view)
  else <[(byteOffset + 1)%nat := b0]> (<[byteOffset := b1]> view).

(** [addWavHeader], lines 166-213; [None] stands for the exception of
    [atob]. *)
Definition addWavHeader (pcmBase64 : string) (sampleRate : Q) : option string :=
  binary ← atob pcmBase64;
  let pcmData := map charCode (list_ascii_of_string binary) in
  let numChannels := 1%Q in
  let bitsPerSample := 16%Q in
  let byteRate := (sampleRate * numChannels * bitsPerSample / 8)%Q in
  let blockAlign := (numChannels * bitsPerSample / 8)%Q in
  let dataSize := array_length pcmData in
  let view := new_array 0 44 in
  let view := setUint32 0%nat (inject_Z 0x52494646) false view in
  let view := setUint32 4%nat (36 + inject_Z dataSize)%Q true view in
  let view := setUint32 8%nat (inject_Z 0x57415645) false view in
  let view := setUint32 12%nat (inject_Z 0x666d7420) false view in
  let view := setUint32 16%nat 16%Q true view in
  let view := setUint16 20%nat 1%Q true view in
  let view := setUint16 22%nat numChannels true view in
  let view := setUint32 24%nat sampleRate true view in
  let view := setUint32 28%nat byteRate true view in
  let view := setUint16 32%nat blockAlign true view in
  let view := setUint16 34%nat bitsPerSample true view in
  let view := setUint32 36%nat (inject_Z 0x64617461) false view in
  let view := setUint32 40%nat (inject_Z dataSize) true view in
  let wavData := view ++ pcmData in
  let binary := for_loop (length wavData) (fun i binary =>
                  binary +:+ String (fromCharCode (get 0 wavData (Z.of_nat i))) EmptyString)
                  EmptyString in
  Some ("data:audio/wav;base64," +:+ btoa binary).

(** Why [generateSpeech] rejects: the error of the service, no audio in the
    response, or the exception of [atob]. *)
Inductive SpeechError : Type :=
| ServiceError (err : ConnectError)
| NoAudio
| InvalidCharacterError.

(** [generateSpeech], lines 142-164, given the outcomes of the calls of the
    service; a response is read for
    [candidates?.[0]?.content?.parts?.[0]?.inlineData?.data]. *)
Definition generateSpeech (fn : nat -> Outcome (option string)) : (SpeechError + string) * list Z :=
  let (response, waited) := withRetry fn 2%nat 2000 0%nat in
  match response with
  | Rejected err => (inl (ServiceError err), waited)
  | Resolved base64Audio =>
      match truthy_string base64Audio with
      | None => (inl NoAudio, waited)
      | Some base64Audio =>
          match addWavHeader base64Audio 24000 with
          | Some url => (inr url, waited)
          | None => (inl InvalidCharacterError, waited)
          end
      end
  end.

(** ** Vocabulary of the further properties *)

(** The value that the loop of [resample] stores at index [i]. *)
Definition interpolated (data : list Q) (ratio : Q) (i : nat) : Q :=
  let pos := (inject_Z (Z.of_nat i) * ratio)%Q in
  let index := Math.floor pos in
  let frac := (pos - inject_Z index)%Q in
  if index + 1 <? array_length data then
    (get 0%Q data index * (1 - frac) + get 0%Q data (index + 1) * frac)%Q
  else get 0%Q data index.

(** The characters of [btoa] without the padding, and the 6-bit values they
    stand for. *)
Fixpoint btoa_body (bytes : list Z) : list ascii :=
  match bytes with
  | [] => []
  | [a] =>
      let n := a * 65536 in
      [base64_char (n / 262144); base64_char (n / 4096 mod 64)]
  | [a; b] =>
      let n := a * 65536 + b * 256 in
      [base64_char (n / 262144); base64_char (n / 4096 mod 64); base64_char (n / 64 mod 64)]
  | a :: b :: c :: rest =>
      let n := a * 65536 + b * 256 + c in
      base64_char (n / 262144) :: base64_char (n / 4096 mod 64) ::
      base64_char (n / 64 mod 64) :: base64_char (n mod 64) :: btoa_body rest
  end.

Definition is_byte (v : Z) : Prop := 0 <= v < 256.
Definition is_int16 (v : Z) : Prop := -32768 <= v <= 32767.

(** What holds of the flags and the refs in every state the component
    reaches. *)
Record flags_inv (s : State) : Prop := {
  fi_button : isConnecting s && isConnected s = false;
  fi_listening : isListening s = true -> is_Some (streamRef s) /\ is_Some (audioContextRef s);
  fi_playing : isPlaying s = true -> is_Some (audioContextRef s)
}.

(** The refs of [t] hold whatever the refs of [s] hold. *)
Record refs_kept (s t : State) : Prop := {
  rk_session : is_Some (sessionRef s) -> is_Some (sessionRef t);
  rk_stream : is_Some (streamRef s) -> is_Some (streamRef t);
  rk_context : is_Some (audioContextRef s) -> is_Some (audioContextRef t)
}.

Definition not_close (e : Event) : bool :=
  match e with
  | OnClose _ => false
  | _ => true
  end.

(** [playNextChunk] and [onmessage] touch the queue, the playing flag and
    the sources only. *)
Record playback_only (s t : State) : Prop := {
  po_isConnected : isConnected t = isConnected s;
  po_isConnecting : isConnecting t = isConnecting s;
  po_isListening : isListening t = isListening s;
  po_sessionRef : sessionRef t = sessionRef s;
  po_streamRef : streamRef t = streamRef s;
  po_audioContextRef : audioContextRef t = audioContextRef s;
  po_liveSessions : liveSessions t = liveSessions s;
  po_isPlaying : isPlaying t = true -> isPlaying s = true \/ is_Some (audioContextRef s)
}.

(** Playback is marked while no source sounds: no completion callback is
    left to start the next chunk. *)
Record stalled (s : State) : Prop := {
  st_isPlaying : isPlaying s = true;
  st_active : active s = []
}.

(** The bytes of [v], low byte first. *)
Definition le16 (v : Z) : list Z := [v mod 256; v / 256 mod 256].
Definition le32 (v : Z) : list Z :=
  [v mod 256; v / 256 mod 256; v / 65536 mod 256; v / 16777216 mod 256].

Definition bytes_of_string (s : string) : list Z := map charCode (list_ascii_of_string s).
Definition string_of_bytes (bytes : list Z) : string :=
  string_of_list_ascii (map fromCharCode bytes).

(** The canonical header of a file of 16-bit mono PCM. *)
Definition wav_header (sampleRate dataSize : Z) : list Z :=
  bytes_of_string "RIFF" ++ le32 (36 + dataSize) ++ bytes_of_string "WAVE"
  ++ bytes_of_string "fmt " ++ le32 16 ++ le16 1 ++ le16 1
  ++ le32 sampleRate ++ le32 (sampleRate * 2) ++ le16 2 ++ le16 16
  ++ bytes_of_string "data" ++ le32 dataSize.

(** The value of bytes read low byte first, as [getUint32] and [getUint16]
    with [littleEndian] read them. *)
Definition read_le (bytes : list Z) : Z := foldr (fun b v => b + 256 * v) 0 bytes.

(** The bytes [first, first + len) of a file. *)
Definition bytes_at (first len : nat) (bytes : list Z) : list Z := take len (drop first bytes).

(** ** Further sample runs *)

(** After connect and open, with the microphone still awaited. *)
Definition opened : State :=
  Eval vm_compute in default (mount en true) (run [Click; OnOpen session0] (mount en true)).

Definition quota_error : ConnectError :=
  {| err_message := Some "429 Too Many Requests"; err_status := None |}.

(** A service that is out of quota twice and then answers with the chunk
    [[1; 2]]. *)
Definition answers_third (made : nat) : Outcome (option string) :=
  match made with
  | 0%nat | 1%nat => Rejected quota_error
  | _ => Resolved (Some "AQACAA==")
  end.

Definition context48k_late : AudioContext := {| context_id := 1; sampleRate := 48000 |}.

(** Connect, open, microphone granted; the language changes; stop; connect
    again, open; stop before the microphone is granted. *)
Definition stopped_before_grant : list Event :=
  connected ++
  [LangChange bn; Click; Click; OnOpen session1_bn; ConnectResolved session1_bn; Click].

(** * Properties *)

(** ** Loops and typed arrays *)

Lemma for_loop_preserves_length {A : Type} (n : nat) (body : nat -> list A -> list A) (a : list A) :
  (forall i acc, length (body i acc) = length acc) ->
  length (for_loop n body a) = length a.
Proof.
  intros Hbody. unfold for_loop. generalize (seq 0 n) as l. intros l. revert a.
  induction l as [|i l IH]; intros a; simpl; [reflexivity|].
  rewrite IH. apply Hbody.
Qed.

Lemma foldl_insert_lookup {A : Type} (f : nat -> A) (k s : nat) (a : list A) (j : nat) :
  foldl (fun acc i => <[i := f i]> acc) a (seq s k) !! j =
  if bool_decide (s <= j < s + k /\ j < length a)%nat then Some (f j) else a !! j.
Proof.
  revert s a. induction k as [|k IH]; intros s a; simpl.
  - rewrite bool_decide_eq_false_2; [reflexivity | lia].
  - rewrite IH, length_insert.
    destruct (decide (j = s)) as [->|Hne].
    + case_bool_decide as H1; case_bool_decide as H2; try lia; try reflexivity.
      * apply list_lookup_insert_eq. lia.
      * rewrite list_insert_ge by lia. reflexivity.
    + rewrite list_lookup_insert_ne by congruence.
      case_bool_decide as H1; case_bool_decide as H2; try lia; reflexivity.
Qed.

Lemma get_lookup {A : Type} (zero : A) (a : list A) (i : nat) (x : A) :
  a !! i = Some x -> get zero a (Z.of_nat i) = x.
Proof.
  intros H. unfold get. destruct (Z.ltb_spec (Z.of_nat i) 0); [lia|].
  rewrite Nat2Z.id, H. reflexivity.
Qed.

(** A loop that assigns [g (src[i])] to every index of a fresh array of the
    length of [src] computes [map g src]. *)
Lemma for_loop_map {A B : Type} (g : A -> B) (za : A) (zb : B) (src : list A) :
  for_loop (length src) (fun i acc => <[i := g (get za src (Z.of_nat i))]> acc)
    (new_array zb (array_length src)) = map g src.
Proof.
  unfold for_loop, new_array, array_length. rewrite Nat2Z.id.
  apply list_eq. intros j.
  rewrite (foldl_insert_lookup (fun i => g (get za src (Z.of_nat i)))).
  rewrite length_replicate, list_lookup_fmap.
  destruct (src !! j) as [x|] eqn:Hj.
  - apply lookup_lt_Some in Hj as Hlt.
    rewrite bool_decide_eq_true_2 by lia.
    simpl. f_equal. f_equal. apply get_lookup. assumption.
  - apply lookup_ge_None in Hj.
    rewrite bool_decide_eq_false_2 by lia.
    simpl. apply lookup_replicate_None. lia.
Qed.

Lemma to_pcm16_map (resampledData : list Q) : to_pcm16 resampledData = map quantize resampledData.
Proof. exact (for_loop_map quantize 0%Q 0 resampledData). Qed.

Lemma to_float32_map (pcm16 : list Z) : to_float32 pcm16 = map dequantize pcm16.
Proof. exact (for_loop_map dequantize 0 0%Q pcm16). Qed.

(** ** Base64 and the 16-bit view, on examples *)

Example btoa_vectors :
  btoa "" = "" /\ btoa "f" = "Zg==" /\ btoa "fo" = "Zm8=" /\ btoa "foo" = "Zm9v"
  /\ btoa "foob" = "Zm9vYg==" /\ btoa "fooba" = "Zm9vYmE=" /\ btoa "foobar" = "Zm9vYmFy".
Proof. repeat split. Qed.

Example atob_vectors :
  atob "Zg==" = Some "f" /\ atob "Zm8=" = Some "fo" /\ atob "Zm9vYmFy" = Some "foobar"
  /\ atob "Zm9v YmE" = Some "fooba" /\ atob "Zm9vY" = None /\ atob "Zm9v!mFy" = None
  /\ atob "Zg=" = None.
Proof. repeat split. Qed.

(** What is sent can be received: the samples survive the bytes and base64. *)
Example decode_audio_of_encoded :
  let pcm16 := [0; 1; -1; 32767; -32767; -32768; 256; -256] in
  decode_audio (btoa (string_of_list_ascii (map fromCharCode (Uint8Array_of_buffer pcm16))))
  = Some pcm16.
Proof. vm_compute. reflexivity. Qed.

Example decode_audio_failures :
  decode_audio "AQACAA==" = Some [1; 2] /\ decode_audio "AQAC" = None
  /\ decode_audio "A" = None /\ decode_audio " " = Some [].
Proof. repeat split. Qed.

(** ** Rounding and the resampler *)

Example resample_down : resample [1; 2; 3; 4]%Q 2 1 = [1; 3]%Q.
Proof. vm_compute. reflexivity. Qed.

(** Upsampling: the last positions have no upper neighbour and take the last
    sample as it is. *)
Example resample_up :
  Forall2 Qeq (resample [0; 1]%Q 1 2) [0; 1 # 2; 1; 1]%Q.
Proof. vm_compute. repeat constructor. Qed.

Example round_ties :
  Math.round (5 # 2) = 3 /\ Math.round (-5 # 2) = -2 /\ Math.round (4096 # 3) = 1365
  /\ Math.trunc (-7 # 2) = -3 /\ ToInt16 (32768 # 1) = -32768.
Proof. repeat split. Qed.

Lemma Qfloor_unique (x : Q) (z : Z) :
  (inject_Z z <= x)%Q -> (x < inject_Z (z + 1))%Q -> Qfloor x = z.
Proof.
  intros Hlo Hhi.
  pose proof (Qfloor_le x) as H1. pose proof (Qlt_floor x) as H2.
  assert (Qfloor x < z + 1) as H3.
  { rewrite Zlt_Qlt. eapply Qle_lt_trans; eassumption. }
  assert (z < Qfloor x + 1) as H4.
  { rewrite Zlt_Qlt. eapply Qle_lt_trans; eassumption. }
  lia.
Qed.

Lemma round_inject_Z (n : Z) : Math.round (inject_Z n) = n.
Proof.
  unfold Math.round. apply Qfloor_unique.
  - lra.
  - rewrite inject_Z_plus. change (inject_Z 1) with 1%Q. lra.
Qed.

Lemma round_nonneg (x : Q) : (0 <= x)%Q -> 0 <= Math.round x.
Proof.
  intros H. unfold Math.round.
  change 0 with (Qfloor 0). apply Qfloor_resp_le. lra.
Qed.

Lemma round_comp (x y : Q) : (x == y)%Q -> Math.round x = Math.round y.
Proof. intros H. unfold Math.round. apply Qfloor_comp. rewrite H. reflexivity. Qed.

Lemma array_length_nonneg {A : Type} (a : list A) : (0 <= inject_Z (array_length a))%Q.
Proof. unfold array_length. change 0%Q with (inject_Z 0). rewrite <- Zle_Qle. lia. Qed.

(** The resampler between two positive rates. *)
Section PositiveRates.

Variables fromRate toRate : Q.
Hypothesis fromRate_pos : (0 < fromRate)%Q.
Hypothesis toRate_pos : (0 < toRate)%Q.

Lemma ratio_pos : (0 < fromRate / toRate)%Q.
Proof. apply Qlt_shift_div_l; lra. Qed.

Lemma newLength_nonneg (data : list Q) :
  0 <= Math.round (inject_Z (array_length data) / (fromRate / toRate))%Q.
Proof.
  apply round_nonneg.
  pose proof (array_length_nonneg data) as Hn. pose proof ratio_pos as Hr.
  apply Qle_shift_div_l; lra.
Qed.

(** The length of the output, whether the rates differ or not. *)
Lemma resample_length (data : list Q) :
  array_length (resample data fromRate toRate)
  = Math.round (inject_Z (array_length data) * toRate / fromRate)%Q.
Proof.
  unfold resample.
  destruct (Qeq_bool fromRate toRate) eqn:E.
  - apply Qeq_bool_iff in E.
    rewrite <- (round_inject_Z (array_length data)) at 1.
    apply round_comp. rewrite E. field. lra.
  - unfold array_length at 1.
    rewrite for_loop_preserves_length.
    + unfold new_array. rewrite length_replicate.
      rewrite Z2Nat.id by apply newLength_nonneg.
      apply round_comp. field. split; lra.
    + intros i acc. destruct (_ <? _); apply length_insert.
Qed.

(** Every index that the loop reads lies within [data]: the else branch of
    line 192 reads the last sample, never past it. *)
Lemma resample_reads_in_range (data : list Q) (i : Z) :
  0 <= i < Math.round (inject_Z (array_length data) / (fromRate / toRate))%Q ->
  0 <= Math.floor (inject_Z i * (fromRate / toRate))%Q < array_length data.
Proof.
  intros [Hi0 Hi]. pose proof ratio_pos as Hr.
  set (ratio := (fromRate / toRate)%Q) in *.
  set (n := array_length data) in *.
  unfold Math.round in Hi. unfold Math.floor.
  pose proof (Qfloor_le (inject_Z n / ratio + (1 # 2))) as Hfl.
  assert (inject_Z i + 1 <= inject_Z n / ratio + (1 # 2))%Q as Hle.
  { eapply Qle_trans; [|exact Hfl].
    change 1%Q with (inject_Z 1). rewrite <- inject_Z_plus. rewrite <- Zle_Qle. lia. }
  assert (0 <= inject_Z i)%Q as Hi0q by (change 0%Q with (inject_Z 0); rewrite <- Zle_Qle; lia).
  assert (inject_Z i * ratio < inject_Z n)%Q as Hpos.
  { assert (inject_Z n / ratio * ratio == inject_Z n)%Q as Hdiv by (field; lra).
    assert ((inject_Z i + (1 # 2)) * ratio <= inject_Z n / ratio * ratio)%Q as Hm.
    { apply Qmult_le_compat_r; lra. }
    rewrite Hdiv in Hm. nra. }
  split.
  - change 0 with (Qfloor 0). apply Qfloor_resp_le. nra.
  - rewrite Zlt_Qlt. eapply Qle_lt_trans; [apply Qfloor_le | exact Hpos].
Qed.

End PositiveRates.

(** ** Quantisation *)

Lemma max_spec (x y : Q) : (x <= Math.max x y /\ y <= Math.max x y
  /\ (Math.max x y = x \/ Math.max x y = y))%Q.
Proof.
  unfold Math.max. destruct (Qle_bool x y) eqn:E.
  - apply Qle_bool_iff in E. repeat split; try lra. right; reflexivity.
  - assert (~ x <= y)%Q as H by (rewrite <- Qle_bool_iff, E; discriminate).
    repeat split; try lra. left; reflexivity.
Qed.

Lemma min_spec (x y : Q) : (Math.min x y <= x /\ Math.min x y <= y
  /\ (Math.min x y = x \/ Math.min x y = y))%Q.
Proof.
  unfold Math.min. destruct (Qle_bool x y) eqn:E.
  - apply Qle_bool_iff in E. repeat split; try lra. left; reflexivity.
  - assert (~ x <= y)%Q as H by (rewrite <- Qle_bool_iff, E; discriminate).
    repeat split; try lra. right; reflexivity.
Qed.

(** The clamp of line 151 lands in [-1, 1] and fixes that interval. *)
Lemma clamp_range (x : Q) : (-1 <= Math.max (-1) (Math.min 1 x) <= 1)%Q.
Proof.
  destruct (max_spec (-1) (Math.min 1 x)) as (H1 & H2 & [H3|H3]);
  destruct (min_spec 1 x) as (H4 & H5 & H6); rewrite ?H3 in *; split; lra.
Qed.

Lemma clamp_id (x : Q) : (-1 <= x <= 1)%Q -> (Math.max (-1) (Math.min 1 x) == x)%Q.
Proof.
  intros [Hlo Hhi].
  destruct (max_spec (-1) (Math.min 1 x)) as (H1 & H2 & [H3|H3]);
  destruct (min_spec 1 x) as (H4 & H5 & [H6|H6]); rewrite ?H3, ?H6 in *; lra.
Qed.

Lemma trunc_spec (y : Q) :
  (Qabs (inject_Z (Math.trunc y) - y) < 1)%Q
  /\ ((0 <= y)%Q -> 0 <= Math.trunc y) /\ ((y <= 0)%Q -> Math.trunc y <= 0).
Proof.
  unfold Math.trunc. destruct (Qle_bool 0 y) eqn:E.
  - apply Qle_bool_iff in E.
    pose proof (Qfloor_le y) as H1. pose proof (Qlt_floor y) as H2.
    rewrite inject_Z_plus in H2. change (inject_Z 1) with 1%Q in H2.
    repeat split.
    + apply Qabs_case; intros; lra.
    + intros _. change 0 with (Qfloor 0). apply Qfloor_resp_le. assumption.
    + intros Hy. assert (y == 0)%Q as -> by lra. reflexivity.
  - assert (~ 0 <= y)%Q as H by (rewrite <- Qle_bool_iff, E; discriminate).
    pose proof (Qle_ceiling y) as H1. pose proof (Qceiling_lt y) as H2.
    unfold Z.sub in H2. rewrite inject_Z_plus, inject_Z_opp in H2.
    change (inject_Z 1) with 1%Q in H2.
    repeat split.
    + apply Qabs_case; intros; lra.
    + intros Hy. lra.
    + intros _. change 0 with (Qceiling 0). apply Qceiling_resp_le. lra.
Qed.

Lemma trunc_bounds (y : Q) (b : Z) :
  (- inject_Z b <= y <= inject_Z b)%Q -> - b <= Math.trunc y <= b.
Proof.
  intros [Hlo Hhi]. unfold Math.trunc. destruct (Qle_bool 0 y) eqn:E.
  - apply Qle_bool_iff in E. split.
    + assert (0 <= Qfloor y) by (change 0 with (Qfloor 0); apply Qfloor_resp_le; assumption).
      assert (0 <= inject_Z b)%Q as Hb by lra.
      change 0%Q with (inject_Z 0) in Hb. rewrite <- Zle_Qle in Hb. lia.
    + rewrite <- (Qfloor_Z b). apply Qfloor_resp_le. assumption.
  - assert (~ 0 <= y)%Q as H by (rewrite <- Qle_bool_iff, E; discriminate). split.
    + rewrite <- (Qceiling_Z (- b)). apply Qceiling_resp_le. rewrite inject_Z_opp. assumption.
    + assert (Qceiling y <= 0) by (change 0 with (Qceiling 0); apply Qceiling_resp_le; lra).
      assert (0 <= inject_Z b)%Q as Hb by lra.
      change 0%Q with (inject_Z 0) in Hb. rewrite <- Zle_Qle in Hb. lia.
Qed.

Lemma ToInt16_small (y : Q) :
  -32768 <= Math.trunc y <= 32767 -> ToInt16 y = Math.trunc y.
Proof.
  intros H. unfold ToInt16. set (t := Math.trunc y) in *.
  destruct (Z.leb_spec 32768 (t mod 65536)) as [Hge|Hlt].
  - destruct (Z.lt_ge_cases t 0).
    + rewrite <- (Z.mod_add t 1 65536) by lia. rewrite Z.mod_small by lia. lia.
    + rewrite Z.mod_small in Hge by lia. lia.
  - destruct (Z.lt_ge_cases t 0).
    + rewrite <- (Z.mod_add t 1 65536) in Hlt by lia. rewrite Z.mod_small in Hlt by lia. lia.
    + apply Z.mod_small. lia.
Qed.

Lemma quantize_trunc (x : Q) :
  quantize x = Math.trunc (Math.max (-1) (Math.min 1 x) * 32767)%Q
  /\ -32767 <= quantize x <= 32767.
Proof.
  pose proof (clamp_range x) as Hc.
  assert (-32767 <= Math.trunc (Math.max (-1) (Math.min 1 x) * 32767)%Q <= 32767) as Hb.
  { apply (trunc_bounds _ 32767). change (inject_Z 32767) with 32767%Q. split; lra. }
  unfold quantize. rewrite ToInt16_small by lia. split; [reflexivity | exact Hb].
Qed.

Lemma trunc_comp (x y : Q) : (x == y)%Q -> Math.trunc x = Math.trunc y.
Proof.
  intros H. unfold Math.trunc.
  assert (Qle_bool 0 x = Qle_bool 0 y) as ->.
  { apply eq_true_iff_eq. rewrite !Qle_bool_iff, H. reflexivity. }
  destruct (Qle_bool 0 y); [apply Qfloor_comp | apply Qceiling_comp]; assumption.
Qed.

Lemma quantize_roundtrip_bound (x : Q) :
  (-1 <= x <= 1)%Q -> (Qabs (dequantize (quantize x) - x) < 1 # 32767)%Q.
Proof.
  intros Hx.
  destruct (quantize_trunc x) as [-> _].
  rewrite (trunc_comp _ (x * 32767)) by (rewrite (clamp_id x Hx); reflexivity).
  destruct (trunc_spec (x * 32767)) as [Hd _].
  unfold dequantize. revert Hd. set (t := inject_Z (Math.trunc (x * 32767))).
  intros Hd.
  apply Qabs_Qlt_condition in Hd. apply Qabs_Qlt_condition.
  destruct Hd as [Hd1 Hd2].
  assert (t / 32767 == t * (1 # 32767))%Q as -> by (field).
  split; lra.
Qed.

(** ** The playback queue *)



Lemma stopAll_playback (s : State) :
  started (stopAll s) = started s /\ audioQueue (stopAll s) = audioQueue s
  /\ active (stopAll s) = active s /\ isPlaying (stopAll s) = isPlaying s
  /\ audioContextRef (stopAll s) = audioContextRef s.
Proof.
  unfold stopAll. destruct (streamRef s); simpl;
    destruct (audioContextRef s) eqn:E; simpl; rewrite ?E; repeat split; reflexivity.
Qed.

Lemma stopAll_started (s : State) : started (stopAll s) = started s.
Proof. apply stopAll_playback. Qed.
Lemma stopAll_audioQueue (s : State) : audioQueue (stopAll s) = audioQueue s.
Proof. apply stopAll_playback. Qed.
Lemma stopAll_active (s : State) : active (stopAll s) = active s.
Proof. apply stopAll_playback. Qed.
Lemma stopAll_isPlaying (s : State) : isPlaying (stopAll s) = isPlaying s.
Proof. apply stopAll_playback. Qed.
Lemma stopAll_audioContextRef (s : State) : audioContextRef (stopAll s) = audioContextRef s.
Proof. apply stopAll_playback. Qed.

Create Rewrite HintDb bridge.
#[global] Arguments stopAll : simpl never.
#[global] Hint Rewrite stopAll_started stopAll_audioQueue stopAll_active stopAll_isPlaying
  stopAll_audioContextRef : bridge.

(** Handlers that leave the playback fields alone. *)
Ltac playback_untouched := autorewrite with bridge; simpl; try reflexivity.

(** Case analysis on an event, with the names of the constructors' arguments. *)
Ltac event_cases e :=
  destruct e as [|l| |session|session err|session|session message|session|session
                 |r o|p inputData|i].

(** [H : step e s = Some s'] once [e] is a constructor: the guards of [step]
    are decided and [s'] is replaced by the state the handler returns. *)
Ltac step_guards H :=
  repeat match type of H with
  | match ?x with _ => _ end = Some _ => destruct x eqn:?
  end; try discriminate; injection H as <-.




(** *** Playback without a context *)

Lemma step_context_kept (e : Event) (s s' : State) :
  step e s = Some s' -> audioContextRef s' = None -> audioContextRef s = None.
Proof.
  event_cases e; simpl; intros H; step_guards H.
  - unfold click, onClick, connect; destruct (isConnecting s), (isConnected s);
      playback_untouched; trivial.
  - unfold render; case_bool_decide; playback_untouched; trivial.
  - playback_untouched; trivial.
  - playback_untouched; trivial.
  - unfold connect_rejected; destruct (_ || _); playback_untouched; trivial.
  - unfold onopen, startMic; simpl; destruct (mediaDevices s); playback_untouched; trivial.
  - unfold onmessage.
    destruct (truthy_string _) as [b|]; [destruct (decode_audio b) as [pcm16|]|]; cbv zeta.
    + assert (forall c t, (if negb (isPlaying (set_audioQueue (audioQueue s ++ [pcm16]) s))
                then playNextChunk (set_audioQueue (audioQueue s ++ [pcm16]) s)
                else (Normal, set_audioQueue (audioQueue s ++ [pcm16]) s)) = (c, t) ->
                audioContextRef t = audioContextRef s) as Hc.
      { intros c t. destruct (negb _); [|intros [= <- <-]; reflexivity].
        unfold playNextChunk. destruct (_ || _); [intros [= <- <-]; reflexivity|].
        simpl. destruct (audioQueue s ++ [pcm16]); [intros [= <- <-]; reflexivity|].
        destruct (_ =? 0); intros [= <- <-]; reflexivity. }
      destruct (if negb _ then _ else _) as [c t] eqn:E. specialize (Hc c t eq_refl).
      destruct c; [destruct (truthy_bool _)|]; simpl; rewrite <- Hc; trivial.
    + trivial.
    + destruct (truthy_bool _); simpl; trivial.
  - unfold onerror; playback_untouched; trivial.
  - unfold onclose; playback_untouched; trivial.
  - unfold startMic_settled; destruct o; playback_untouched; trivial. discriminate.
  - unfold onaudioprocess; destruct (sessionRef s); try destruct (negb _); playback_untouched;
      trivial.
  - unfold playNextChunk. destruct (_ || _); [simpl; trivial|].
    simpl. destruct (audioQueue s); [simpl; trivial|].
    destruct (_ =? 0); simpl; trivial.
Qed.

Lemma run_context_kept (events : list Event) (s s' : State) :
  run events s = Some s' -> audioContextRef s' = None -> audioContextRef s = None.
Proof.
  revert s. induction events as [|e events IH]; intros s H Hc; simpl in H.
  - injection H as <-. assumption.
  - destruct (step e s) as [s1|] eqn:E; [|discriminate]. simpl in H.
    eapply step_context_kept; [exact E|]. eapply IH; eassumption.
Qed.

Lemma playNextChunk_early (s : State) :
  audioQueue s = [] \/ audioContextRef s = None ->
  playNextChunk s = (Normal, set_isPlaying false s).
Proof.
  intros [H|H]; unfold playNextChunk; rewrite H; simpl.
  - reflexivity.
  - rewrite orb_true_r. reflexivity.
Qed.

Lemma onmessage_without_context (message : LiveServerMessage) (s : State) :
  idle_without_context s -> truthy_bool (interrupted message) = false ->
  idle_without_context (snd (onmessage message s))
  /\ audioQueue (snd (onmessage message s)) = audioQueue s ++ payload message.
Proof.
  intros [Hc Hp Ha Hs] Hi. unfold onmessage, payload.
  destruct (truthy_string _) as [b|]; [destruct (decode_audio b) as [pcm16|]|]; cbv zeta.
  - replace (isPlaying (set_audioQueue (audioQueue s ++ [pcm16]) s)) with false
      by (symmetry; exact Hp).
    simpl negb. cbv iota.
    rewrite playNextChunk_early by (right; exact Hc).
    rewrite Hi. simpl. split; [split; simpl; trivial | reflexivity].
  - simpl. rewrite app_nil_r. split; [split; trivial | reflexivity].
  - rewrite Hi. simpl. rewrite app_nil_r. split; [split; trivial | reflexivity].
Qed.

Lemma step_without_context (e : Event) (s s' : State) :
  idle_without_context s -> step e s = Some s' -> audioContextRef s' = None ->
  not_interrupting e = true ->
  idle_without_context s' /\ audioQueue s' = audioQueue s ++ delivered_event e.
Proof.
  intros Hinv H Hc' Hq.
  assert (forall t : State, audioContextRef t = audioContextRef s -> isPlaying t = isPlaying s ->
            active t = active s -> started t = started s -> audioQueue t = audioQueue s ->
            idle_without_context t /\ audioQueue t = audioQueue s ++ []) as Hsame.
  { destruct Hinv as [Hc Hp Ha Hs]. intros t H1 H2 H3 H4 H5. rewrite app_nil_r.
    split; [split; congruence | assumption]. }
  event_cases e; simpl in H; step_guards H; simpl delivered_event.
  - apply Hsame; unfold click, onClick, connect;
      destruct (isConnecting s), (isConnected s); playback_untouched.
  - apply Hsame; unfold render; case_bool_decide; playback_untouched.
  - apply Hsame; playback_untouched.
  - apply Hsame; playback_untouched.
  - apply Hsame; unfold connect_rejected; destruct (_ || _); playback_untouched.
  - apply Hsame; unfold onopen, startMic; simpl; destruct (mediaDevices s); playback_untouched.
  - apply onmessage_without_context; [assumption|].
    simpl in Hq. destruct (truthy_bool _); [discriminate | reflexivity].
  - apply Hsame; unfold onerror; playback_untouched.
  - apply Hsame; unfold onclose; playback_untouched.
  - destruct o; [| |unfold startMic_settled in Hc'; simpl in Hc'; discriminate];
      apply Hsame; unfold startMic_settled; playback_untouched.
  - apply Hsame; unfold onaudioprocess; destruct (sessionRef s);
      try destruct (negb _); playback_untouched.
  - destruct Hinv as [_ _ Ha _].
    match goal with Hl : _ !! _ = Some _ |- _ => rewrite Ha, lookup_nil in Hl; discriminate end.
Qed.

Lemma mount_idle (l : Lang) (hasMediaDevices : bool) :
  idle_without_context (mount l hasMediaDevices).
Proof. split; reflexivity. Qed.

Lemma run_without_context (events : list Event) (s s' : State) :
  idle_without_context s -> run events s = Some s' -> audioContextRef s' = None ->
  forallb not_interrupting events = true ->
  idle_without_context s' /\ audioQueue s' = audioQueue s ++ delivered events.
Proof.
  revert s. induction events as [|e events IH]; intros s Hinv H Hc' Hq; simpl in H.
  - injection H as <-. simpl. rewrite app_nil_r. split; trivial.
  - destruct (step e s) as [s1|] eqn:E; [|discriminate]. simpl in H.
    simpl in Hq. apply andb_true_iff in Hq as [Hq1 Hq2].
    pose proof (run_context_kept _ _ _ H Hc') as Hc1.
    destruct (step_without_context e s s1 Hinv E Hc1 Hq1) as [Hinv1 Hq1'].
    destruct (IH s1 Hinv1 H Hc' Hq2) as [Hinv' Hq'].
    split; [assumption|]. rewrite Hq', Hq1'. unfold delivered. simpl.
    rewrite app_assoc. reflexivity.
Qed.


(** An idle bridge stays idle, with its queue, until a message arrives:
    neither the microphone nor the button advances playback. *)
Lemma step_idle_without_message (e : Event) (s s' : State) :
  isPlaying s = false -> active s = [] -> not_message e = true -> step e s = Some s' ->
  isPlaying s' = false /\ active s' = [] /\ audioQueue s' = audioQueue s
  /\ started s' = started s.
Proof.
  intros Hp Ha He H.
  assert (forall t : State, isPlaying t = isPlaying s -> active t = active s ->
            audioQueue t = audioQueue s -> started t = started s ->
            isPlaying t = false /\ active t = [] /\ audioQueue t = audioQueue s
            /\ started t = started s) as Hsame.
  { intros t H1 H2 H3 H4. repeat split; congruence. }
  event_cases e; try discriminate; simpl in H; step_guards H.
  - apply Hsame; unfold click, onClick, connect;
      destruct (isConnecting s), (isConnected s); playback_untouched.
  - apply Hsame; unfold render; case_bool_decide; playback_untouched.
  - apply Hsame; playback_untouched.
  - apply Hsame; playback_untouched.
  - apply Hsame; unfold connect_rejected; destruct (_ || _); playback_untouched.
  - apply Hsame; unfold onopen, startMic; simpl; destruct (mediaDevices s); playback_untouched.
  - apply Hsame; unfold onerror; playback_untouched.
  - apply Hsame; unfold onclose; playback_untouched.
  - apply Hsame; unfold startMic_settled; destruct o; playback_untouched.
  - apply Hsame; unfold onaudioprocess; destruct (sessionRef s);
      try destruct (negb _); playback_untouched.
  - match goal with Hl : _ !! _ = Some _ |- _ => rewrite Ha, lookup_nil in Hl; discriminate end.
Qed.

Lemma run_idle_without_message (events : list Event) (s s' : State) :
  isPlaying s = false -> active s = [] -> forallb not_message events = true ->
  run events s = Some s' ->
  isPlaying s' = false /\ active s' = [] /\ audioQueue s' = audioQueue s
  /\ started s' = started s.
Proof.
  revert s. induction events as [|e events IH]; intros s Hp Ha He H; simpl in H.
  - injection H as <-. repeat split; assumption.
  - destruct (step e s) as [s1|] eqn:E; [|discriminate]. simpl in H.
    simpl in He. apply andb_true_iff in He as [He1 He2].
    destruct (step_idle_without_message e s s1 Hp Ha He1 E) as (Hp1 & Ha1 & Hq1 & Hs1).
    destruct (IH s1 Hp1 Ha1 He2 H) as (Hp' & Ha' & Hq' & Hs').
    repeat split; congruence.
Qed.

(** *** Playback with a context and no interruption *)

Lemma to_float32_nonempty (pcm16 : Int16Array) :
  nonempty_chunk pcm16 = true -> (array_length (to_float32 pcm16) =? 0) = false.
Proof.
  unfold nonempty_chunk, array_length. rewrite to_float32_map, length_map.
  intros H. apply negb_true_iff in H. exact H.
Qed.

Lemma playNextChunk_playing (s : State) :
  is_Some (audioContextRef s) -> wf_queue s = true -> active s = [] ->
  fst (playNextChunk s) = Normal
  /\ playing_inv (snd (playNextChunk s))
  /\ started (snd (playNextChunk s)) ++ map to_float32 (audioQueue (snd (playNextChunk s)))
     = started s ++ map to_float32 (audioQueue s)
  /\ length (started (snd (playNextChunk s)))
     = (length (started s) + length (active (snd (playNextChunk s))))%nat.
Proof.
  intros Hc Hq Ha. unfold playNextChunk.
  rewrite (bool_decide_eq_true_2 _ Hc). simpl negb. rewrite orb_false_r.
  unfold wf_queue in Hq.
  destruct (audioQueue s) as [|pcm16 rest] eqn:Q; simpl.
  - rewrite Q, Ha. simpl. repeat split; unfold wf_queue; simpl; rewrite ?Ha, ?Q; auto with lia.
  - rewrite Q. simpl in Hq. apply andb_true_iff in Hq as [Hne Hrest].
    rewrite (to_float32_nonempty _ Hne). simpl.
    repeat split; unfold wf_queue; simpl; rewrite ?Ha; simpl; auto with lia.
    + rewrite <- app_assoc. reflexivity.
    + rewrite length_app. simpl. lia.
Qed.

Lemma onmessage_playing (message : LiveServerMessage) (s : State) :
  playing_inv s -> wf_message message = true -> truthy_bool (interrupted message) = false ->
  fst (onmessage message s) = Normal
  /\ playing_inv (snd (onmessage message s))
  /\ started (snd (onmessage message s)) ++ map to_float32 (audioQueue (snd (onmessage message s)))
     = started s ++ map to_float32 (audioQueue s ++ payload message)
  /\ (length (started (snd (onmessage message s))) + length (active s)
      = length (started s) + length (active (snd (onmessage message s))))%nat.
Proof.
  intros [Hc H1 Hf Hidle Hq] Hwf Hi. unfold onmessage, payload, wf_message in *.
  destruct (truthy_string _) as [b|]; [destruct (decode_audio b) as [pcm16|]|]; cbv zeta.
  - set (s1 := set_audioQueue (audioQueue s ++ [pcm16]) s).
    change (isPlaying s1) with (isPlaying s).
    destruct (isPlaying s) eqn:P; simpl negb; cbv iota.
    + rewrite Hi. simpl. repeat split; simpl; auto.
      * rewrite P. assumption.
      * rewrite P. discriminate.
      * unfold wf_queue in *. simpl. rewrite forallb_app, Hq. simpl. rewrite Hwf. reflexivity.
    + assert (active s = []) as Ha.
      { symmetry in Hf. apply bool_decide_eq_false in Hf.
        destruct (active s); [reflexivity | exfalso; apply Hf; discriminate]. }
      assert (wf_queue s1 = true) as Hq1.
      { unfold wf_queue in *. simpl. rewrite forallb_app, Hq. simpl. rewrite Hwf. reflexivity. }
      destruct (playNextChunk_playing s1 Hc Hq1 Ha) as (Hn & Hinv & Hs & Hl).
      destruct (playNextChunk s1) as [c t]. simpl in Hn, Hinv, Hs, Hl. subst c.
      rewrite Hi. simpl. rewrite Ha. simpl.
      repeat split; try apply Hinv; [exact Hs | lia].
  - discriminate.
  - rewrite Hi. simpl. rewrite app_nil_r. repeat split; auto.
Qed.

Lemma step_playing (e : Event) (s s' : State) :
  playing_inv s -> playback_event e = true -> step e s = Some s' ->
  playing_inv s'
  /\ started s' ++ map to_float32 (audioQueue s')
     = started s ++ map to_float32 (audioQueue s ++ delivered_event e)
  /\ (length (started s') + length (active s)
      = length (started s) + length (active s') + ended_event e)%nat.
Proof.
  intros Hinv He H. event_cases e; try discriminate; simpl in H.
  - destruct (bool_decide _); [|discriminate]. injection H as <-.
    simpl in He. apply andb_true_iff in He as [Hwf Hi]. apply negb_true_iff in Hi.
    destruct (onmessage_playing message s Hinv Hwf Hi) as (_ & H1 & H2 & H3).
    split; [exact H1|]. split; [exact H2|]. simpl. lia.
  - destruct (active s !! i) as [x|] eqn:Hl; [|discriminate]. injection H as <-.
    destruct Hinv as [Hc H1 Hf Hidle Hq].
    assert (active s = [x] /\ i = 0%nat) as [Ha ->].
    { destruct (active s) as [|y [|z l]]; simpl in *; try lia; [discriminate|].
      destruct i; simpl in Hl; [injection Hl as ->; split; reflexivity | discriminate]. }
    rewrite Ha. simpl delete.
    destruct (playNextChunk_playing (set_active [] s) Hc Hq eq_refl) as (_ & Hinv' & Hs & Hlen).
    simpl in Hs, Hlen. simpl. rewrite app_nil_r.
    repeat split; try apply Hinv'; [exact Hs | lia].
Qed.

Lemma run_playing (events : list Event) (s s' : State) :
  playing_inv s -> forallb playback_event events = true -> run events s = Some s' ->
  playing_inv s'
  /\ started s' ++ map to_float32 (audioQueue s')
     = started s ++ map to_float32 (audioQueue s ++ delivered events)
  /\ (length (started s') + length (active s)
      = length (started s) + length (active s') + ended events)%nat.
Proof.
  revert s. induction events as [|e events IH]; intros s Hinv He H; simpl in H.
  - injection H as <-. unfold delivered, ended. simpl. rewrite app_nil_r.
    split; [assumption|]. split; [reflexivity | lia].
  - destruct (step e s) as [s1|] eqn:E; [|discriminate]. simpl in H.
    simpl in He. apply andb_true_iff in He as [He1 He2].
    destruct (step_playing e s s1 Hinv He1 E) as (Hinv1 & Hs1 & Hl1).
    destruct (IH s1 Hinv1 He2 H) as (Hinv' & Hs' & Hl').
    split; [assumption|]. split.
    + rewrite Hs'. rewrite map_app, app_assoc, Hs1.
      unfold delivered. simpl. rewrite !map_app, !app_assoc. reflexivity.
    + unfold ended in *. simpl. lia.
Qed.

(** *** Closures of the first render *)

Lemma stopAll_closures (s : State) :
  connectRender (stopAll s) = connectRender s /\ sessions (stopAll s) = sessions s
  /\ micPending (stopAll s) = micPending s /\ processors (stopAll s) = processors s
  /\ sent (stopAll s) = sent s.
Proof.
  unfold stopAll. destruct (streamRef s); simpl; destruct (audioContextRef s); simpl;
    repeat split; reflexivity.
Qed.

Lemma first_render_closures_same (s t : State) :
  first_render_closures s ->
  connectRender t = connectRender s -> sessions t = sessions s ->
  micPending t = micPending s -> processors t = processors s -> sent t = sent s ->
  first_render_closures t.
Proof. intros [H1 H2 H3 H4 H5] E1 E2 E3 E4 E5. split; congruence. Qed.

Lemma stopAll_first_render (s : State) :
  first_render_closures s -> first_render_closures (stopAll s).
Proof.
  intros H. destruct (stopAll_closures s) as (E1 & E2 & E3 & E4 & E5).
  eapply first_render_closures_same; eassumption.
Qed.

Lemma step_first_render (e : Event) (s s' : State) :
  first_render_closures s -> no_language_change e = true -> step e s = Some s' ->
  first_render_closures s'.
Proof.
  intros Hinv He H. pose proof Hinv as [H1 H2 H3 H4 H5].
  event_cases e; try discriminate; simpl in H; step_guards H.
  - unfold click, onClick. destruct (isConnecting s); [assumption|].
    destruct (isConnected s); [apply stopAll_first_render; assumption|].
    unfold connect. split; simpl; try assumption.
    apply Forall_app. split; [assumption|]. apply Forall_singleton. simpl. assumption.
  - apply stopAll_first_render; assumption.
  - split; assumption.
  - unfold connect_rejected. destruct (_ || _); split; assumption.
  - assert (render_isConnected (session_render session) = false) as Hr.
    { rewrite Forall_forall in H2. apply H2. eapply bool_decide_eq_true_1. eassumption. }
    unfold onopen, startMic. simpl. destruct (mediaDevices s); simpl; split; simpl; try assumption.
    apply Forall_app. split; [assumption|]. apply Forall_singleton. assumption.
  - unfold onmessage.
    destruct (truthy_string _) as [b|]; [destruct (decode_audio b) as [pcm16|]|]; cbv zeta.
    + assert (first_render_closures
                (snd (if negb (isPlaying (set_audioQueue (audioQueue s ++ [pcm16]) s))
                      then playNextChunk (set_audioQueue (audioQueue s ++ [pcm16]) s)
                      else (Normal, set_audioQueue (audioQueue s ++ [pcm16]) s)))) as Ht.
      { destruct (negb _); [|split; assumption].
        unfold playNextChunk. destruct (_ || _); [split; assumption|]. simpl.
        destruct (audioQueue s ++ [pcm16]); [split; assumption|].
        destruct (_ =? 0); split; assumption. }
      destruct (if negb _ then _ else _) as [c t]. simpl in Ht.
      destruct c; [destruct (truthy_bool _)|]; simpl; [|assumption|assumption].
      destruct Ht. split; assumption.
    + assumption.
    + destruct (truthy_bool _); split; assumption.
  - unfold onerror. apply stopAll_first_render. split; assumption.
  - unfold onclose. apply stopAll_first_render. split; assumption.
  - apply Forall_cons in H3 as [Hr' Hrest].
    apply bool_decide_eq_true_1 in Heqb. subst r0.
    assert (first_render_closures (set_micPending l s)) as Hs by (split; assumption).
    unfold startMic_settled. destruct o.
    + apply stopAll_first_render. destruct Hs. split; assumption.
    + apply stopAll_first_render. destruct Hs. split; assumption.
    + split; simpl; try assumption.
      apply Forall_app. split; [assumption|]. apply Forall_singleton. assumption.
  - assert (processor_isConnected p = false) as Hp.
    { rewrite Forall_forall in H4. apply H4. eapply bool_decide_eq_true_1. eassumption. }
    unfold onaudioprocess. rewrite Hp. destruct (sessionRef s); assumption.
  - unfold playNextChunk. destruct (_ || _); [split; assumption|]. simpl.
    destruct (audioQueue s); [split; assumption|].
    destruct (_ =? 0); split; assumption.
Qed.

Lemma run_first_render (events : list Event) (s s' : State) :
  first_render_closures s -> forallb no_language_change events = true ->
  run events s = Some s' -> first_render_closures s'.
Proof.
  revert s. induction events as [|e events IH]; intros s Hinv He H; simpl in H.
  - injection H as <-. assumption.
  - destruct (step e s) as [s1|] eqn:E; [|discriminate]. simpl in H.
    simpl in He. apply andb_true_iff in He as [He1 He2].
    eapply IH; [|eassumption|eassumption]. eapply step_first_render; eassumption.
Qed.

(** Without a change of language nothing is ever sent: every processor
    holds the [isConnected] of the first render, which is [false]. *)
Lemma nothing_sent_without_language_change (l : Lang) (hasMediaDevices : bool)
    (events : list Event) (s : State) :
  forallb no_language_change events = true ->
  run events (mount l hasMediaDevices) = Some s -> sent s = [].
Proof.
  intros He H. eapply frc_sent, run_first_render; [|eassumption|eassumption].
  split; simpl; auto.
Qed.

(** An interruption does not stop the source that sounds: the chunk that
    arrives next starts beside it. *)
Example two_sources_after_interruption :
  exists s,
    run [OnMessage session0 interruption; OnMessage session0 (audio "AQACAA==")] sounding = Some s
    /\ active sounding = [to_float32 [1; 2]]
    /\ active s = [to_float32 [1; 2]; to_float32 [1; 2]].
Proof. eexists. split; [vm_compute; reflexivity|]. split; reflexivity. Qed.

(** After a change of language while connected, and a reconnect, the
    processor holds [isConnected = true] and its frames are sent. *)
Example frame_sent_after_language_change :
  exists s,
    run (reconnected_after_language_change ++
         [AudioProcess {| processor_context := context44k; processor_isConnected := true |}
            [1 # 2; -1 # 2; 1 # 4; 3 # 2; 0; 0]%Q]) (mount en true) = Some s
    /\ sent s = [(session1_bn, {| data := "/z//fw=="; mimeType := "audio/pcm;rate=16000" |})].
Proof. eexists. split; vm_compute; reflexivity. Qed.

(** ** The arithmetic of the source as it runs *)

Lemma resample_in_exact (data : list Q) (fromRate toRate : Q) :
  resample_in exact data fromRate toRate = resample data fromRate toRate.
Proof. reflexivity. Qed.

Lemma two_power_pos (k : Z) : (0 < 2 ^ k)%Q.
Proof. apply Qpower_0_lt. reflexivity. Qed.

Lemma two_power_succ (k : Z) : (2 ^ (k + 1) == 2 * 2 ^ k)%Q.
Proof. rewrite Qpower_plus by discriminate. rewrite Qpower_1_r. ring. Qed.

Lemma inject_Z_two_power (a : Z) : 0 <= a -> (inject_Z (2 ^ a) == 2 ^ a)%Q.
Proof. intros H. rewrite Zpower_Qpower by exact H. reflexivity. Qed.

(** [ilog2 x] is the exponent of [x]. *)
Lemma ilog2_spec (x : Q) : (0 < x)%Q -> (2 ^ ilog2 x <= x < 2 ^ (ilog2 x + 1))%Q.
Proof.
  intros Hx. unfold ilog2.
  destruct x as [n d]. cbn [Qnum Qden].
  assert (0 < n) as Hn by (unfold Qlt in Hx; cbn in Hx; lia).
  pose proof (Z.log2_spec n Hn) as [Hn1 Hn2].
  pose proof (Z.log2_spec (Z.pos d) ltac:(lia)) as [Hd1 Hd2].
  pose proof (Z.log2_nonneg n) as Ha. pose proof (Z.log2_nonneg (Z.pos d)) as Hb.
  set (a := Z.log2 n) in *. set (b := Z.log2 (Z.pos d)) in *.
  assert (n # d == inject_Z n / inject_Z (Z.pos d))%Q as Hq by apply Qmake_Qdiv.
  assert (0 < inject_Z (Z.pos d))%Q as Hdq by reflexivity.
  assert (inject_Z (2 ^ a) <= inject_Z n)%Q as Qn1 by (rewrite <- Zle_Qle; exact Hn1).
  assert (inject_Z n < inject_Z (2 ^ Z.succ a))%Q as Qn2 by (rewrite <- Zlt_Qlt; exact Hn2).
  assert (inject_Z (2 ^ b) <= inject_Z (Z.pos d))%Q as Qd1 by (rewrite <- Zle_Qle; exact Hd1).
  assert (inject_Z (Z.pos d) < inject_Z (2 ^ Z.succ b))%Q as Qd2
    by (rewrite <- Zlt_Qlt; exact Hd2).
  rewrite inject_Z_two_power in Qn1, Qn2, Qd1, Qd2 by lia.
  unfold Z.succ in Qn2, Qd2. rewrite two_power_succ in Qn2, Qd2.
  pose proof (two_power_pos a) as Pa. pose proof (two_power_pos b) as Pb.
  assert (2 ^ (a - b) == 2 ^ a / 2 ^ b)%Q as Hk by (apply Qpower_minus; discriminate).
  set (X := (n # d)%Q) in *. set (N := inject_Z n) in *. set (D := inject_Z (Z.pos d)) in *.
  set (A := (2 ^ a)%Q) in *. set (B := (2 ^ b)%Q) in *.
  assert (X * D == N)%Q as HX by (rewrite Hq; field; lra).
  (* 2^(k-1) < X < 2^(k+1) *)
  assert (X * (2 * B) > A)%Q as Hlo by nra.
  assert (X * B < 2 * A)%Q as Hhi by nra.
  destruct (Qle_bool (2 ^ (a - b)) X) eqn:E.
  - apply Qle_bool_iff in E. split; [exact E|].
    rewrite two_power_succ, Hk.
    apply Qlt_shift_div_l in Hhi; [|exact Pb].
    assert (2 * (A / B) == 2 * A / B)%Q as -> by (field; lra). exact Hhi.
  - assert (~ 2 ^ (a - b) <= X)%Q as E' by (rewrite <- Qle_bool_iff, E; discriminate).
    apply Qnot_le_lt in E'.
    replace (a - b - 1 + 1) with (a - b) by lia. split; [|exact E'].
    assert (2 ^ (a - b) == 2 * 2 ^ (a - b - 1))%Q as Hk'.
    { rewrite <- two_power_succ. replace (a - b - 1 + 1) with (a - b) by lia. reflexivity. }
    assert (2 * 2 ^ (a - b - 1) == A / B)%Q as Hk'' by (rewrite <- Hk', Hk; reflexivity).
    assert (2 ^ (a - b - 1) == A / (2 * B))%Q as -> .
    { assert (2 ^ (a - b - 1) == (2 * 2 ^ (a - b - 1)) / 2)%Q as -> by (field).
      rewrite Hk''. field. lra. }
    apply Qlt_le_weak. apply Qlt_shift_div_r; [lra|]. lra.
Qed.

Lemma round_half_even_spec (x : Q) :
  (Qabs (inject_Z (round_half_even x) - x) <= 1 # 2)%Q.
Proof.
  unfold round_half_even.
  pose proof (Qfloor_le x) as H1. pose proof (Qlt_floor x) as H2.
  rewrite inject_Z_plus in H2. change (inject_Z 1) with 1%Q in H2.
  set (f := Qfloor x) in *.
  destruct (x - inject_Z f ?= 1 # 2)%Q eqn:E.
  - apply Qeq_alt in E. destruct (Z.even f).
    + apply Qabs_case; intros; lra.
    + rewrite inject_Z_plus. change (inject_Z 1) with 1%Q. apply Qabs_case; intros; lra.
  - apply Qlt_alt in E. apply Qabs_case; intros; lra.
  - apply Qgt_alt in E. rewrite inject_Z_plus. change (inject_Z 1) with 1%Q.
    apply Qabs_case; intros; lra.
Qed.

Lemma round_half_even_nonneg (x : Q) : (0 <= x)%Q -> 0 <= round_half_even x.
Proof.
  intros Hx. unfold round_half_even.
  assert (0 <= Qfloor x) as Hf by (change 0 with (Qfloor 0); apply Qfloor_resp_le; exact Hx).
  destruct (_ ?= _)%Q; [destruct (Z.even _)| |]; lia.
Qed.

(** Rounding keeps the sign. *)
Lemma round_to_nonneg (prec emin : Z) (x : Q) : (0 <= x)%Q -> (0 <= round_to prec emin x)%Q.
Proof.
  intros Hx. unfold round_to. destruct (Qeq_bool x 0); [apply Qle_refl|]. cbv zeta.
  rewrite Qred_correct.
  set (e := Z.max _ _). pose proof (two_power_pos e) as He.
  assert (0 <= x / 2 ^ e)%Q as Hq by (apply Qle_shift_div_l; [exact He | lra]).
  apply round_half_even_nonneg in Hq.
  assert (0 <= inject_Z (round_half_even (x / 2 ^ e)))%Q as Hm
    by (change 0%Q with (inject_Z 0); rewrite <- Zle_Qle; exact Hq).
  nra.
Qed.

Lemma Qabs_of_pos (x : Q) : (0 < x)%Q -> Qabs x = x.
Proof.
  destruct x as [n d]. unfold Qlt, Qabs. cbn. intros H. f_equal. apply Z.abs_eq. lia.
Qed.

(** The error of a rounding that does not underflow is at most half a unit
    in the last place. *)
Lemma round_to_error (prec emin : Z) (x : Q) :
  (0 < x)%Q -> emin <= ilog2 x - (prec - 1) ->
  (Qabs (round_to prec emin x - x) <= x * 2 ^ (- prec))%Q.
Proof.
  intros Hx He. unfold round_to.
  destruct (Qeq_bool x 0) eqn:E; [apply Qeq_bool_iff in E; lra|]. cbv zeta.
  rewrite Qred_correct.
  rewrite (Qabs_of_pos x Hx). rewrite Z.max_l by exact He.
  set (k := ilog2 x) in *. set (e := k - (prec - 1)).
  pose proof (two_power_pos e) as Pe.
  pose proof (round_half_even_spec (x / 2 ^ e)) as Hm.
  set (m := inject_Z (round_half_even (x / 2 ^ e))) in *.
  destruct (ilog2_spec x Hx) as [Hk _]. fold k in Hk.
  assert (2 ^ k == 2 ^ e * 2 ^ (prec - 1))%Q as Hke.
  { rewrite <- Qpower_plus by discriminate. replace (e + (prec - 1)) with k by (subst e; lia).
    reflexivity. }
  assert (2 ^ (prec - 1) * 2 ^ (- prec) == 1 # 2)%Q as Hp.
  { rewrite <- Qpower_plus by discriminate. replace (prec - 1 + - prec) with (-1) by lia.
    reflexivity. }
  pose proof (two_power_pos (prec - 1)) as Pp. pose proof (two_power_pos (- prec)) as Pn.
  assert (m * 2 ^ e - x == (m - x / 2 ^ e) * 2 ^ e)%Q as -> by (field; lra).
  rewrite Qabs_Qmult, (Qabs_pos (2 ^ e)) by lra.
  assert (2 ^ e * (1 # 2) <= x * 2 ^ (- prec))%Q as Hb.
  { rewrite <- Hp. rewrite Hke in Hk. nra. }
  assert (0 <= Qabs (m - x / 2 ^ e))%Q by apply Qabs_nonneg.
  nra.
Qed.

Lemma ilog2_lower (x : Q) (k : Z) : (0 < x)%Q -> (2 ^ k <= x)%Q -> k <= ilog2 x.
Proof.
  intros Hx Hk. destruct (ilog2_spec x Hx) as [_ H].
  assert (2 ^ k < 2 ^ (ilog2 x + 1))%Q as Hlt by lra.
  apply Qpower_lt_compat_l_inv in Hlt; [lia | reflexivity].
Qed.

(** The length of the result, for any arithmetic that keeps the sign. *)
Lemma resample_in_length (A : Arithmetic) (data : list Q) (fromRate toRate : Q) :
  Qeq_bool fromRate toRate = false ->
  (0 <= div A (inject_Z (array_length data)) (div A fromRate toRate))%Q ->
  array_length (resample_in A data fromRate toRate)
  = Math.round (div A (inject_Z (array_length data)) (div A fromRate toRate)).
Proof.
  intros E H. unfold resample_in. rewrite E. cbv zeta. unfold array_length at 1.
  rewrite for_loop_preserves_length.
  - unfold new_array. rewrite length_replicate. apply Z2Nat.id, round_nonneg, H.
  - intros i acc. destruct (_ <? _); apply length_insert.
Qed.

Section Binary64Length.

Variables fromRate toRate : Q.
Hypothesis fromRate_range : (1 <= fromRate <= 4294967296)%Q.
Hypothesis toRate_range : (1 <= toRate <= 4294967296)%Q.
Variable data : list Q.

Lemma ratio_bounds :
  (fromRate / toRate * (1 - 2 ^ (-53)) <= binary64_round (fromRate / toRate)
   <= fromRate / toRate * (1 + 2 ^ (-53)))%Q.
Proof.
  assert (0 < fromRate / toRate)%Q as Hpos by (apply Qlt_shift_div_l; lra).
  assert (Qabs (binary64_round (fromRate / toRate) - fromRate / toRate)
          <= fromRate / toRate * 2 ^ (-53))%Q as H.
  { apply round_to_error; [exact Hpos|].
    assert (-32 <= ilog2 (fromRate / toRate)); [|lia].
    apply ilog2_lower; [exact Hpos|].
    apply Qle_shift_div_l; [lra|].
    change (2 ^ (-32))%Q with (1 # 4294967296)%Q. lra. }
  apply Qabs_Qle_condition in H. split; lra.
Qed.

Lemma quotient_nonneg :
  (0 <= binary64_round (inject_Z (array_length data) / binary64_round (fromRate / toRate)))%Q.
Proof.
  apply round_to_nonneg.
  set (ratio := binary64_round (fromRate / toRate)).
  assert (0 <= ratio)%Q as Hr.
  { unfold ratio. apply round_to_nonneg. apply Qle_shift_div_l; lra. }
  pose proof (array_length_nonneg data) as Hl.
  destruct (Qlt_le_dec 0 ratio) as [Hp|Hz].
  - apply Qle_shift_div_l; [exact Hp | lra].
  - assert (ratio == 0)%Q as -> by lra. unfold Qdiv. rewrite Qmult_comm.
    change (/ 0)%Q with 0%Q. lra.
Qed.

(** The two roundings move the quotient by little: by at most 13/50 when
    the exact quotient is at most [2 ^ 50]. *)
Lemma quotient_error :
  (inject_Z (array_length data) * toRate / fromRate <= 2 ^ 50)%Q ->
  (Qabs (binary64_round (inject_Z (array_length data) / binary64_round (fromRate / toRate))
         - inject_Z (array_length data) * toRate / fromRate) <= 13 # 50)%Q.
Proof.
  intros Hsmall.
  set (len := inject_Z (array_length data)) in *.
  set (rho := (fromRate / toRate)%Q).
  set (ratio := binary64_round rho).
  assert (0 < rho)%Q as Hrho by (apply Qlt_shift_div_l; lra).
  assert (rho <= 4294967296)%Q as Hrho_hi.
  { apply Qle_shift_div_r; [lra|]. nra. }
  pose proof ratio_bounds as [Hr1 Hr2]. fold rho ratio in Hr1, Hr2.
  change (2 ^ (-53))%Q with (1 # 9007199254740992)%Q in Hr1, Hr2.
  assert (0 < ratio)%Q as Hr by nra.
  set (L := (len * toRate / fromRate)%Q) in *.
  assert (L * rho == len)%Q as HL by (unfold L, rho; field; split; lra).
  pose proof (array_length_nonneg data) as Hlen. fold len in Hlen.
  assert (0 <= L)%Q as HL0 by (unfold L; apply Qle_shift_div_l; [lra | nra]).
  destruct (Qeq_dec len 0) as [Hz|Hnz].
  - assert (binary64_round (len / ratio) == 0)%Q as ->.
    { assert (Qeq_bool (len / ratio) 0 = true) as E
        by (apply Qeq_bool_iff; rewrite Hz; unfold Qdiv; ring).
      unfold binary64_round, round_to. rewrite E. reflexivity. }
    assert (L == 0)%Q as -> by (unfold L; rewrite Hz; unfold Qdiv; ring).
    apply Qabs_case; intros; lra.
  - assert (1 <= len)%Q as Hlen1.
    { subst len. change 1%Q with (inject_Z 1). rewrite <- Zle_Qle.
      assert (array_length data <> 0) as Hne.
      { intros Heq. apply Hnz. rewrite Heq. reflexivity. }
      unfold array_length in *. lia. }
    set (y := (len / ratio)%Q).
    assert (y * ratio == len)%Q as Hy by (unfold y; field; lra).
    assert (0 < y)%Q as Hy0 by (unfold y; apply Qlt_shift_div_l; lra).
    assert (Qabs (binary64_round y - y) <= y * 2 ^ (-53))%Q as Hq.
    { apply round_to_error; [exact Hy0|].
      assert (-33 <= ilog2 y); [|lia].
      apply ilog2_lower; [exact Hy0|].
      unfold y. apply Qle_shift_div_l; [exact Hr|].
      change (2 ^ (-33))%Q with (1 # 8589934592)%Q. nra. }
    change (2 ^ (-53))%Q with (1 # 9007199254740992)%Q in Hq.
    apply Qabs_Qle_condition in Hq. destruct Hq as [Hq1 Hq2].
    assert (y * (1 - (1 # 9007199254740992)) <= L)%Q as HyL1.
    { assert (y * (1 - (1 # 9007199254740992)) * rho <= L * rho)%Q as H
        by (rewrite HL, <- Hy; nra).
      nra. }
    assert (L <= y * (1 + (1 # 9007199254740992)))%Q as HyL2.
    { assert (L * rho <= y * (1 + (1 # 9007199254740992)) * rho)%Q as H
        by (rewrite HL, <- Hy; nra).
      nra. }
    change (2 ^ 50)%Q with 1125899906842624%Q in Hsmall.
    assert (y <= 1125899906842625)%Q as Hybound by nra.
    apply Qabs_Qle_condition. split; nra.
Qed.

End Binary64Length.

Lemma round_error (x : Q) : (Qabs (inject_Z (Math.round x) - x) <= 1 # 2)%Q.
Proof.
  unfold Math.round.
  pose proof (Qfloor_le (x + (1 # 2))) as H1. pose proof (Qlt_floor (x + (1 # 2))) as H2.
  rewrite inject_Z_plus in H2. change (inject_Z 1) with 1%Q in H2.
  apply Qabs_Qle_condition. split; lra.
Qed.

(** Where rounding shows: 240 samples from 12000 Hz to 11025 Hz are 220
    samples, not the 221 of the exact quotient 220.5; and from 1000 Hz to
    49000 Hz the position of index 49 falls just short of 1. *)
Example binary64_rounding :
  array_length (resample_in binary64 (replicate 240 0%Q) 12000 11025) = 220
  /\ array_length (resample (replicate 240 0%Q) 12000 11025) = 221
  /\ resample_in binary64 [1; 0]%Q 1000 49000 !! 49%nat = Some (1 # 9007199254740992)%Q
  /\ resample [1; 0]%Q 1000 49000 !! 49%nat = Some 0%Q.
Proof. repeat split; vm_compute; reflexivity. Qed.

Lemma resample_in_identity (A : Arithmetic) (data : list Q) (r : Q) :
  resample_in A data r r = data.
Proof.
  unfold resample_in. rewrite (proj2 (Qeq_bool_iff r r) (Qeq_refl r)). reflexivity.
Qed.

(** * The claims *)

(** ** C1: the connect guard

    [connect] has no guard of its own, and nothing closes a session. *)

(** C1, counterexample: [connect] invoked while [isConnecting] makes a second
    session; and through the button alone (connect, open, stop, connect, open)
    the bridge reaches a state with two open sessions, the first of which was
    never torn down. *)
Lemma connect_second_session :
  isConnecting (connect (mount en true)) = true
  /\ sessions (connect (connect (mount en true))) = [session0; session1]
  /\ exists s, run [Click; OnOpen session0; ConnectResolved session0; Click; Click;
                    OnOpen session1; ConnectResolved session1] (mount en true) = Some s
       /\ liveSessions s = [session0; session1] /\ sessionRef s = Some session1.
Proof.
  split; [reflexivity|]. split; [reflexivity|].
  eexists. split; [vm_compute; reflexivity|]. split; reflexivity.
Qed.

(** C1, amended: the guard is in the main button.  A click while
    [isConnecting] or [isConnected] is set makes no connect attempt and no
    session: while [isConnecting] the button is disabled and the state is
    unchanged, otherwise the click runs [stopAll].  [connect] itself has no
    guard: it makes a new session whenever it is called. *)
Theorem click_guard (s : State) :
  isConnecting s = true \/ isConnected s = true ->
  click s = (if isConnecting s then s else stopAll s)
  /\ sessions (click s) = sessions s
  /\ sessions (connect s)
     = sessions s ++ [{| session_id := length (sessions s); session_render := connectRender s |}].
Proof.
  intros H. split; [|split; [|reflexivity]].
  - unfold click, onClick. destruct (isConnecting s); [reflexivity|].
    destruct H as [H|H]; [discriminate|]. rewrite H. reflexivity.
  - unfold click, onClick. destruct (isConnecting s); [reflexivity|].
    destruct H as [H|H]; [discriminate|]. rewrite H. apply stopAll_closures.
Qed.

(** The guard at work: a second click while connecting. *)
Lemma click_guard_witness :
  (isConnecting (connect (mount en true)) = true \/ isConnected (connect (mount en true)) = true)
  /\ click (connect (mount en true)) = connect (mount en true)
  /\ sessions (click (connect (mount en true))) = [session0].
Proof.
  split; [left; reflexivity|].
  destruct (click_guard (connect (mount en true)) (or_introl eq_refl)) as (H1 & H2 & _).
  split; [exact H1 | exact H2].
Defined.

(** ** C2: teardown *)

(** C2, counterexample: with one chunk sounding and one queued, [stopAll]
    leaves the queued chunk in the PlaybackQueue. *)
Lemma stopAll_keeps_queue :
  exists s,
    run (connected ++ [OnMessage session0 (audio "AQACAA=="); OnMessage session0 (audio "AwA=")])
      (mount en true) = Some s
    /\ audioQueue (stopAll s) = [[3]] /\ audioQueue (stopAll s) <> [].
Proof.
  eexists. split; [vm_compute; reflexivity|]. split; [reflexivity | discriminate].
Qed.

(** C2, amended: after [stopAll], from any state, the connected, listening and
    connecting flags are false, the tracks of the captured stream (if there is
    one) have been stopped and the audio context (if there is one), which
    serves capture and playback alike, has been closed. *)
Theorem stopAll_spec (s : State) :
  isConnected (stopAll s) = false /\ isListening (stopAll s) = false
  /\ isConnecting (stopAll s) = false
  /\ stoppedStreams (stopAll s) = stoppedStreams s ++ option_list (streamRef s)
  /\ closedContexts (stopAll s) = closedContexts s ++ option_list (audioContextRef s).
Proof.
  unfold stopAll. destruct (streamRef s); simpl; destruct (audioContextRef s); simpl;
    rewrite ?app_nil_r; repeat split.
Qed.

(** ** C3: the length of the resampled frame, rates apart *)

(** C3, counterexample: three samples from rate 3 to rate 1 give one sample,
    not round(3 * 3/1) = 9. *)
Lemma resample_length_swapped :
  ~ (3 == 1)%Q
  /\ array_length (resample_in binary64 [1; 2; 3]%Q 3 1) = 1
  /\ Math.round (inject_Z (array_length [1; 2; 3]%Q) * (3 / 1))%Q = 9
  /\ array_length (resample_in binary64 [1; 2; 3]%Q 3 1)
     <> Math.round (inject_Z (array_length [1; 2; 3]%Q) * (3 / 1))%Q.
Proof.
  split; [discriminate|]. split; [|split]; vm_compute; [reflexivity | reflexivity | discriminate].
Qed.

(** C3, amended: for rates between 1 and 2^32 with from <> to,
    [resample data from to] has exactly
    [Math.round (data.length / (from / to))] samples, the two quotients being
    rounded to binary64 as the source computes them; and when the exact
    len(data) * to/from is at most 2^50, that count is less than 1 away from
    it. *)
Theorem resample_length_binary64 (data : list Q) (fromRate toRate : Q) :
  (1 <= fromRate <= 4294967296)%Q -> (1 <= toRate <= 4294967296)%Q ->
  ~ (fromRate == toRate)%Q ->
  let newLength :=
    Math.round (binary64_round (inject_Z (array_length data)
                                / binary64_round (fromRate / toRate))) in
  array_length (resample_in binary64 data fromRate toRate) = newLength
  /\ ((inject_Z (array_length data) * toRate / fromRate <= 2 ^ 50)%Q ->
      (Qabs (inject_Z newLength - inject_Z (array_length data) * toRate / fromRate) < 1)%Q).
Proof.
  intros Hf Ht Hne newLength. split.
  - apply (resample_in_length binary64).
    + destruct (Qeq_bool fromRate toRate) eqn:E; [|reflexivity].
      apply Qeq_bool_iff in E. contradiction.
    + apply quotient_nonneg; assumption.
  - intros Hsmall.
    pose proof (quotient_error fromRate toRate Hf Ht data Hsmall) as H1.
    pose proof (round_error (binary64_round (inject_Z (array_length data)
                                             / binary64_round (fromRate / toRate)))) as H2.
    fold newLength in H2.
    apply Qabs_Qle_condition in H1, H2. apply Qabs_Qlt_condition. split; lra.
Qed.

(** C3, witness: 240 samples from 12000 Hz to 11025 Hz are 220 samples, half
    a sample below the exact 220.5. *)
Lemma resample_length_binary64_witness :
  array_length (resample_in binary64 (replicate 240 0%Q) 12000 11025) = 220
  /\ (Qabs (inject_Z 220 - inject_Z 240 * 11025 / 12000) < 1)%Q.
Proof.
  destruct (resample_length_binary64 (replicate 240 0%Q) 12000 11025) as [H1 H2];
    [split; discriminate | split; discriminate | discriminate |].
  assert (Math.round (binary64_round (inject_Z (array_length (replicate 240 0%Q))
                                      / binary64_round (12000 / 11025))) = 220) as E
    by (vm_compute; reflexivity).
  rewrite E in H1, H2. split; [exact H1|]. apply H2. discriminate.
Defined.

(** ** C4: the capture frame after a connect *)

(** C4, at the failing input: connect, open, the session resolved and the
    microphone granted at 48000 Hz, then one frame of 4096 samples.  The
    bridge is connected and listens, the frame would be resampled to 1365
    samples, but the one processor installed closes over the [isConnected]
    of the render that created [connect], which is false: the guard of line
    141 returns, nothing is sent and the state is as before. *)
Lemma frame_unsent_after_connect :
  let frame := replicate 4096 (1 # 2)%Q in
  let processor := {| processor_context := context48k; processor_isConnected := false |} in
  exists s,
    run connected (mount en true) = Some s
    /\ isConnected s = true /\ isListening s = true /\ sessionRef s = Some session0
    /\ processors s = [processor]
    /\ array_length (resample_in binary64 frame 48000 16000) = 1365
    /\ step (AudioProcess processor frame) s = Some s
    /\ sent s = [].
Proof.
  intros frame processor. exists listening.
  split; [vm_compute; reflexivity|]. do 4 (split; [reflexivity|]).
  split; [|split; reflexivity].
  rewrite (resample_in_length binary64); [vm_compute; reflexivity | reflexivity |].
  vm_compute. discriminate.
Qed.

(** ** C5: interruption *)



(** ** C6: playback in order *)

(** C6: with an audio context and no interruption, from an idle bridge, the
    chunks started followed by the chunks still queued are the chunks
    delivered, in order; at most one source sounds at any time and the playing
    flag says whether one does; the number of chunks begun is the number of
    completion callbacks plus the source that sounds, so a chunk begins only
    after its predecessor's callback; and when every delivered chunk has
    completed, the queue is empty, the flag is false and the chunks were played
    in the order of delivery. *)
Theorem playback_fifo (s : State) (events : list Event) (s' : State) :
  is_Some (audioContextRef s) -> audioQueue s = [] -> isPlaying s = false -> active s = [] ->
  forallb playback_event events = true ->
  run events s = Some s' ->
  started s' ++ map to_float32 (audioQueue s') = started s ++ map to_float32 (delivered events)
  /\ (length (active s') <= 1)%nat
  /\ isPlaying s' = bool_decide (active s' <> [])
  /\ length (started s') = (length (started s) + ended events + length (active s'))%nat
  /\ (ended events = length (delivered events) ->
      audioQueue s' = [] /\ isPlaying s' = false /\ active s' = []
      /\ started s' = started s ++ map to_float32 (delivered events)).
Proof.
  intros Hc Hq Hp Ha He Hrun.
  assert (playing_inv s) as Hinv.
  { split; rewrite ?Ha, ?Hq, ?Hp; auto.
    unfold wf_queue. rewrite Hq. reflexivity. }
  destruct (run_playing events s s' Hinv He Hrun) as ([_ H1 Hf _ _] & Hs & Hl).
  rewrite Hq in Hs. simpl in Hs. rewrite Ha in Hl. simpl in Hl.
  split; [exact Hs|]. split; [exact H1|]. split; [exact Hf|]. split; [lia|].
  intros Hall.
  apply (f_equal length) in Hs as Hlen. rewrite !length_app, !length_map in Hlen.
  assert (audioQueue s' = []) as Hq' by (apply length_zero_iff_nil; lia).
  assert (active s' = []) as Ha' by (apply length_zero_iff_nil; lia).
  rewrite Hq' in Hs. simpl in Hs. rewrite app_nil_r in Hs.
  split; [exact Hq'|]. split; [rewrite Hf, Ha'; reflexivity|]. split; [exact Ha' | exact Hs].
Qed.

(** Three chunks and three completions; and two chunks back to back: only
    the first begins. *)
Lemma playback_fifo_witness :
  run connected (mount en true) = Some listening
  /\ (exists s',
       run (three_chunks ++ [Ended 0%nat; Ended 0%nat; Ended 0%nat]) listening = Some s'
       /\ started s' = map to_float32 [[1; 2]; [3]; [4]]
       /\ audioQueue s' = [] /\ isPlaying s' = false)
  /\ (exists s2,
       run [OnMessage session0 (audio "AQACAA=="); OnMessage session0 (audio "AwA=")] listening
       = Some s2
       /\ started s2 ++ map to_float32 (audioQueue s2) = map to_float32 [[1; 2]; [3]]
       /\ (length (started s2) = 0 + 0 + length (active s2))%nat
       /\ (length (active s2) <= 1)%nat).
Proof.
  split; [vm_compute; reflexivity|].
  assert (exists s', run (three_chunks ++ [Ended 0%nat; Ended 0%nat; Ended 0%nat]) listening
                     = Some s') as [s' Hrun].
  { eexists. vm_compute. reflexivity. }
  assert (exists s2, run [OnMessage session0 (audio "AQACAA==");
                          OnMessage session0 (audio "AwA=")] listening = Some s2) as [s2 Hrun2].
  { eexists. vm_compute. reflexivity. }
  destruct (playback_fifo listening (three_chunks ++ [Ended 0%nat; Ended 0%nat; Ended 0%nat]) s'
              (ex_intro _ context48k eq_refl) eq_refl eq_refl eq_refl eq_refl Hrun)
    as (_ & _ & _ & _ & Hall).
  destruct (Hall eq_refl) as (H1 & H2 & _ & H3).
  destruct (playback_fifo listening
              [OnMessage session0 (audio "AQACAA=="); OnMessage session0 (audio "AwA=")] s2
              (ex_intro _ context48k eq_refl) eq_refl eq_refl eq_refl eq_refl Hrun2)
    as (H4 & H5 & _ & H6 & _).
  split.
  - exists s'. split; [exact Hrun|]. split; [exact H3|]. split; [exact H1 | exact H2].
  - exists s2. split; [exact Hrun2|]. split; [exact H4|]. split; [exact H6 | exact H5].
Defined.

(** ** C7: equal rates *)

(** C7: for every input sequence and every rate r, [resample data r r] is
    [data]. *)
Theorem resample_identity (data : list Q) (r : Q) : resample data r r = data.
Proof. unfold resample. rewrite Qeq_bool_refl. reflexivity. Qed.

(** ** C8: quantisation *)

(** C8: a sample is clamped to [-1, 1], scaled by 32767 and truncated to a
    signed 16-bit integer, which lies between -32767 and 32767; the loops of
    the source apply this to every sample; and for x in [-1, 1], dividing the
    quantised value by 32767 gives a number within 1/32767 of x. *)
Theorem quantize_roundtrip (x y : Q) (frame : list Q) :
  (-1 <= x <= 1)%Q ->
  (-1 <= Math.max (-1) (Math.min 1 y) <= 1)%Q
  /\ quantize y = Math.trunc (Math.max (-1) (Math.min 1 y) * 32767)%Q
  /\ -32767 <= quantize y <= 32767
  /\ to_pcm16 frame = map quantize frame
  /\ to_float32 (to_pcm16 frame) = map (fun v => dequantize (quantize v)) frame
  /\ quantize x = Math.trunc (x * 32767)%Q
  /\ (Qabs (dequantize (quantize x) - x) < 1 # 32767)%Q.
Proof.
  intros Hx. split; [apply clamp_range|].
  destruct (quantize_trunc y) as [H1 H2]. split; [exact H1|]. split; [exact H2|].
  split; [apply to_pcm16_map|].
  split; [rewrite to_float32_map, to_pcm16_map, map_map; reflexivity|].
  split; [|apply quantize_roundtrip_bound; exact Hx].
  destruct (quantize_trunc x) as [-> _]. apply trunc_comp. rewrite (clamp_id x Hx). reflexivity.
Qed.

(** The samples 1/3 and -5/2. *)
Lemma quantize_roundtrip_witness :
  (-1 <= 1 # 3 <= 1)%Q
  /\ quantize (1 # 3) = 10922 /\ quantize (-5 # 2) = -32767
  /\ (Qabs (dequantize (quantize (1 # 3)) - (1 # 3)) < 1 # 32767)%Q.
Proof.
  assert (-1 <= 1 # 3 <= 1)%Q as Hx by (split; discriminate).
  destruct (quantize_roundtrip (1 # 3) (-5 # 2) [] Hx) as (_ & H1 & _ & _ & _ & H2 & H3).
  split; [exact Hx|]. split; [rewrite H2; reflexivity|]. split; [rewrite H1; reflexivity|].
  exact H3.
Defined.

(** ** C9: frames after a teardown *)

(** C9, at the failing input: after a change of language while connected the
    memoised [connect] closes over [isConnected = true]; the bridge is
    stopped, connected again and stopped once more before the microphone is
    granted.  The grant then installs a processor on a fresh audio context;
    the bridge is torn down ([isConnected] and [isConnecting] are false), yet
    the guard of line 141 sees a session in [sessionRef], which nothing
    clears, and the [isConnected] of its closure: the frame is sent. *)
Lemma frame_sent_after_teardown :
  let frame := [1 # 2; 0; 0; -1 # 2; 0; 0]%Q in
  let processor := {| processor_context := context48k_late; processor_isConnected := true |} in
  exists s s',
    run (stopped_before_grant ++ [MicSettled second_render (MicGranted stream1 context48k_late)])
      (mount en true) = Some s
    /\ isConnected s = false /\ isConnecting s = false
    /\ closedContexts s = [context48k; context48k]
    /\ processors s = [{| processor_context := context48k; processor_isConnected := false |};
                       processor]
    /\ sent s = []
    /\ step (AudioProcess processor frame) s = Some s'
    /\ sent s' = [(session1_bn, {| data := "/z8BwA=="; mimeType := "audio/pcm;rate=16000" |})]
    /\ decode_audio "/z8BwA==" = Some [16383; -16383].
Proof.
  intros frame processor. eexists. eexists.
  split; [vm_compute; reflexivity|]. do 5 (split; [reflexivity|]).
  split; [vm_compute; reflexivity|]. split; reflexivity.
Qed.

(** ** C10: playback without an audio context *)

(** C10, counterexample: two chunks are received while there is no audio
    context.  An interruption then discards them, unplayed; and once the
    microphone is granted and the audio context exists, the next message
    starts the first of them. *)
Lemma queued_chunks_discarded_or_played :
  run awaiting_microphone (mount en true) = Some unheard
  /\ audioContextRef unheard = None /\ audioQueue unheard = [[1; 2]; [3]]
  /\ (exists s, run [OnMessage session0 interruption] unheard = Some s
        /\ audioContextRef s = None /\ audioQueue s = [] /\ started s = [])
  /\ (exists s, run [MicSettled first_render (MicGranted stream0 context48k);
                     OnMessage session0 (audio "BAA=")] unheard = Some s
        /\ started s = [to_float32 [1; 2]] /\ audioQueue s = [[3]; [4]]
        /\ isPlaying s = true).
Proof.
  split; [vm_compute; reflexivity|]. split; [reflexivity|]. split; [reflexivity|]. split.
  - eexists. split; [vm_compute; reflexivity|]. repeat split; reflexivity.
  - eexists. split; [vm_compute; reflexivity|]. repeat split; reflexivity.
Qed.

(** C10, amended: when the queue is empty or there is no audio context,
    [playNextChunk] clears the playing flag and returns, taking nothing from
    the queue; hence, as long as no audio context exists and no interruption
    arrives, every chunk received since the mount is still queued, the playing
    flag is false and nothing has been played; and the chunks stay queued and
    unplayed, whatever else happens (the audio context may come into being),
    until another message arrives. *)
Theorem playNextChunk_without_context (s : State) (l : Lang) (hasMediaDevices : bool)
    (events : list Event) (s' : State) (rest : list Event) (s'' : State) :
  audioQueue s = [] \/ audioContextRef s = None ->
  run events (mount l hasMediaDevices) = Some s' ->
  audioContextRef s' = None ->
  forallb not_interrupting events = true ->
  forallb not_message rest = true ->
  run rest s' = Some s'' ->
  playNextChunk s = (Normal, set_isPlaying false s)
  /\ audioQueue s' = delivered events
  /\ isPlaying s' = false
  /\ started s' = [] /\ active s' = []
  /\ audioQueue s'' = delivered events
  /\ isPlaying s'' = false
  /\ started s'' = [] /\ active s'' = [].
Proof.
  intros Hs Hrun Hc Hq Hrest Hrun'. split; [apply playNextChunk_early; exact Hs|].
  destruct (run_without_context events _ s' (mount_idle l hasMediaDevices) Hrun Hc Hq)
    as ([_ Hp Ha Hst] & Hqueue).
  destruct (run_idle_without_message rest s' s'' Hp Ha Hrest Hrun') as (Hp' & Ha' & Hq' & Hst').
  rewrite Hq', Hst', Hqueue, Hst. simpl. repeat split; assumption.
Qed.

(** Two chunks arrive before the microphone is granted; then it is granted. *)
Lemma playNextChunk_without_context_witness :
  run awaiting_microphone (mount en true) = Some unheard
  /\ audioContextRef unheard = None
  /\ playNextChunk unheard = (Normal, set_isPlaying false unheard)
  /\ audioQueue unheard = [[1; 2]; [3]]
  /\ isPlaying unheard = false /\ started unheard = []
  /\ exists s'',
       run [MicSettled first_render (MicGranted stream0 context48k)] unheard = Some s''
       /\ audioContextRef s'' = Some context48k
       /\ audioQueue s'' = [[1; 2]; [3]] /\ isPlaying s'' = false /\ started s'' = [].
Proof.
  assert (run awaiting_microphone (mount en true) = Some unheard) as Hrun
    by (vm_compute; reflexivity).
  assert (exists s'', run [MicSettled first_render (MicGranted stream0 context48k)] unheard
                      = Some s'' /\ audioContextRef s'' = Some context48k) as (s'' & Hrun' & Hc).
  { eexists. split; vm_compute; reflexivity. }
  destruct (playNextChunk_without_context unheard en true awaiting_microphone unheard
              [MicSettled first_render (MicGranted stream0 context48k)] s''
              (or_intror eq_refl) Hrun eq_refl eq_refl eq_refl Hrun')
    as (H1 & H2 & H3 & H4 & _ & H5 & H6 & H7 & _).
  split; [exact Hrun|]. split; [reflexivity|]. split; [exact H1|]. split; [exact H2|].
  split; [exact H3|]. split; [exact H4|].
  exists s''. split; [exact Hrun'|]. split; [exact Hc|]. split; [exact H5|].
  split; [exact H6 | exact H7].
Defined.

(** * Further properties of the code *)

(** ** The resampler, sample by sample *)

Lemma foldl_ext_in {A B : Type} (f g : A -> B -> A) (l : list B) (a : A) :
  (forall x y, f x y = g x y) -> foldl f a l = foldl g a l.
Proof.
  intros H. revert a. induction l as [|y l IH]; intros a; simpl; [reflexivity|].
  rewrite H. apply IH.
Qed.

Lemma resample_lookup (data : list Q) (fromRate toRate : Q) (i : nat) :
  Qeq_bool fromRate toRate = false ->
  (0 < fromRate)%Q -> (0 < toRate)%Q ->
  (Z.of_nat i < Math.round (inject_Z (array_length data) / (fromRate / toRate))%Q) ->
  resample data fromRate toRate !! i = Some (interpolated data (fromRate / toRate) i).
Proof.
  intros E Hf Ht Hi. unfold resample. rewrite E. cbv zeta. unfold for_loop.
  rewrite (foldl_ext_in _ (fun acc j => <[j := interpolated data (fromRate / toRate) j]> acc)).
  - rewrite foldl_insert_lookup. unfold new_array. rewrite length_replicate.
    rewrite bool_decide_eq_true_2 by lia. reflexivity.
  - intros acc j. unfold interpolated. destruct (_ <? _); reflexivity.
Qed.

Lemma get_in_range {A : Type} (zero : A) (a : list A) (i : Z) :
  0 <= i < array_length a -> exists x, a !! Z.to_nat i = Some x /\ get zero a i = x.
Proof.
  intros [H0 H1]. unfold array_length in H1.
  destruct (lookup_lt_is_Some_2 a (Z.to_nat i)) as [x Hx]; [lia|].
  exists x. split; [exact Hx|]. unfold get.
  destruct (Z.ltb_spec i 0); [lia|]. rewrite Hx. reflexivity.
Qed.

Lemma frac_range (pos : Q) : (0 <= pos - inject_Z (Math.floor pos) < 1)%Q.
Proof.
  unfold Math.floor. pose proof (Qfloor_le pos) as H1. pose proof (Qlt_floor pos) as H2.
  rewrite inject_Z_plus in H2. change (inject_Z 1) with 1%Q in H2. split; lra.
Qed.

Section Interpolation.

Variables fromRate toRate : Q.
Hypothesis fromRate_pos : (0 < fromRate)%Q.
Hypothesis toRate_pos : (0 < toRate)%Q.
Variable data : list Q.

(** The value stored at an index of the loop lies between the two samples
    that bracket the position, or is the last sample. *)
Lemma interpolated_bounds (lo hi : Q) (i : nat) :
  Forall (fun x => lo <= x <= hi)%Q data ->
  Z.of_nat i < Math.round (inject_Z (array_length data) / (fromRate / toRate))%Q ->
  (lo <= interpolated data (fromRate / toRate) i <= hi)%Q.
Proof.
  intros Hall Hi.
  destruct (resample_reads_in_range fromRate toRate fromRate_pos toRate_pos data (Z.of_nat i))
    as [Hi0 Hi1]; [lia|].
  unfold interpolated. cbv zeta.
  set (pos := (inject_Z (Z.of_nat i) * (fromRate / toRate))%Q) in *.
  pose proof (frac_range pos) as [Hf0 Hf1].
  set (frac := (pos - inject_Z (Math.floor pos))%Q) in *.
  destruct (get_in_range 0%Q data (Math.floor pos)) as (x & Hx & ->); [lia|].
  rewrite Forall_lookup in Hall. pose proof (Hall _ _ Hx) as [Hx0 Hx1].
  destruct (Z.ltb_spec (Math.floor pos + 1) (array_length data)) as [Hlt|Hge].
  - destruct (get_in_range 0%Q data (Math.floor pos + 1)) as (y & Hy & ->); [lia|].
    pose proof (Hall _ _ Hy) as [Hy0 Hy1]. split; nra.
  - split; assumption.
Qed.

End Interpolation.

Lemma resample_newLength (data : list Q) (fromRate toRate : Q) :
  (0 < fromRate)%Q -> (0 < toRate)%Q ->
  array_length (resample data fromRate toRate)
  = (if Qeq_bool fromRate toRate then array_length data
     else Math.round (inject_Z (array_length data) / (fromRate / toRate))%Q).
Proof.
  intros Hf Ht. destruct (Qeq_bool fromRate toRate) eqn:E.
  - unfold resample. rewrite E. reflexivity.
  - rewrite (resample_length fromRate toRate Hf Ht). apply round_comp. field. split; lra.
Qed.

(** X1: linear interpolation never overshoots.  For positive rates, if every
    input sample lies in [lo, hi] then so does every sample that [resample]
    returns; in particular a frame within [-1, 1] stays within [-1, 1]. *)
Theorem resample_within_bounds (data : list Q) (fromRate toRate lo hi : Q) :
  (0 < fromRate)%Q -> (0 < toRate)%Q ->
  Forall (fun x => lo <= x <= hi)%Q data ->
  Forall (fun x => lo <= x <= hi)%Q (resample data fromRate toRate).
Proof.
  intros Hf Ht Hall.
  destruct (Qeq_bool fromRate toRate) eqn:E.
  - unfold resample. rewrite E. exact Hall.
  - apply Forall_lookup. intros j y Hy.
    assert (Z.of_nat j < Math.round (inject_Z (array_length data) / (fromRate / toRate))%Q)
      as Hj.
    { pose proof (resample_newLength data fromRate toRate Hf Ht) as Hlen. rewrite E in Hlen.
      rewrite <- Hlen. unfold array_length. apply lookup_lt_Some in Hy. lia. }
    rewrite (resample_lookup data fromRate toRate j E Hf Ht Hj) in Hy. injection Hy as <-.
    apply interpolated_bounds; assumption.
Qed.

(** X1, witness: six samples from 48000 Hz to 16000 Hz. *)
Lemma resample_within_bounds_witness :
  Forall (fun x => -1 <= x <= 1)%Q (resample [1 # 2; -1; 1; 0; 1 # 4; 3 # 4]%Q 48000 16000).
Proof.
  apply (resample_within_bounds _ 48000 16000 (-1) 1); [reflexivity | reflexivity |].
  repeat constructor; discriminate.
Defined.

(** At a position that is an integer, nothing is blended. *)
Lemma interpolated_at_integer (data : list Q) (ratio : Q) (i : nat) (m : Z) :
  (inject_Z (Z.of_nat i) * ratio == inject_Z m)%Q ->
  (interpolated data ratio i == get 0%Q data m)%Q.
Proof.
  intros Hpos. unfold interpolated. cbv zeta.
  assert (Math.floor (inject_Z (Z.of_nat i) * ratio) = m) as Hfl.
  { unfold Math.floor. rewrite (Qfloor_comp _ _ Hpos). apply Qfloor_Z. }
  rewrite Hfl. destruct (_ <? _); [|reflexivity].
  rewrite Hpos. ring.
Qed.

(** X2: decimation by a whole factor.  When the source rate is [k] times the
    target rate, the sample that [resample] returns at index [i] is the input
    sample at index [k * i]: nothing is averaged. *)
Theorem resample_decimates (data : list Q) (fromRate toRate : Q) (k : Z) (i : nat) (y : Q) :
  (0 < toRate)%Q -> 1 <= k -> (fromRate == inject_Z k * toRate)%Q ->
  resample data fromRate toRate !! i = Some y ->
  exists x, data !! (Z.to_nat k * i)%nat = Some x /\ (y == x)%Q.
Proof.
  intros Ht Hk Hrate Hy.
  assert (0 < inject_Z k)%Q as Hkq by (change 0%Q with (inject_Z 0); rewrite <- Zlt_Qlt; lia).
  assert (0 < fromRate)%Q as Hf by (rewrite Hrate; nra).
  destruct (Qeq_bool fromRate toRate) eqn:E.
  - apply Qeq_bool_iff in E.
    assert (k = 1) as ->.
    { assert (inject_Z k == 1)%Q as H1 by nra.
      unfold Qeq in H1. simpl in H1. lia. }
    unfold resample in Hy. rewrite (proj2 (Qeq_bool_iff _ _) E) in Hy.
    exists y. change (Z.to_nat 1) with 1%nat. rewrite Nat.mul_1_l. split; [exact Hy | reflexivity].
  - assert (Z.of_nat i < Math.round (inject_Z (array_length data) / (fromRate / toRate))%Q)
      as Hi.
    { pose proof (resample_newLength data fromRate toRate Hf Ht) as Hlen. rewrite E in Hlen.
      rewrite <- Hlen. unfold array_length. apply lookup_lt_Some in Hy. lia. }
    rewrite (resample_lookup data fromRate toRate i E Hf Ht Hi) in Hy. injection Hy as <-.
    assert (inject_Z (Z.of_nat i) * (fromRate / toRate) == inject_Z (k * Z.of_nat i))%Q as Hpos.
    { rewrite inject_Z_mult, Hrate. field. lra. }
    destruct (resample_reads_in_range fromRate toRate Hf Ht data (Z.of_nat i)) as [H0 H1];
      [lia|].
    unfold Math.floor in H0, H1. rewrite (Qfloor_comp _ _ Hpos), Qfloor_Z in H0, H1.
    destruct (get_in_range 0%Q data (k * Z.of_nat i)) as (x & Hx & Hget); [lia|].
    exists x. split.
    + rewrite <- Hx. f_equal. lia.
    + rewrite (interpolated_at_integer data _ i _ Hpos), Hget. reflexivity.
Qed.

(** X2, witness: four samples, halved. *)
Lemma resample_decimates_witness :
  resample [1; 2; 3; 4]%Q 2 1 !! 1%nat = Some 3%Q
  /\ exists x, [1; 2; 3; 4]%Q !! (Z.to_nat 2 * 1)%nat = Some x /\ (3 == x)%Q.
Proof.
  assert (resample [1; 2; 3; 4]%Q 2 1 !! 1%nat = Some 3%Q) as H by (vm_compute; reflexivity).
  split; [exact H|].
  apply (resample_decimates [1; 2; 3; 4]%Q 2 1 2 1 3); [reflexivity | lia | reflexivity | exact H].
Defined.

(** ** Quantisation: order, saturation and the way back *)

Lemma trunc_inject_Z (n : Z) : Math.trunc (inject_Z n) = n.
Proof.
  unfold Math.trunc. destruct (Qle_bool 0 (inject_Z n)); [apply Qfloor_Z | apply Qceiling_Z].
Qed.

Lemma trunc_monotone (x y : Q) : (x <= y)%Q -> Math.trunc x <= Math.trunc y.
Proof.
  intros H. unfold Math.trunc.
  destruct (Qle_bool 0 x) eqn:Ex, (Qle_bool 0 y) eqn:Ey.
  - apply Qfloor_resp_le; assumption.
  - apply Qle_bool_iff in Ex.
    assert (~ 0 <= y)%Q by (rewrite <- Qle_bool_iff, Ey; discriminate). lra.
  - assert (~ 0 <= x)%Q by (rewrite <- Qle_bool_iff, Ex; discriminate).
    apply Qle_bool_iff in Ey.
    assert (Qceiling x <= 0) by (change 0 with (Qceiling 0); apply Qceiling_resp_le; lra).
    assert (0 <= Qfloor y) by (change 0 with (Qfloor 0); apply Qfloor_resp_le; assumption).
    lia.
  - apply Qceiling_resp_le; assumption.
Qed.

Lemma trunc_opp (x : Q) : Math.trunc (- x) = - Math.trunc x.
Proof.
  unfold Math.trunc.
  destruct (Qle_bool 0 x) eqn:Ex, (Qle_bool 0 (- x)) eqn:Ey.
  - apply Qle_bool_iff in Ex, Ey.
    assert (x == 0)%Q as Hx by lra.
    rewrite (Qfloor_comp (- x) 0), (Qfloor_comp x 0); [reflexivity | exact Hx | lra].
  - unfold Qceiling. rewrite Qopp_involutive. reflexivity.
  - unfold Qceiling. lia.
  - assert (~ 0 <= x)%Q by (rewrite <- Qle_bool_iff, Ex; discriminate).
    assert (~ 0 <= - x)%Q by (rewrite <- Qle_bool_iff, Ey; discriminate). lra.
Qed.

Lemma clamp_monotone (x y : Q) :
  (x <= y)%Q -> (Math.max (-1) (Math.min 1 x) <= Math.max (-1) (Math.min 1 y))%Q.
Proof.
  intros H.
  destruct (max_spec (-1) (Math.min 1 x)) as (H1 & H2 & [H3|H3]);
  destruct (min_spec 1 x) as (H4 & H5 & [H6|H6]);
  destruct (max_spec (-1) (Math.min 1 y)) as (G1 & G2 & [G3|G3]);
  destruct (min_spec 1 y) as (G4 & G5 & [G6|G6]);
  rewrite ?H3, ?H6, ?G3, ?G6 in *; lra.
Qed.

Lemma clamp_opp (x : Q) :
  (Math.max (-1) (Math.min 1 (- x)) == - Math.max (-1) (Math.min 1 x))%Q.
Proof.
  destruct (max_spec (-1) (Math.min 1 x)) as (H1 & H2 & [H3|H3]);
  destruct (min_spec 1 x) as (H4 & H5 & [H6|H6]);
  destruct (max_spec (-1) (Math.min 1 (- x))) as (G1 & G2 & [G3|G3]);
  destruct (min_spec 1 (- x)) as (G4 & G5 & [G6|G6]);
  rewrite ?H3, ?H6, ?G3, ?G6 in *; lra.
Qed.

Lemma clamp_high (x : Q) : (1 <= x)%Q -> (Math.max (-1) (Math.min 1 x) == 1)%Q.
Proof.
  intros H.
  destruct (max_spec (-1) (Math.min 1 x)) as (H1 & H2 & [H3|H3]);
  destruct (min_spec 1 x) as (H4 & H5 & [H6|H6]); rewrite ?H3, ?H6 in *; lra.
Qed.

Lemma clamp_low (x : Q) : (x <= -1)%Q -> (Math.max (-1) (Math.min 1 x) == -1)%Q.
Proof.
  intros H.
  destruct (max_spec (-1) (Math.min 1 x)) as (H1 & H2 & [H3|H3]);
  destruct (min_spec 1 x) as (H4 & H5 & [H6|H6]); rewrite ?H3, ?H6 in *; lra.
Qed.

(** X5: the quantisation of line 151 keeps the order of the samples. *)
Theorem quantize_monotone (x y : Q) : (x <= y)%Q -> quantize x <= quantize y.
Proof.
  intros H. destruct (quantize_trunc x) as [-> _]. destruct (quantize_trunc y) as [-> _].
  apply trunc_monotone. pose proof (clamp_monotone x y H). lra.
Qed.

(** X5, witness: the samples 1/3 and 1/2. *)
Lemma quantize_monotone_witness : quantize (1 # 3) <= quantize (1 # 2).
Proof. apply (quantize_monotone (1 # 3) (1 # 2)). discriminate. Defined.

(** X6: the quantisation of line 151 saturates at full scale, 32767 for
    samples of 1 and more and -32767 for samples of -1 and less; it is odd,
    and it never produces -32768. *)
Theorem quantize_saturates (x : Q) :
  ((1 <= x)%Q -> quantize x = 32767)
  /\ ((x <= -1)%Q -> quantize x = -32767)
  /\ quantize (- x) = - quantize x
  /\ quantize x <> -32768.
Proof.
  repeat split.
  - intros H. destruct (quantize_trunc x) as [-> _].
    rewrite (trunc_comp _ (inject_Z 32767)).
    + apply trunc_inject_Z.
    + rewrite (clamp_high x H). reflexivity.
  - intros H. destruct (quantize_trunc x) as [-> _].
    rewrite (trunc_comp _ (inject_Z (-32767))).
    + apply trunc_inject_Z.
    + rewrite (clamp_low x H). reflexivity.
  - destruct (quantize_trunc x) as [-> _]. destruct (quantize_trunc (- x)) as [-> _].
    rewrite <- trunc_opp. apply trunc_comp. rewrite clamp_opp. ring.
  - destruct (quantize_trunc x) as [_ H]. lia.
Qed.

(** X6, witness: the sample 3/2. *)
Lemma quantize_saturates_witness :
  quantize (3 # 2) = 32767 /\ quantize (-(3 # 2)) = - quantize (3 # 2).
Proof.
  destruct (quantize_saturates (3 # 2)) as (H1 & _ & H3 & _).
  split; [apply H1; discriminate | exact H3].
Defined.

(** A rounding that does not underflow multiplies by a factor within
    [2 ^ (- prec)] of 1. *)
Lemma round_to_factor (prec emin : Z) (x : Q) :
  ~ (x == 0)%Q -> emin <= ilog2 (Qabs x) - (prec - 1) ->
  exists t, (round_to prec emin x == x * t)%Q
            /\ (1 - 2 ^ (- prec) <= t <= 1 + 2 ^ (- prec))%Q.
Proof.
  intros Hx He.
  assert (0 < Qabs x)%Q as Hax.
  { pose proof (Qabs_nonneg x) as H0. destruct (Qeq_dec (Qabs x) 0) as [Hz|Hnz]; [|lra].
    exfalso. apply Hx. revert Hz. apply Qabs_case; intros; lra. }
  assert (Qabs (round_to prec emin x - x) <= Qabs x * 2 ^ (- prec))%Q as Herr.
  { unfold round_to.
    destruct (Qeq_bool x 0) eqn:E; [apply Qeq_bool_iff in E; contradiction|]. cbv zeta.
    rewrite Qred_correct. rewrite Z.max_l by exact He.
    set (k := ilog2 (Qabs x)) in *. set (e := k - (prec - 1)).
    pose proof (two_power_pos e) as Pe.
    pose proof (round_half_even_spec (x / 2 ^ e)) as Hm.
    set (m := inject_Z (round_half_even (x / 2 ^ e))) in *.
    destruct (ilog2_spec (Qabs x) Hax) as [Hk _]. fold k in Hk.
    assert (2 ^ k == 2 ^ e * 2 ^ (prec - 1))%Q as Hke.
    { rewrite <- Qpower_plus by discriminate.
      replace (e + (prec - 1)) with k by (subst e; lia). reflexivity. }
    assert (2 ^ (prec - 1) * 2 ^ (- prec) == 1 # 2)%Q as Hp.
    { rewrite <- Qpower_plus by discriminate. replace (prec - 1 + - prec) with (-1) by lia.
      reflexivity. }
    pose proof (two_power_pos (prec - 1)) as Pp. pose proof (two_power_pos (- prec)) as Pn.
    assert (m * 2 ^ e - x == (m - x / 2 ^ e) * 2 ^ e)%Q as -> by (field; lra).
    rewrite Qabs_Qmult, (Qabs_pos (2 ^ e)) by lra.
    assert (2 ^ e * (1 # 2) <= Qabs x * 2 ^ (- prec))%Q as Hb.
    { rewrite <- Hp. rewrite Hke in Hk. nra. }
    assert (0 <= Qabs (m - x / 2 ^ e))%Q by apply Qabs_nonneg.
    nra. }
  exists (round_to prec emin x / x)%Q. split; [field; exact Hx|].
  set (y := round_to prec emin x) in *. set (u := (2 ^ (- prec))%Q) in *.
  apply Qabs_Qle_condition in Herr. destruct Herr as [H1 H2].
  revert Hax H1 H2. apply Qabs_case; intros Hs Hax H1 H2.
  - split.
    + apply Qle_shift_div_l; [lra|]. lra.
    + apply Qle_shift_div_r; [lra|]. lra.
  - assert (y / x == (- y) / (- x))%Q as -> by (field; exact Hx). split.
    + apply Qle_shift_div_l; [lra|]. lra.
    + apply Qle_shift_div_r; [lra|]. lra.
Qed.

Lemma clamp_inside (x : Q) : (-1 <= x < 1)%Q -> Math.max (-1) (Math.min 1 x) = x.
Proof.
  intros [H1 H2]. unfold Math.max, Math.min.
  destruct (Qle_bool 1 x) eqn:E; [apply Qle_bool_iff in E; lra|].
  destruct (Qle_bool (-1) x) eqn:E'; [reflexivity|].
  assert (~ -1 <= x)%Q by (rewrite <- Qle_bool_iff, E'; discriminate). contradiction.
Qed.

(** The three roundings between a sample and its way back. *)
Lemma way_back (n : Z) :
  1 <= Z.abs n <= 32766 ->
  let x := dequantize_in binary64 n in
  (-1 < x < 1)%Q
  /\ (Qabs (binary64_round (x * 32767) - inject_Z n) <= 1 # 128)%Q.
Proof.
  intros Hn x.
  assert (1 <= Qabs (inject_Z n) <= 32766)%Q as Hq.
  { change (Qabs (inject_Z n)) with (inject_Z (Z.abs n)).
    change 1%Q with (inject_Z 1). change 32766%Q with (inject_Z 32766).
    rewrite <- !Zle_Qle. exact Hn. }
  set (N := inject_Z n) in *.
  assert (~ N == 0)%Q as HN by (revert Hq; apply Qabs_case; intros; lra).
  set (a := (N / 32767)%Q).
  assert (Qabs a == Qabs N * (1 # 32767))%Q as Ha.
  { unfold a. unfold Qdiv. rewrite Qabs_Qmult. reflexivity. }
  assert (~ a == 0)%Q as Ha0.
  { intros H. apply HN. assert (N == a * 32767)%Q as -> by (unfold a; field). rewrite H. ring. }
  (* the division *)
  destruct (round_to_factor 53 (-1074) a Ha0) as (t1 & E1 & B1).
  { assert (-15 <= ilog2 (Qabs a)); [|lia].
    apply ilog2_lower; [rewrite Ha; lra|].
    change (2 ^ (-15))%Q with (1 # 32768)%Q. rewrite Ha. lra. }
  change (2 ^ (- (53)))%Q with (1 # 9007199254740992)%Q in B1.
  set (d := round_to 53 (-1074) a) in *.
  assert (Qabs d == Qabs a * t1)%Q as Hd.
  { rewrite E1, Qabs_Qmult, (Qabs_pos t1) by lra. reflexivity. }
  assert (~ d == 0)%Q as Hd0.
  { intros H. rewrite H in Hd. change (Qabs 0) with 0%Q in Hd.
    assert (0 < Qabs a)%Q by (rewrite Ha; lra). nra. }
  (* the store *)
  destruct (round_to_factor 24 (-149) d Hd0) as (t2 & E2 & B2).
  { assert (-16 <= ilog2 (Qabs d)); [|lia].
    apply ilog2_lower; [rewrite Hd, Ha; nra|].
    change (2 ^ (-16))%Q with (1 # 65536)%Q. rewrite Hd, Ha. nra. }
  change (2 ^ (- (24)))%Q with (1 # 16777216)%Q in B2.
  assert (x == N * (1 # 32767) * t1 * t2)%Q as Hx.
  { assert (x = round_to 24 (-149) d) as -> by reflexivity.
    rewrite E2, E1. unfold a. field. }
  set (t12 := (t1 * t2)%Q).
  assert ((1 - (1 # 8000000)) <= t12 <= (1 + (1 # 8000000)))%Q as B12 by (unfold t12; nra).
  assert (x == N * (1 # 32767) * t12)%Q as Hx' by (rewrite Hx; unfold t12; ring).
  assert (Qabs x == Qabs N * (1 # 32767) * t12)%Q as Hax.
  { rewrite Hx', !Qabs_Qmult, (Qabs_pos t12), (Qabs_pos (1 # 32767)) by lra. reflexivity. }
  assert (Qabs x < 1)%Q as Hx1 by (rewrite Hax; nra).
  split; [apply Qabs_Qlt_condition in Hx1; exact Hx1|].
  (* the product *)
  set (p := (x * 32767)%Q).
  assert (p == N * t12)%Q as Hp by (unfold p; rewrite Hx'; field).
  assert (Qabs p == Qabs N * t12)%Q as Hap.
  { rewrite Hp, Qabs_Qmult, (Qabs_pos t12) by lra. reflexivity. }
  assert (~ p == 0)%Q as Hp0.
  { intros H. rewrite H in Hap. change (Qabs 0) with 0%Q in Hap. nra. }
  destruct (round_to_factor 53 (-1074) p Hp0) as (t3 & E3 & B3).
  { assert (-1 <= ilog2 (Qabs p)); [|lia].
    apply ilog2_lower; [rewrite Hap; nra|].
    change (2 ^ (-1))%Q with (1 # 2)%Q. rewrite Hap. nra. }
  change (2 ^ (- (53)))%Q with (1 # 9007199254740992)%Q in B3.
  unfold binary64_round. rewrite E3, Hp.
  set (t := (t12 * t3)%Q).
  assert ((1 - (1 # 7000000)) <= t <= (1 + (1 # 7000000)))%Q as Bt by (unfold t; nra).
  assert (N * t12 * t3 - N == N * (t - 1))%Q as -> by (unfold t; ring).
  rewrite Qabs_Qmult.
  assert (Qabs (t - 1) <= 1 # 7000000)%Q as Ht by (apply Qabs_Qle_condition; split; lra).
  pose proof (Qabs_nonneg (t - 1)). nra.
Qed.

Lemma way_back_ends :
  quantize_in binary64 (dequantize_in binary64 0) = 0
  /\ dequantize_in binary64 0 = 0%Q
  /\ quantize_in binary64 (dequantize_in binary64 32767) = 32767
  /\ dequantize_in binary64 32767 = 1%Q
  /\ quantize_in binary64 (dequantize_in binary64 (-32767)) = -32767
  /\ dequantize_in binary64 (-32767) = (-1)%Q
  /\ quantize_in binary64 (dequantize_in binary64 (-32768)) = -32767
  /\ dequantize_in binary64 (-32768) = (-32769 # 32768)%Q.
Proof. repeat split; vm_compute; reflexivity. Qed.

(** X7: the way of a 16-bit sample through playback (line 208: divided by
    0x7FFF and stored as binary32) and capture (line 151), in the arithmetic
    of the source as it runs.  The sample comes back as itself or one step
    nearer to zero, never further; and the value played lies in [-1, 1]
    exactly when the sample is not -32768. *)
Theorem quantize_dequantize (n : Z) :
  -32768 <= n <= 32767 ->
  let x := dequantize_in binary64 n in
  let r := quantize_in binary64 x in
  (0 <= n -> n - 1 <= r <= n) /\ (n <= 0 -> n <= r <= n + 1)
  /\ ((-1 <= x <= 1)%Q <-> -32767 <= n).
Proof.
  intros Hn. cbv zeta.
  destruct way_back_ends as (R0 & X0 & R1 & X1 & R2 & X2 & R3 & X3).
  destruct (Z.eq_dec n 0) as [->|H0].
  { rewrite R0, X0. repeat split; try lia; discriminate. }
  destruct (Z.eq_dec n 32767) as [->|H1].
  { rewrite R1, X1. repeat split; try lia; discriminate. }
  destruct (Z.eq_dec n (-32767)) as [->|H2].
  { rewrite R2, X2. repeat split; try lia; discriminate. }
  destruct (Z.eq_dec n (-32768)) as [->|H3].
  { rewrite R3, X3. split; [lia|]. split; [lia|]. split; [|lia].
    intros [H _]. exfalso. revert H. vm_compute. intros H. apply H. reflexivity. }
  destruct (way_back n ltac:(lia)) as [[Hx1 Hx2] Hv].
  set (x := dequantize_in binary64 n) in *.
  assert (quantize_in binary64 x = ToInt16 (binary64_round (x * 32767))) as ->.
  { unfold quantize_in. rewrite clamp_inside by (split; lra). reflexivity. }
  set (v := binary64_round (x * 32767)) in *.
  apply Qabs_Qle_condition in Hv. destruct Hv as [Hv1 Hv2].
  assert (inject_Z (-32766) <= inject_Z n <= inject_Z 32766)%Q as HN
    by (rewrite <- !Zle_Qle; lia).
  change (inject_Z (-32766)) with (-32766)%Q in HN.
  change (inject_Z 32766) with 32766%Q in HN.
  assert (inject_Z (n - 1) == inject_Z n - 1)%Q as Em
    by (unfold Z.sub; rewrite inject_Z_plus; reflexivity).
  assert (inject_Z (n + 1) == inject_Z n + 1)%Q as Ep by (rewrite inject_Z_plus; reflexivity).
  assert ((0 < n -> n - 1 <= Math.trunc v <= n) /\ (n < 0 -> n <= Math.trunc v <= n + 1))
    as [Hpos Hneg].
  { unfold Math.trunc. split; intros Hs.
    - assert (inject_Z 1 <= inject_Z n)%Q as H by (rewrite <- Zle_Qle; lia).
      change (inject_Z 1) with 1%Q in H.
      assert (Qle_bool 0 v = true) as -> by (apply Qle_bool_iff; lra). split.
      + rewrite <- (Qfloor_Z (n - 1)). apply Qfloor_resp_le. rewrite Em. lra.
      + assert (Qfloor v < n + 1); [|lia].
        rewrite Zlt_Qlt, Ep. pose proof (Qfloor_le v). lra.
    - assert (inject_Z n <= inject_Z (-1))%Q as H by (rewrite <- Zle_Qle; lia).
      change (inject_Z (-1)) with (-1)%Q in H.
      assert (Qle_bool 0 v = false) as ->.
      { destruct (Qle_bool 0 v) eqn:E; [apply Qle_bool_iff in E; lra | reflexivity]. }
      split.
      + assert (n - 1 < Qceiling v); [|lia].
        rewrite Zlt_Qlt, Em. pose proof (Qle_ceiling v). lra.
      + rewrite <- (Qceiling_Z (n + 1)). apply Qceiling_resp_le. rewrite Ep. lra. }
  assert (ToInt16 v = Math.trunc v) as ->.
  { apply ToInt16_small. destruct (Z.lt_ge_cases 0 n); [specialize (Hpos ltac:(lia)); lia|].
    specialize (Hneg ltac:(lia)). lia. }
  split; [intros; apply Hpos; lia|]. split; [intros; apply Hneg; lia|].
  split; [intros _; lia | intros _; split; lra].
Qed.

(** X7, witness: the samples 1 and 12345. *)
Lemma quantize_dequantize_witness :
  quantize_in binary64 (dequantize_in binary64 1) = 0
  /\ 12344 <= quantize_in binary64 (dequantize_in binary64 12345) <= 12345.
Proof.
  split; [vm_compute; reflexivity|].
  apply (quantize_dequantize 12345); lia.
Defined.

(** ** Bytes and base64 *)

Lemma list_ind3 {A : Type} (P : list A -> Prop) :
  P [] -> (forall a, P [a]) -> (forall a b, P [a; b]) ->
  (forall a b c l, P l -> P (a :: b :: c :: l)) ->
  forall l, P l.
Proof.
  intros H0 H1 H2 H3 l.
  assert (P l /\ (forall a, P (a :: l)) /\ (forall a b, P (a :: b :: l))) as [H _].
  { induction l as [|x l (IH0 & IH1 & IH2)]; [auto|].
    split; [apply IH1|]. split; [intros a; apply IH2|]. intros a b. apply H3, IH0. }
  exact H.
Qed.

Lemma base64_char_facts (n : Z) :
  0 <= n < 64 ->
  base64_value (base64_char n) = Some n
  /\ is_ascii_whitespace (base64_char n) = false
  /\ Ascii.eqb (base64_char n) "=" = false.
Proof.
  intros Hn.
  assert (forallb (fun k =>
            bool_decide (base64_value (base64_char (Z.of_nat k)) = Some (Z.of_nat k))
            && negb (is_ascii_whitespace (base64_char (Z.of_nat k)))
            && negb (Ascii.eqb (base64_char (Z.of_nat k)) "=")) (seq 0 64) = true) as H
    by (vm_compute; reflexivity).
  rewrite forallb_forall in H. specialize (H (Z.to_nat n)).
  rewrite Z2Nat.id in H by lia.
  assert (In (Z.to_nat n) (seq 0 64)) as Hin by (apply in_seq; lia).
  specialize (H Hin). apply andb_prop in H as [H H3]. apply andb_prop in H as [H1 H2].
  apply bool_decide_eq_true_1 in H1. apply negb_true_iff in H2, H3. auto.
Qed.

Lemma sextets3 (a b c : Z) :
  is_byte a -> is_byte b -> is_byte c ->
  let n := a * 65536 + b * 256 + c in
  0 <= n / 262144 < 64 /\ 0 <= n / 4096 mod 64 < 64 /\ 0 <= n / 64 mod 64 < 64
  /\ 0 <= n mod 64 < 64
  /\ let m := n / 262144 * 262144 + n / 4096 mod 64 * 4096 + n / 64 mod 64 * 64 + n mod 64 in
     m / 65536 = a /\ m / 256 mod 256 = b /\ m mod 256 = c.
Proof.
  intros Ha Hb Hc n. unfold is_byte in *.
  assert (n / 262144 * 262144 + n / 4096 mod 64 * 4096 + n / 64 mod 64 * 64 + n mod 64 = n)
    as Hm by (subst n; Z.div_mod_to_equations; lia).
  cbv zeta. rewrite Hm. subst n. repeat split; Z.div_mod_to_equations; lia.
Qed.

Lemma sextets2 (a b : Z) :
  is_byte a -> is_byte b ->
  let n := a * 65536 + b * 256 in
  0 <= n / 262144 < 64 /\ 0 <= n / 4096 mod 64 < 64 /\ 0 <= n / 64 mod 64 < 64
  /\ let m := n / 262144 * 4096 + n / 4096 mod 64 * 64 + n / 64 mod 64 in
     m / 1024 = a /\ m / 4 mod 256 = b.
Proof.
  intros Ha Hb n. unfold is_byte in *. cbv zeta. subst n.
  repeat split; Z.div_mod_to_equations; lia.
Qed.

Lemma sextets1 (a : Z) :
  is_byte a ->
  let n := a * 65536 in
  0 <= n / 262144 < 64 /\ 0 <= n / 4096 mod 64 < 64
  /\ (n / 262144 * 64 + n / 4096 mod 64) / 16 = a.
Proof.
  intros Ha n. unfold is_byte in *. cbv zeta. subst n.
  repeat split; Z.div_mod_to_equations; lia.
Qed.

Lemma btoa_groups_length (bytes : list Z) : (length (btoa_groups bytes) mod 4 = 0)%nat.
Proof.
  induction bytes as [|a|a b|a b c l IH] using list_ind3; try reflexivity.
  change (btoa_groups (a :: b :: c :: l)) with
    (base64_char ((a * 65536 + b * 256 + c) / 262144)
     :: base64_char ((a * 65536 + b * 256 + c) / 4096 mod 64)
     :: base64_char ((a * 65536 + b * 256 + c) / 64 mod 64)
     :: base64_char ((a * 65536 + b * 256 + c) mod 64) :: btoa_groups l).
  cbn [length].
  replace (S (S (S (S (length (btoa_groups l)))))) with (length (btoa_groups l) + 1 * 4)%nat
    by lia.
  rewrite Nat.Div0.mod_add. exact IH.
Qed.

Lemma btoa_groups_no_whitespace (bytes : list Z) :
  Forall is_byte bytes ->
  List.filter (fun c => negb (is_ascii_whitespace c)) (btoa_groups bytes) = btoa_groups bytes.
Proof.
  induction bytes as [|a|a b|a b c l IH] using list_ind3; intros Hb.
  - reflexivity.
  - inversion Hb as [|? ? Ha _]; subst.
    destruct (sextets1 a Ha) as (H1 & H2 & _).
    cbn [btoa_groups List.filter].
    rewrite (proj1 (proj2 (base64_char_facts _ H1))), (proj1 (proj2 (base64_char_facts _ H2))).
    reflexivity.
  - inversion Hb as [|? ? Ha Hb']; subst. inversion Hb' as [|? ? Hb2 _]; subst.
    destruct (sextets2 a b Ha Hb2) as (H1 & H2 & H3 & _).
    cbn [btoa_groups List.filter].
    rewrite (proj1 (proj2 (base64_char_facts _ H1))), (proj1 (proj2 (base64_char_facts _ H2))),
      (proj1 (proj2 (base64_char_facts _ H3))).
    reflexivity.
  - inversion Hb as [|? ? Ha Hb']; subst. inversion Hb' as [|? ? Hb2 Hb'']; subst.
    inversion Hb'' as [|? ? Hc Hl]; subst.
    destruct (sextets3 a b c Ha Hb2 Hc) as (H1 & H2 & H3 & H4 & _).
    cbn [btoa_groups List.filter].
    rewrite (proj1 (proj2 (base64_char_facts _ H1))), (proj1 (proj2 (base64_char_facts _ H2))),
      (proj1 (proj2 (base64_char_facts _ H3))), (proj1 (proj2 (base64_char_facts _ H4))).
    cbn [negb]. rewrite (IH Hl). reflexivity.
Qed.

Lemma strip_padding_cons4 (q1 q2 q3 q4 : ascii) (l : list ascii) :
  (length l mod 4 = 0)%nat -> Ascii.eqb q4 "=" = false ->
  strip_padding (q1 :: q2 :: q3 :: q4 :: l) = q1 :: q2 :: q3 :: q4 :: strip_padding l.
Proof.
  intros Hlen Hq. unfold strip_padding.
  assert (length (q1 :: q2 :: q3 :: q4 :: l) mod 4 = length l mod 4)%nat as ->.
  { cbn [length].
    replace (S (S (S (S (length l))))) with (length l + 1 * 4)%nat by lia.
    apply Nat.Div0.mod_add. }
  rewrite Hlen. cbn [Nat.eqb].
  destruct l as [|x l].
  - cbn. rewrite Hq. reflexivity.
  - rewrite !(reverse_cons _ q1), !(reverse_cons _ q2), !(reverse_cons _ q3),
      !(reverse_cons _ q4).
    destruct (reverse (x :: l)) as [|c1 [|c2 r]] eqn:Hr.
    + apply (f_equal length) in Hr. rewrite length_reverse in Hr. discriminate.
    + apply (f_equal length) in Hr. rewrite length_reverse in Hr. rewrite Hr in Hlen.
      discriminate.
    + cbn [app]. destruct (Ascii.eqb c1 "="); [|reflexivity].
      destruct (Ascii.eqb c2 "=").
      * rewrite !reverse_app. reflexivity.
      * rewrite <- !app_assoc, (app_comm_cons r _ c2), !reverse_app. reflexivity.
Qed.

Lemma strip_padding_2 (q1 q2 : ascii) : strip_padding [q1; q2; "="; "="]%char = [q1; q2].
Proof. reflexivity. Qed.

Lemma strip_padding_3 (q1 q2 q3 : ascii) :
  Ascii.eqb q3 "=" = false -> strip_padding [q1; q2; q3; "="]%char = [q1; q2; q3].
Proof. intros H. unfold strip_padding. cbn. rewrite H. reflexivity. Qed.

Lemma strip_padding_btoa_groups (bytes : list Z) :
  Forall is_byte bytes -> strip_padding (btoa_groups bytes) = btoa_body bytes.
Proof.
  induction bytes as [|a|a b|a b c l IH] using list_ind3; intros Hb.
  - reflexivity.
  - inversion Hb as [|? ? Ha _]; subst.
    destruct (sextets1 a Ha) as (H1 & H2 & _).
    cbn [btoa_groups btoa_body]. apply strip_padding_2.
  - inversion Hb as [|? ? Ha Hb']; subst. inversion Hb' as [|? ? Hb2 _]; subst.
    destruct (sextets2 a b Ha Hb2) as (H1 & H2 & H3 & _).
    cbn [btoa_groups btoa_body]. apply strip_padding_3. apply (base64_char_facts _ H3).
  - inversion Hb as [|? ? Ha Hb']; subst. inversion Hb' as [|? ? Hb2 Hb'']; subst.
    inversion Hb'' as [|? ? Hc Hl]; subst.
    destruct (sextets3 a b c Ha Hb2 Hc) as (H1 & H2 & H3 & H4 & _).
    cbn [btoa_groups btoa_body].
    rewrite strip_padding_cons4.
    + rewrite (IH Hl). reflexivity.
    + apply btoa_groups_length.
    + apply (base64_char_facts _ H4).
Qed.

Lemma btoa_body_length (bytes : list Z) : (length (btoa_body bytes) mod 4 <> 1)%nat.
Proof.
  induction bytes as [|a|a b|a b c l IH] using list_ind3; try (cbn; lia).
  cbn [btoa_body length].
  replace (S (S (S (S (length (btoa_body l)))))) with (length (btoa_body l) + 1 * 4)%nat
    by lia.
  rewrite Nat.Div0.mod_add. exact IH.
Qed.

Lemma btoa_body_decodes (bytes : list Z) :
  Forall is_byte bytes ->
  exists sextets, mapM base64_value (btoa_body bytes) = Some sextets
                  /\ atob_groups sextets = bytes.
Proof.
  induction bytes as [|a|a b|a b c l IH] using list_ind3; intros Hb.
  - exists []. split; reflexivity.
  - inversion Hb as [|? ? Ha _]; subst.
    destruct (sextets1 a Ha) as (H1 & H2 & H).
    eexists. split.
    + apply mapM_Some. cbn [btoa_body].
      repeat (constructor; [apply base64_char_facts; assumption|]). constructor.
    + cbn [atob_groups]. rewrite H. reflexivity.
  - inversion Hb as [|? ? Ha Hb']; subst. inversion Hb' as [|? ? Hb2 _]; subst.
    destruct (sextets2 a b Ha Hb2) as (H1 & H2 & H3 & H & H').
    eexists. split.
    + apply mapM_Some. cbn [btoa_body].
      repeat (constructor; [apply base64_char_facts; assumption|]). constructor.
    + cbn [atob_groups]. rewrite H, H'. reflexivity.
  - inversion Hb as [|? ? Ha Hb']; subst. inversion Hb' as [|? ? Hb2 Hb'']; subst.
    inversion Hb'' as [|? ? Hc Hl]; subst.
    destruct (sextets3 a b c Ha Hb2 Hc) as (H1 & H2 & H3 & H4 & H & H' & H'').
    destruct (IH Hl) as (sextets & Hs & Hg). apply mapM_Some in Hs.
    eexists. split.
    + apply mapM_Some. cbn [btoa_body].
      do 4 (constructor; [apply base64_char_facts; assumption|]). exact Hs.
    + cbn [atob_groups]. rewrite H, H', H'', Hg. reflexivity.
Qed.

Lemma charCode_is_byte (c : ascii) : is_byte (charCode c).
Proof. unfold is_byte, charCode. pose proof (N_ascii_bounded c). lia. Qed.

Lemma fromCharCode_charCode (c : ascii) : fromCharCode (charCode c) = c.
Proof. unfold fromCharCode, charCode. rewrite N2Z.id. apply ascii_N_embedding. Qed.

Lemma charCode_fromCharCode (v : Z) : is_byte v -> charCode (fromCharCode v) = v.
Proof.
  unfold is_byte, fromCharCode, charCode. intros H.
  rewrite N_ascii_embedding by lia. lia.
Qed.

(** What [btoa] encodes, [atob] decodes. *)
Lemma atob_btoa (binary : string) : atob (btoa binary) = Some binary.
Proof.
  unfold atob, btoa. rewrite list_ascii_of_string_of_list_ascii.
  set (bytes := map charCode (list_ascii_of_string binary)).
  assert (Forall is_byte bytes) as Hb.
  { subst bytes. apply Forall_forall. intros v Hv. apply list_elem_of_fmap in Hv as (c & -> & _).
    apply charCode_is_byte. }
  rewrite (btoa_groups_no_whitespace bytes Hb), (strip_padding_btoa_groups bytes Hb).
  cbv zeta.
  destruct (Nat.eqb_spec (length (btoa_body bytes) mod 4) 1) as [E|_];
    [exact (False_ind _ (btoa_body_length bytes E))|].
  destruct (btoa_body_decodes bytes Hb) as (sextets & Hs & Hg).
  rewrite Hs. cbn [mbind option_bind]. rewrite Hg. f_equal. subst bytes.
  rewrite map_map, (map_ext _ id) by apply fromCharCode_charCode.
  rewrite map_id. apply string_of_list_ascii_of_string.
Qed.

Lemma Uint8Array_of_buffer_bytes (pcm16 : list Z) : Forall is_byte (Uint8Array_of_buffer pcm16).
Proof.
  unfold Uint8Array_of_buffer. induction pcm16 as [|v l IH]; cbn [flat_map app]; [constructor|].
  constructor; [unfold is_byte; Z.div_mod_to_equations; lia|].
  constructor; [unfold is_byte; Z.div_mod_to_equations; lia|]. exact IH.
Qed.

Lemma Int16Array_of_Uint8Array (pcm16 : list Z) :
  Forall is_int16 pcm16 -> Int16Array_of_buffer (Uint8Array_of_buffer pcm16) = Some pcm16.
Proof.
  unfold Uint8Array_of_buffer. induction pcm16 as [|v l IH]; intros H; [reflexivity|].
  inversion H as [|? ? Hv Hl]; subst. cbn [flat_map app Int16Array_of_buffer].
  rewrite (IH Hl). cbn [fmap option_fmap option_map]. f_equal. f_equal.
  unfold is_int16 in Hv.
  destruct (Z.leb_spec 32768 (v mod 256 + 256 * (v / 256 mod 256)));
    Z.div_mod_to_equations; lia.
Qed.

Lemma list_ind2 {A : Type} (P : list A -> Prop) :
  P [] -> (forall a, P [a]) -> (forall a b l, P l -> P (a :: b :: l)) -> forall l, P l.
Proof.
  intros H0 H1 H2 l.
  assert (P l /\ forall a, P (a :: l)) as [H _].
  { induction l as [|x l (IH0 & IH1)]; [auto|]. split; [apply IH1|]. intros a. apply H2, IH0. }
  exact H.
Qed.

Lemma Int16Array_of_buffer_range (bytes : list Z) (pcm16 : list Z) :
  Forall is_byte bytes -> Int16Array_of_buffer bytes = Some pcm16 ->
  Forall is_int16 pcm16 /\ (length bytes = 2 * length pcm16)%nat.
Proof.
  revert pcm16. induction bytes as [|lo|lo hi l IH] using list_ind2; intros pcm16 Hb H.
  - injection H as <-. split; [constructor | reflexivity].
  - discriminate.
  - inversion Hb as [|? ? Hlo Hb']; subst. inversion Hb' as [|? ? Hhi Hl]; subst.
    cbn [Int16Array_of_buffer] in H.
    destruct (Int16Array_of_buffer l) as [rest|] eqn:E; [|discriminate].
    injection H as <-. destruct (IH rest Hl eq_refl) as [IH1 IH2]. split.
    + constructor; [|exact IH1]. unfold is_byte, is_int16 in *.
      destruct (Z.leb_spec 32768 (lo + 256 * hi)); lia.
    + cbn [length]. lia.
Qed.

Lemma Int16Array_of_buffer_odd (bytes : list Z) :
  Int16Array_of_buffer bytes = None <-> Nat.odd (length bytes) = true.
Proof.
  induction bytes as [|lo|lo hi l IH] using list_ind2.
  - split; discriminate.
  - split; reflexivity.
  - cbn [Int16Array_of_buffer length]. rewrite Nat.odd_succ_succ, <- IH.
    destruct (Int16Array_of_buffer l); split; intros; try discriminate; reflexivity.
Qed.

Lemma string_get_lookup (binary : string) (i : nat) :
  String.get i binary = list_ascii_of_string binary !! i.
Proof.
  revert i. induction binary as [|c binary IH]; intros [|i]; cbn; auto.
Qed.

Lemma string_length_list (binary : string) :
  String.length binary = length (list_ascii_of_string binary).
Proof. induction binary as [|c binary IH]; cbn; auto. Qed.

(** The loop of lines 58-60 reads the character codes of the binary string. *)
Lemma decode_audio_bytes (base64Audio : string) :
  decode_audio base64Audio =
  binary ← atob base64Audio;
  Int16Array_of_buffer (map charCode (list_ascii_of_string binary)).
Proof.
  unfold decode_audio. destruct (atob base64Audio) as [binary|]; [|reflexivity].
  cbn [mbind option_bind]. f_equal.
  unfold for_loop, new_array. rewrite Nat2Z.id. apply list_eq. intros j.
  rewrite (foldl_insert_lookup (fun i => charCodeAt binary i)).
  rewrite length_replicate, list_lookup_fmap, string_length_list.
  unfold charCodeAt. rewrite string_get_lookup.
  destruct (list_ascii_of_string binary !! j) as [c|] eqn:Hj.
  - apply lookup_lt_Some in Hj as Hlt. rewrite bool_decide_eq_true_2 by lia. reflexivity.
  - apply lookup_ge_None in Hj. rewrite bool_decide_eq_false_2 by lia.
    cbn. apply lookup_replicate_None. lia.
Qed.

Lemma decode_audio_btoa (pcm16 : list Z) :
  Forall is_int16 pcm16 ->
  decode_audio (btoa (string_of_list_ascii (map fromCharCode (Uint8Array_of_buffer pcm16))))
  = Some pcm16.
Proof.
  intros H. rewrite decode_audio_bytes, atob_btoa. cbn [mbind option_bind].
  rewrite list_ascii_of_string_of_list_ascii, map_map.
  rewrite (map_ext_Forall _ id), map_id.
  - apply Int16Array_of_Uint8Array. exact H.
  - eapply Forall_impl; [apply Uint8Array_of_buffer_bytes|].
    intros v Hv. apply charCode_fromCharCode. exact Hv.
Qed.

(** X9: the decoding of an audio payload, lines 56-61.  A payload that decodes
    gives 16-bit samples, two bytes each; a payload fails to decode exactly
    when it is not base64 or holds an odd number of bytes. *)
Theorem decode_audio_samples (base64Audio : string) :
  match decode_audio base64Audio with
  | Some pcm16 =>
      Forall is_int16 pcm16
      /\ exists binary, atob base64Audio = Some binary
                        /\ String.length binary = (2 * length pcm16)%nat
  | None =>
      atob base64Audio = None
      \/ exists binary, atob base64Audio = Some binary
                        /\ Nat.odd (String.length binary) = true
  end.
Proof.
  rewrite decode_audio_bytes. destruct (atob base64Audio) as [binary|]; [|left; reflexivity].
  cbn [mbind option_bind].
  assert (Forall is_byte (map charCode (list_ascii_of_string binary))) as Hb.
  { apply Forall_forall. intros v Hv. apply list_elem_of_fmap in Hv as (c & -> & _).
    apply charCode_is_byte. }
  destruct (Int16Array_of_buffer _) as [pcm16|] eqn:E.
  - destruct (Int16Array_of_buffer_range _ _ Hb E) as [H1 H2]. split; [exact H1|].
    exists binary. split; [reflexivity|].
    rewrite length_map in H2. rewrite string_length_list. exact H2.
  - right. exists binary. split; [reflexivity|].
    apply Int16Array_of_buffer_odd in E. rewrite length_map in E.
    rewrite string_length_list. exact E.
Qed.

(** ** Flags and refs of the component *)

Lemma stopAll_refs (s : State) :
  sessionRef (stopAll s) = sessionRef s /\ streamRef (stopAll s) = streamRef s
  /\ audioContextRef (stopAll s) = audioContextRef s
  /\ liveSessions (stopAll s) = liveSessions s
  /\ isPlaying (stopAll s) = isPlaying s.
Proof.
  unfold stopAll. destruct (streamRef s) eqn:E1; simpl;
    destruct (audioContextRef s) eqn:E2; simpl; rewrite ?E1, ?E2; repeat split; reflexivity.
Qed.

Lemma stopAll_flags (s : State) :
  isConnected (stopAll s) = false /\ isListening (stopAll s) = false
  /\ isConnecting (stopAll s) = false.
Proof.
  unfold stopAll. destruct (streamRef s); simpl; destruct (audioContextRef s); simpl;
    repeat split.
Qed.

Lemma stopAll_flags_inv (s : State) : flags_inv s -> flags_inv (stopAll s).
Proof.
  intros [H1 H2 H3].
  destruct (stopAll_refs s) as (E1 & E2 & E3 & E4 & E5).
  destruct (stopAll_flags s) as (F1 & F2 & F3).
  split.
  - rewrite F1, F3. reflexivity.
  - rewrite F2. discriminate.
  - rewrite E5, E3. exact H3.
Qed.

Lemma playNextChunk_playback_only (s : State) : playback_only s (snd (playNextChunk s)).
Proof.
  unfold playNextChunk. destruct (_ || _) eqn:E.
  - split; simpl; try reflexivity. discriminate.
  - apply orb_false_iff in E as [_ E]. apply negb_false_iff, bool_decide_eq_true_1 in E.
    simpl. destruct (audioQueue s); [split; simpl; auto|].
    destruct (_ =? 0); split; simpl; auto.
Qed.

Lemma onmessage_playback_only (message : LiveServerMessage) (s : State) :
  playback_only s (snd (onmessage message s)).
Proof.
  assert (playback_only s s) as Hs by (split; auto).
  unfold onmessage.
  destruct (truthy_string _) as [b|]; [destruct (decode_audio b) as [pcm16|]|]; cbv zeta.
  - assert (playback_only s
              (snd (if negb (isPlaying (set_audioQueue (audioQueue s ++ [pcm16]) s))
                    then playNextChunk (set_audioQueue (audioQueue s ++ [pcm16]) s)
                    else (Normal, set_audioQueue (audioQueue s ++ [pcm16]) s)))) as Ht.
    { destruct (negb _); [|split; auto].
      destruct (playNextChunk_playback_only (set_audioQueue (audioQueue s ++ [pcm16]) s))
        as [? ? ? ? ? ? ? ?]. split; auto. }
    destruct (if negb _ then _ else _) as [c t]. simpl in Ht.
    destruct c; [destruct (truthy_bool _)|]; simpl; [|assumption|assumption].
    destruct Ht. split; simpl; auto. discriminate.
  - assumption.
  - destruct (truthy_bool _); split; simpl; auto. discriminate.
Qed.

Lemma playback_only_flags_inv (s t : State) : playback_only s t -> flags_inv s -> flags_inv t.
Proof.
  intros [E1 E2 E3 E4 E5 E6 E7 E8] [H1 H2 H3]. split.
  - rewrite E1, E2. exact H1.
  - rewrite E3, E5, E6. exact H2.
  - rewrite E6. intros H. destruct (E8 H); auto.
Qed.

Lemma playback_only_refs_kept (s t : State) : playback_only s t -> refs_kept s t.
Proof. intros [E1 E2 E3 E4 E5 E6 E7 E8]. split; congruence. Qed.

Lemma step_flags_inv (e : Event) (s s' : State) :
  flags_inv s -> step e s = Some s' -> flags_inv s'.
Proof.
  intros Hinv H. pose proof Hinv as [H1 H2 H3].
  event_cases e; simpl in H; step_guards H.
  - unfold click, onClick. destruct (isConnecting s) eqn:E1; [assumption|].
    destruct (isConnected s) eqn:E2; [apply stopAll_flags_inv; assumption|].
    unfold connect. split; simpl; auto.
  - unfold render. case_bool_decide; [assumption|]. split; assumption.
  - apply stopAll_flags_inv; assumption.
  - split; assumption.
  - unfold connect_rejected. destruct (_ || _); split; simpl; auto.
  - unfold onopen, startMic. simpl. destruct (mediaDevices s); simpl; split; simpl; auto.
  - eapply playback_only_flags_inv; [apply onmessage_playback_only | assumption].
  - unfold onerror. apply stopAll_flags_inv. split; assumption.
  - unfold onclose. apply stopAll_flags_inv. split; simpl; auto.
    simpl. apply andb_false_r.
  - assert (flags_inv (set_micPending l s)) as Hs by (split; assumption).
    unfold startMic_settled. destruct o.
    + apply stopAll_flags_inv. destruct Hs. split; assumption.
    + apply stopAll_flags_inv. destruct Hs. split; assumption.
    + split; simpl; auto.
  - unfold onaudioprocess. destruct (sessionRef s); [|assumption].
    destruct (negb _); [assumption|]. split; assumption.
  - eapply playback_only_flags_inv; [apply playNextChunk_playback_only|]. split; assumption.
Qed.

Lemma mount_flags_inv (l : Lang) (hasMediaDevices : bool) : flags_inv (mount l hasMediaDevices).
Proof. split; simpl; auto; discriminate. Qed.

(** X11: in every state that the component reaches from its mount, the main
    button is enabled whenever the bridge is connected ([isConnecting] and
    [isConnected] are never set together), a listening bridge has its stream
    and its audio context, and playback is marked only when there is an audio
    context. *)
Theorem reachable_flags (l : Lang) (hasMediaDevices : bool) (events : list Event) (s : State) :
  run events (mount l hasMediaDevices) = Some s ->
  (isConnected s = true -> isConnecting s = false)
  /\ (isListening s = true -> is_Some (streamRef s) /\ is_Some (audioContextRef s))
  /\ (isPlaying s = true -> is_Some (audioContextRef s)).
Proof.
  intros H.
  assert (flags_inv s) as [H1 H2 H3].
  { pose proof (mount_flags_inv l hasMediaDevices) as Hinv. revert H Hinv.
    generalize (mount l hasMediaDevices) as s0. induction events as [|e events IH]; intros s0 H Hinv;
      simpl in H.
    - injection H as <-. assumption.
    - destruct (step e s0) as [s1|] eqn:E; [|discriminate]. simpl in H.
      eapply IH; [exact H|]. eapply step_flags_inv; eassumption. }
  split; [|split; assumption].
  intros Hc. rewrite Hc, andb_true_r in H1. exact H1.
Qed.

(** X11, witness: connect, open, microphone granted. *)
Lemma reachable_flags_witness :
  run connected (mount en true) = Some listening
  /\ isConnecting listening = false
  /\ is_Some (streamRef listening) /\ is_Some (audioContextRef listening).
Proof.
  assert (run connected (mount en true) = Some listening) as H by (vm_compute; reflexivity).
  destruct (reachable_flags en true connected listening H) as (H1 & H2 & _).
  split; [exact H|]. split; [apply H1; reflexivity|]. apply H2. reflexivity.
Defined.

Lemma refs_kept_refl (s : State) : refs_kept s s.
Proof. split; auto. Qed.

Lemma refs_kept_trans (s t u : State) : refs_kept s t -> refs_kept t u -> refs_kept s u.
Proof. intros [? ? ?] [? ? ?]. split; auto. Qed.

Lemma refs_kept_same (s t : State) :
  sessionRef t = sessionRef s -> streamRef t = streamRef s ->
  audioContextRef t = audioContextRef s -> refs_kept s t.
Proof. intros E1 E2 E3. split; congruence. Qed.

Lemma stopAll_refs_kept (s : State) : refs_kept s (stopAll s).
Proof. destruct (stopAll_refs s) as (E1 & E2 & E3 & _). apply refs_kept_same; assumption. Qed.

Lemma step_refs_kept (e : Event) (s s' : State) :
  step e s = Some s' ->
  refs_kept s s'
  /\ (not_close e = true -> liveSessions s `prefix_of` liveSessions s').
Proof.
  intros H.
  event_cases e; simpl in H; step_guards H.
  - unfold click, onClick. destruct (isConnecting s); [split; [apply refs_kept_refl|reflexivity]|].
    destruct (isConnected s).
    + split; [apply stopAll_refs_kept|]. intros _.
      destruct (stopAll_refs s) as (_ & _ & _ & -> & _). reflexivity.
    + split; [apply refs_kept_same; reflexivity | reflexivity].
  - unfold render. case_bool_decide; (split; [apply refs_kept_same; reflexivity | reflexivity]).
  - split; [apply stopAll_refs_kept|]. intros _.
    destruct (stopAll_refs s) as (_ & _ & _ & -> & _). reflexivity.
  - split; [|reflexivity]. split; simpl; auto.
  - unfold connect_rejected.
    destruct (_ || _); (split; [apply refs_kept_same; reflexivity | reflexivity]).
  - unfold onopen, startMic. simpl.
    destruct (mediaDevices s); simpl;
      (split; [apply refs_kept_same; reflexivity | intros _; apply prefix_app_r; reflexivity]).
  - destruct (onmessage_playback_only message s) as [? ? ? ? ? ? E ?].
    split; [apply refs_kept_same; assumption | rewrite E; reflexivity].
  - unfold onerror. split.
    + eapply refs_kept_trans; [|apply stopAll_refs_kept]. apply refs_kept_same; reflexivity.
    + intros _. destruct (stopAll_refs (setError (Some "Connection error. Please try again.") s))
        as (_ & _ & _ & -> & _). reflexivity.
  - unfold onclose. split; [|discriminate].
    eapply refs_kept_trans; [|apply stopAll_refs_kept]. apply refs_kept_same; reflexivity.
  - unfold startMic_settled. destruct o.
    + split.
      * eapply refs_kept_trans; [|apply stopAll_refs_kept]. apply refs_kept_same; reflexivity.
      * intros _. match goal with |- _ `prefix_of` liveSessions (stopAll ?t) =>
          destruct (stopAll_refs t) as (_ & _ & _ & -> & _) end. reflexivity.
    + split.
      * eapply refs_kept_trans; [|apply stopAll_refs_kept]. apply refs_kept_same; reflexivity.
      * intros _. match goal with |- _ `prefix_of` liveSessions (stopAll ?t) =>
          destruct (stopAll_refs t) as (_ & _ & _ & -> & _) end. reflexivity.
    + split; [|reflexivity]. split; simpl; auto.
  - unfold onaudioprocess. destruct (sessionRef s) eqn:E.
    + destruct (negb _); (split; [apply refs_kept_same; simpl; auto | reflexivity]).
    + split; [apply refs_kept_refl | reflexivity].
  - destruct (playNextChunk_playback_only (set_active (delete i (active s)) s))
      as [? ? ? ? ? ? E ?].
    split; [apply refs_kept_same; assumption | rewrite E; reflexivity].
Qed.

(** X12: nothing the component does clears a ref or closes a session.  Over
    any sequence of events a ref that holds a value still holds one
    ([stopAll] leaves [sessionRef], [streamRef] and [audioContextRef] as they
    are), and unless the service itself closes a session the open sessions
    only grow. *)
Theorem refs_never_cleared (events : list Event) (s s' : State) :
  run events s = Some s' ->
  (is_Some (sessionRef s) -> is_Some (sessionRef s'))
  /\ (is_Some (streamRef s) -> is_Some (streamRef s'))
  /\ (is_Some (audioContextRef s) -> is_Some (audioContextRef s'))
  /\ (forallb not_close events = true -> liveSessions s `prefix_of` liveSessions s').
Proof.
  intros H.
  assert (refs_kept s s'
          /\ (forallb not_close events = true -> liveSessions s `prefix_of` liveSessions s'))
    as [[H1 H2 H3] H4].
  { revert s H. induction events as [|e events IH]; intros s H; simpl in H.
    - injection H as <-. split; [apply refs_kept_refl | reflexivity].
    - destruct (step e s) as [s1|] eqn:E; [|discriminate]. simpl in H.
      destruct (step_refs_kept e s s1 E) as [K1 K2]. destruct (IH s1 H) as [K3 K4]. split.
      + eapply refs_kept_trans; eassumption.
      + simpl. intros He. apply andb_true_iff in He as [He1 He2].
        etrans; [apply K2, He1 | apply K4, He2]. }
  auto.
Qed.

(** X12, witness: a stop and an unmount of the listening bridge. *)
Lemma refs_never_cleared_witness :
  exists s, run [Click; Unmount] listening = Some s
    /\ is_Some (sessionRef s) /\ is_Some (audioContextRef s)
    /\ liveSessions listening `prefix_of` liveSessions s.
Proof.
  eexists. split; [vm_compute; reflexivity|].
  destruct (refs_never_cleared [Click; Unmount] listening _ eq_refl) as (H1 & _ & H3 & H4).
  split; [apply H1; eexists; reflexivity|]. split; [apply H3; eexists; reflexivity|].
  apply H4. reflexivity.
Defined.

Lemma to_pcm16_is_int16 (resampledData : list Q) : Forall is_int16 (to_pcm16 resampledData).
Proof.
  rewrite to_pcm16_map. apply Forall_forall. intros v Hv.
  apply list_elem_of_fmap in Hv as (x & -> & _).
  destruct (quantize_trunc x) as [_ H]. unfold is_int16. lia.
Qed.

(** X8: what the capture path encodes (lines 153-154) the playback path
    decodes (lines 56-61): 16-bit samples survive the bytes and base64, and
    so does every quantised frame. *)
Theorem decode_audio_encoded (pcm16 : list Z) (frame : list Q) :
  (Forall is_int16 pcm16 ->
   decode_audio (btoa (string_of_list_ascii (map fromCharCode (Uint8Array_of_buffer pcm16))))
   = Some pcm16)
  /\ decode_audio (btoa (string_of_list_ascii
                           (map fromCharCode (Uint8Array_of_buffer (to_pcm16 frame)))))
     = Some (to_pcm16 frame).
Proof.
  split; [apply decode_audio_btoa|]. apply decode_audio_btoa, to_pcm16_is_int16.
Qed.

(** X8, witness: five samples, the extremes among them. *)
Lemma decode_audio_encoded_witness :
  decode_audio (btoa (string_of_list_ascii
                        (map fromCharCode (Uint8Array_of_buffer [0; 1; -1; 32767; -32768]))))
  = Some [0; 1; -1; 32767; -32768].
Proof.
  apply (decode_audio_encoded [0; 1; -1; 32767; -32768] []).
  repeat constructor; unfold is_int16; lia.
Defined.



Lemma stopAll_released (s : State) :
  stoppedStreams (stopAll s) = stoppedStreams s ++ option_list (streamRef s)
  /\ closedContexts (stopAll s) = closedContexts s ++ option_list (audioContextRef s).
Proof.
  unfold stopAll. destruct (streamRef s); simpl; destruct (audioContextRef s); simpl;
    rewrite ?app_nil_r; split; reflexivity.
Qed.

(** X13: a microphone grant that arrives after the bridge was stopped is
    taken all the same.  From a connected bridge that still awaits the
    microphone, a click on the button followed by the grant leaves the bridge
    listening, with the new stream and context in its refs, while it shows
    itself disconnected; the new stream is not stopped and the new context
    not closed. *)
Theorem microphone_granted_after_stop (s : State) (r : Render) (rest : list Render)
    (stream : MediaStream) (audioContext : AudioContext) :
  isConnected s = true -> isConnecting s = false -> micPending s = r :: rest ->
  exists s',
    run [Click; MicSettled r (MicGranted stream audioContext)] s = Some s'
    /\ isConnected s' = false /\ isListening s' = true
    /\ streamRef s' = Some stream /\ audioContextRef s' = Some audioContext
    /\ stoppedStreams s' = stoppedStreams s ++ option_list (streamRef s)
    /\ closedContexts s' = closedContexts s ++ option_list (audioContextRef s).
Proof.
  intros Hc Hg Hm.
  assert (micPending (stopAll s) = r :: rest) as Hm'.
  { destruct (stopAll_closures s) as (_ & _ & -> & _). exact Hm. }
  destruct (stopAll_flags s) as (F1 & F2 & F3). destruct (stopAll_released s) as (F4 & F5).
  eexists. split.
  - cbn [run step]. unfold click, onClick. rewrite Hg, Hc. cbn [mbind option_bind].
    rewrite Hm'. rewrite bool_decide_eq_true_2 by reflexivity. reflexivity.
  - unfold startMic_settled. cbn. repeat split; assumption.
Qed.

(** X13, witness: connect, open, stop, and then the grant. *)
Lemma microphone_granted_after_stop_witness :
  exists s,
    run [Click; MicSettled first_render (MicGranted stream0 context48k)] opened = Some s
    /\ isConnected s = false /\ isListening s = true /\ stoppedStreams s = [].
Proof.
  destruct (microphone_granted_after_stop opened first_render [] stream0 context48k
              eq_refl eq_refl eq_refl) as (s & H1 & H2 & H3 & _ & _ & H4 & _).
  exists s. split; [exact H1|]. split; [exact H2|]. split; [exact H3 | exact H4].
Defined.

(** X14: without a change of language the captured audio goes nowhere.  In
    every state reached from the mount by events other than a change of
    language, nothing has been sent, every processor holds the [isConnected]
    of the first render, and a capture frame leaves the component exactly as
    it was. *)
Theorem capture_unsent_without_language_change (l : Lang) (hasMediaDevices : bool)
    (events : list Event) (s : State) (p : Processor) (inputData : list Q) (s' : State) :
  forallb no_language_change events = true ->
  run events (mount l hasMediaDevices) = Some s ->
  step (AudioProcess p inputData) s = Some s' ->
  sent s = [] /\ processor_isConnected p = false /\ s' = s.
Proof.
  intros He H Hp.
  assert (first_render_closures s) as [_ _ _ Hprocs Hsent].
  { eapply run_first_render; [|eassumption|eassumption]. split; simpl; auto. }
  cbn [step] in Hp. case_bool_decide as Hin; [|discriminate]. injection Hp as <-.
  rewrite Forall_forall in Hprocs. specialize (Hprocs p Hin).
  split; [exact Hsent|]. split; [exact Hprocs|].
  unfold onaudioprocess. rewrite Hprocs. destruct (sessionRef s); reflexivity.
Qed.

(** X14, witness: a frame for the processor of the listening bridge. *)
Lemma capture_unsent_without_language_change_witness :
  exists s, step (AudioProcess {| processor_context := context48k;
                                  processor_isConnected := false |} [1 # 2; -1]%Q) listening
            = Some s
    /\ sent listening = [] /\ s = listening.
Proof.
  eexists. split; [vm_compute; reflexivity|].
  destruct (capture_unsent_without_language_change en true connected listening
              {| processor_context := context48k; processor_isConnected := false |}
              [1 # 2; -1]%Q _ eq_refl eq_refl eq_refl) as (H1 & _ & H2).
  split; [exact H1 | exact H2].
Defined.

(** X15: an interruption silences nothing.  With an audio context, a message
    with the interruption flag and no audio leaves the sounding sources as
    they are, empties the queue and clears the flag; the chunk that arrives
    next then starts at once, beside the sources that still sound. *)
Theorem interruption_overlap (s : State) (base64Audio : string) (pcm16 : list Z)
    (message : LiveServerMessage) :
  is_Some (audioContextRef s) ->
  inlineData message = None -> interrupted message = Some true ->
  decode_audio base64Audio = Some pcm16 -> pcm16 <> [] ->
  let s1 := snd (onmessage message s) in
  let s2 := snd (onmessage (audio base64Audio) s1) in
  active s1 = active s /\ audioQueue s1 = [] /\ isPlaying s1 = false
  /\ active s2 = active s ++ [to_float32 pcm16]
  /\ started s2 = started s ++ [to_float32 pcm16]
  /\ isPlaying s2 = true.
Proof.
  intros Hc Hi Hint Hd Hne. cbv zeta.
  assert (base64Audio <> EmptyString) as Hb.
  { intros ->. vm_compute in Hd. injection Hd as <-. contradiction. }
  assert (onmessage message s = (Normal, set_isPlaying false (set_audioQueue [] s))) as ->.
  { unfold onmessage. rewrite Hi, Hint. reflexivity. }
  cbn [snd]. split; [reflexivity|]. split; [reflexivity|]. split; [reflexivity|].
  unfold onmessage, audio. cbn [inlineData interrupted truthy_bool default].
  destruct base64Audio as [|c b]; [contradiction|]. cbn [truthy_string]. rewrite Hd.
  cbv zeta. cbn [isPlaying set_audioQueue set_isPlaying negb audioQueue app].
  unfold playNextChunk. cbn [audioQueue set_audioQueue set_isPlaying audioContextRef].
  change (array_length [pcm16] =? 0) with false.
  rewrite (bool_decide_eq_true_2 _ Hc). cbn [negb orb].
  assert ((array_length (to_float32 pcm16) =? 0) = false) as ->.
  { rewrite to_float32_map. unfold array_length. rewrite length_map.
    destruct pcm16; [contradiction | reflexivity]. }
  cbn. repeat split; reflexivity.
Qed.

(** X15, witness: an interruption and a chunk while [[1; 2]] sounds. *)
Lemma interruption_overlap_witness :
  active sounding = [to_float32 [1; 2]]
  /\ active (snd (onmessage (audio "AwA=") (snd (onmessage interruption sounding))))
     = [to_float32 [1; 2]; to_float32 [3]].
Proof.
  split; [reflexivity|].
  destruct (interruption_overlap sounding "AwA=" [3] interruption)
    as (_ & _ & _ & H & _); [eexists; reflexivity | reflexivity | reflexivity | reflexivity
                            | discriminate |].
  exact H.
Defined.

Lemma stalled_same (s t : State) :
  stalled s -> isPlaying t = isPlaying s -> active t = active s -> stalled t.
Proof. intros [H1 H2] E1 E2. split; congruence. Qed.

Lemma onmessage_stalled (message : LiveServerMessage) (s : State) :
  stalled s -> truthy_bool (interrupted message) = false ->
  onmessage message s
  = (match truthy_string (inlineData message) with
     | Some base64Audio =>
         match decode_audio base64Audio with Some _ => Normal | None => Thrown end
     | None => Normal
     end,
     set_audioQueue (audioQueue s ++ payload message) s).
Proof.
  intros [Hp Ha] Hi. unfold onmessage, payload. rewrite Hi.
  destruct (truthy_string (inlineData message)) as [base64Audio|].
  - destruct (decode_audio base64Audio) as [pcm16|]; cbv zeta.
    + cbn [isPlaying set_audioQueue]. rewrite Hp. reflexivity.
    + cbn [option_list]. rewrite app_nil_r. destruct s; reflexivity.
  - cbn [option_list]. rewrite app_nil_r. destruct s; reflexivity.
Qed.

Lemma step_stalled (e : Event) (s s' : State) :
  stalled s -> not_interrupting e = true -> step e s = Some s' ->
  stalled s' /\ started s' = started s
  /\ audioQueue s' = audioQueue s ++ delivered_event e.
Proof.
  intros Hinv He H. pose proof Hinv as [Hp Ha].
  assert (forall t : State, isPlaying t = isPlaying s -> active t = active s ->
            started t = started s -> audioQueue t = audioQueue s ->
            stalled t /\ started t = started s /\ audioQueue t = audioQueue s ++ []) as Hsame.
  { intros t E1 E2 E3 E4. rewrite app_nil_r. split; [|split; assumption].
    eapply stalled_same; eassumption. }
  event_cases e; simpl in H; step_guards H; cbn [delivered_event].
  - apply Hsame; unfold click, onClick, connect;
      destruct (isConnecting s), (isConnected s); playback_untouched.
  - apply Hsame; unfold render; case_bool_decide; playback_untouched.
  - apply Hsame; playback_untouched.
  - apply Hsame; playback_untouched.
  - apply Hsame; unfold connect_rejected; destruct (_ || _); playback_untouched.
  - apply Hsame; unfold onopen, startMic; simpl; destruct (mediaDevices s); playback_untouched.
  - cbn [not_interrupting] in He. apply negb_true_iff in He.
    rewrite (onmessage_stalled message s Hinv He). cbn [snd].
    split; [split; assumption|]. split; reflexivity.
  - apply Hsame; unfold onerror; playback_untouched.
  - apply Hsame; unfold onclose; playback_untouched.
  - apply Hsame; unfold startMic_settled; destruct o; playback_untouched.
  - apply Hsame; unfold onaudioprocess; destruct (sessionRef s);
      try destruct (negb _); playback_untouched.
  - rewrite Ha, lookup_nil in *. discriminate.
Qed.

Lemma run_stalled (events : list Event) (s s' : State) :
  stalled s -> forallb not_interrupting events = true -> run events s = Some s' ->
  stalled s' /\ started s' = started s
  /\ audioQueue s' = audioQueue s ++ delivered events.
Proof.
  revert s. induction events as [|e events IH]; intros s Hinv He H; simpl in H.
  - injection H as <-. unfold delivered. cbn. rewrite app_nil_r. auto.
  - destruct (step e s) as [s1|] eqn:E; [|discriminate]. simpl in H.
    simpl in He. apply andb_true_iff in He as [He1 He2].
    destruct (step_stalled e s s1 Hinv He1 E) as (K1 & K2 & K3).
    destruct (IH s1 K1 He2 H) as (K4 & K5 & K6).
    split; [exact K4|]. split; [congruence|].
    rewrite K6, K3. unfold delivered. cbn [flat_map]. rewrite app_assoc. reflexivity.
Qed.

(** X22: an audio payload without samples stalls playback.  When the bridge
    is idle with an audio context and a payload arrives that decodes to no
    sample (base64 of nothing but white space), [playNextChunk] has marked
    playback and taken the chunk off the queue by the time [createBuffer]
    raises; no source was started, so no completion callback is left.  Over
    any later events without an interruption nothing is ever started: the
    chunks that arrive pile up in the queue. *)
Theorem empty_chunk_stalls_playback (s : State) (base64Audio : string) (events : list Event)
    (s' : State) :
  is_Some (audioContextRef s) -> isPlaying s = false -> active s = [] -> audioQueue s = [] ->
  base64Audio <> EmptyString -> decode_audio base64Audio = Some [] ->
  forallb not_interrupting events = true ->
  run events (snd (onmessage (audio base64Audio) s)) = Some s' ->
  fst (onmessage (audio base64Audio) s) = Thrown
  /\ isPlaying s' = true /\ active s' = [] /\ started s' = started s
  /\ audioQueue s' = delivered events.
Proof.
  intros Hc Hp Ha Hq Hb Hd He H.
  assert (onmessage (audio base64Audio) s = (Thrown, set_audioQueue [] (set_isPlaying true s)))
    as Hm.
  { unfold onmessage, audio. cbn [inlineData interrupted].
    destruct base64Audio as [|c b]; [contradiction|]. cbn [truthy_string]. rewrite Hd.
    cbv zeta. cbn [isPlaying set_audioQueue]. rewrite Hp, Hq. cbn [negb app].
    unfold playNextChunk. cbn [audioQueue audioContextRef set_audioQueue].
    change (array_length [[]] =? 0) with false.
    rewrite (bool_decide_eq_true_2 _ Hc). cbn. reflexivity. }
  rewrite Hm in *. cbn [fst snd] in *. split; [reflexivity|].
  assert (stalled (set_audioQueue [] (set_isPlaying true s))) as Hs
    by (split; [reflexivity | exact Ha]).
  destruct (run_stalled events _ s' Hs He H) as ([K1 K2] & K3 & K4).
  split; [exact K1|]. split; [exact K2|]. split; [exact K3 | exact K4].
Qed.

(** X22, witness: a payload of one space, then two chunks. *)
Lemma empty_chunk_stalls_playback_witness :
  exists s,
    run [OnMessage session0 (audio "AQACAA=="); OnMessage session0 (audio "AwA=")]
      (snd (onmessage (audio " ") listening)) = Some s
    /\ fst (onmessage (audio " ") listening) = Thrown
    /\ started s = [] /\ audioQueue s = [[1; 2]; [3]].
Proof.
  eexists. split; [vm_compute; reflexivity|].
  destruct (empty_chunk_stalls_playback listening " "
              [OnMessage session0 (audio "AQACAA=="); OnMessage session0 (audio "AwA=")] _
              ltac:(eexists; reflexivity) eq_refl eq_refl eq_refl ltac:(discriminate)
              eq_refl eq_refl eq_refl) as (H1 & _ & _ & H2 & H3).
  split; [exact H1|]. split; [exact H2 | exact H3].
Defined.

(** ** The analysis and speech service *)

Example split_vectors :
  split "," "" = [""] /\ split "," "a,b" = ["a"; "b"] /\ split "," "a," = ["a"; ""]
  /\ split "," ",a,,b" = [""; "a"; ""; "b"] /\ split "," "abc" = ["abc"].
Proof. repeat split. Qed.

Example addWavHeader_vectors :
  addWavHeader "" 24000 = Some "data:audio/wav;base64,UklGRiQAAABXQVZFZm10IBAAAAABAAEAwF0AAIC7AAACABAAZGF0YQAAAAA="
  /\ addWavHeader "A" 24000 = None.
Proof. split; vm_compute; reflexivity. Qed.

Lemma doubling_delays (delay : Z) (n : nat) :
  map (fun k => delay * 2 ^ Z.of_nat k) (seq 0 (S n))
  = delay :: map (fun k => delay * 2 * 2 ^ Z.of_nat k) (seq 0 n).
Proof.
  cbn [seq map]. f_equal; [lia|].
  rewrite <- fmap_S_seq, <- list_fmap_compose. apply map_ext. intros k. cbn [compose].
  rewrite Nat2Z.inj_succ, Z.pow_succ_r by lia. lia.
Qed.

Lemma withRetry_delays {T : Type} (fn : nat -> Outcome T) (retries : nat) (delay : Z)
    (made : nat) :
  let waited := snd (withRetry fn retries delay made) in
  (length waited <= retries)%nat
  /\ waited = map (fun k => delay * 2 ^ Z.of_nat k) (seq 0 (length waited))
  /\ (0 <= delay -> foldr Z.add 0 waited <= delay * (2 ^ Z.of_nat retries - 1)).
Proof.
  revert delay made. induction retries as [|retries IH]; intros delay made; cbn [withRetry].
  - destruct (fn made) as [v|err]; cbn; repeat split; lia.
  - destruct (fn made) as [v|err].
    { cbn [snd length seq map foldr]. repeat split; [lia|]. intros Hd.
      assert (1 <= 2 ^ Z.of_nat (S retries)) by (apply Z.pow_le_mono_r with (b := 0); lia).
      nia. }
    destruct (is_quota_error err).
    + specialize (IH (delay * 2) (S made)).
      destruct (withRetry fn retries (delay * 2) (S made)) as [result waited].
      cbn [snd] in *. destruct IH as (H1 & H2 & H3). cbn [length]. repeat split.
      * lia.
      * rewrite doubling_delays. f_equal. exact H2.
      * intros Hd. cbn [foldr]. specialize (H3 ltac:(lia)).
        rewrite Nat2Z.inj_succ, Z.pow_succ_r by lia. lia.
    + cbn [snd length seq map foldr]. repeat split; [lia|]. intros Hd.
      assert (1 <= 2 ^ Z.of_nat (S retries)) by (apply Z.pow_le_mono_r with (b := 0); lia).
      nia.
Qed.

Lemma withRetry_outcome {T : Type} (fn : nat -> Outcome T) (retries : nat) (delay : Z)
    (made : nat) :
  let result := fst (withRetry fn retries delay made) in
  let calls := length (snd (withRetry fn retries delay made)) in
  result = fn (made + calls)%nat
  /\ (forall k, (k < calls)%nat ->
        exists err, fn (made + k)%nat = Rejected err /\ is_quota_error err = true)
  /\ match result with
     | Resolved _ => True
     | Rejected err => is_quota_error err = false \/ calls = retries
     end.
Proof.
  revert delay made. induction retries as [|retries IH]; intros delay made; cbn [withRetry].
  - destruct (fn made) as [v|err] eqn:E; cbn [fst snd length]; rewrite Nat.add_0_r, E;
      repeat split; auto; intros k Hk; lia.
  - destruct (fn made) as [v|err] eqn:E.
    { cbn [fst snd length]. rewrite Nat.add_0_r, E. repeat split; auto. intros k Hk; lia. }
    destruct (is_quota_error err) eqn:Q.
    + specialize (IH (delay * 2) (S made)).
      destruct (withRetry fn retries (delay * 2) (S made)) as [result waited].
      cbn [fst snd length] in *. destruct IH as (H1 & H2 & H3). repeat split.
      * rewrite H1. f_equal. lia.
      * intros [|k] Hk.
        -- rewrite Nat.add_0_r. exists err. split; assumption.
        -- destruct (H2 k ltac:(lia)) as (err' & H4 & H5). exists err'.
           replace (made + S k)%nat with (S made + k)%nat by lia. split; assumption.
      * destruct result; [trivial|]. destruct H3; [left; assumption | right; lia].
    + cbn [fst snd length]. rewrite Nat.add_0_r, E. repeat split; auto. intros k Hk; lia.
Qed.

(** X16: the waits of [withRetry].  There are at most [retries] of them, each
    twice the one before, starting with [delay]; for a delay that is not
    negative they add up to at most [delay * (2 ^ retries - 1)]. *)
Theorem withRetry_waits {T : Type} (fn : nat -> Outcome T) (retries : nat) (delay : Z)
    (made : nat) :
  let waited := snd (withRetry fn retries delay made) in
  (length waited <= retries)%nat
  /\ waited = map (fun k => delay * 2 ^ Z.of_nat k) (seq 0 (length waited))
  /\ (0 <= delay -> foldr Z.add 0 waited <= delay * (2 ^ Z.of_nat retries - 1)).
Proof. exact (withRetry_delays fn retries delay made). Qed.

(** X16, witness: two rejections for lack of quota, then an answer. *)
Lemma withRetry_waits_witness :
  snd (withRetry answers_third 2 2000 0) = [2000; 4000]
  /\ foldr Z.add 0 (snd (withRetry answers_third 2 2000 0)) <= 2000 * (2 ^ 2 - 1).
Proof.
  destruct (withRetry_waits answers_third 2 2000 0) as (_ & H2 & H3).
  split; [exact H2 | apply H3; lia].
Defined.

(** X17: the result of [withRetry] is the outcome of the last call of [fn];
    every call before it was rejected for lack of quota; and a rejection is
    handed on only when it is of another kind or the retries are used up. *)
Theorem withRetry_result {T : Type} (fn : nat -> Outcome T) (retries : nat) (delay : Z)
    (made : nat) :
  let result := fst (withRetry fn retries delay made) in
  let calls := length (snd (withRetry fn retries delay made)) in
  result = fn (made + calls)%nat
  /\ (forall k, (k < calls)%nat ->
        exists err, fn (made + k)%nat = Rejected err /\ is_quota_error err = true)
  /\ match result with
     | Resolved _ => True
     | Rejected err => is_quota_error err = false \/ calls = retries
     end.
Proof. exact (withRetry_outcome fn retries delay made). Qed.

(** X17, witness: two rejections for lack of quota, then an answer. *)
Lemma withRetry_result_witness :
  fst (withRetry answers_third 2 2000 0) = Resolved (Some "AQACAA==")
  /\ exists err, answers_third 1 = Rejected err /\ is_quota_error err = true.
Proof.
  destruct (withRetry_result answers_third 2 2000 0) as (H1 & H2 & _).
  split; [exact H1 | exact (H2 1%nat ltac:(vm_compute; lia))].
Defined.

Lemma split_pieces_no_sep (sep : ascii) (s : string) :
  String.index 0 (String sep EmptyString) s = None -> split_pieces sep s = (s, []).
Proof.
  induction s as [|c s IH]; intros H; [reflexivity|].
  cbn [split_pieces]. cbn in H.
  destruct (Ascii.eqb_spec c sep) as [->|Hne].
  - destruct (ascii_dec sep sep); [|contradiction].
    destruct s; cbn in H; discriminate.
  - destruct (ascii_dec sep c) as [<-|_]; [contradiction|].
    destruct (String.index 0 (String sep EmptyString) s) eqn:E; [discriminate|].
    rewrite (IH eq_refl). reflexivity.
Qed.

Lemma split_pieces_app (sep : ascii) (header rest : string) :
  String.index 0 (String sep EmptyString) header = None ->
  split_pieces sep (header +:+ String sep rest) = (header, split sep rest).
Proof.
  induction header as [|c header IH]; intros H.
  - change (EmptyString +:+ String sep rest) with (String sep rest).
    cbn [split_pieces]. rewrite Ascii.eqb_refl. unfold split.
    destruct (split_pieces sep rest) as [p ps]. reflexivity.
  - change (String c header +:+ String sep rest) with (String c (header +:+ String sep rest)).
    cbn [split_pieces]. cbn in H.
    destruct (Ascii.eqb_spec c sep) as [->|Hne].
    + destruct (ascii_dec sep sep); [|contradiction].
      destruct header; cbn in H; discriminate.
    + destruct (ascii_dec sep c) as [<-|_]; [contradiction|].
      destruct (String.index 0 (String sep EmptyString) header) eqn:E; [discriminate|].
      rewrite (IH eq_refl). reflexivity.
Qed.

Lemma includes_false (s sub : string) :
  includes s sub = false -> String.index 0 sub s = None.
Proof.
  unfold includes. intros H. apply bool_decide_eq_false_1 in H.
  destruct (String.index 0 sub s); [|reflexivity]. exfalso. apply H. eexists. reflexivity.
Qed.

(** X18: the image handed to the model, line 118.  Of a data URL, what
    follows the comma is sent; a string without a comma is sent as it is, and
    so is a data URL with nothing after the comma. *)
Theorem image_data_of_data_url (header payload : string) :
  includes header "," = false -> includes payload "," = false ->
  image_data (header +:+ "," +:+ payload)
  = (if bool_decide (payload = "") then header +:+ "," else payload)
  /\ image_data payload = payload.
Proof.
  intros Hh Hp. apply includes_false in Hh, Hp. split.
  - unfold image_data, split.
    change ("," +:+ payload) with (String "," payload).
    rewrite (split_pieces_app "," header payload Hh).
    unfold split. rewrite (split_pieces_no_sep "," payload Hp). cbn [lookup list_lookup].
    destruct payload; reflexivity.
  - unfold image_data, split. rewrite (split_pieces_no_sep "," payload Hp). reflexivity.
Qed.

(** X18, witness: a PNG data URL. *)
Lemma image_data_of_data_url_witness :
  image_data "data:image/png;base64,iVBORw0KGgo=" = "iVBORw0KGgo="
  /\ image_data "iVBORw0KGgo=" = "iVBORw0KGgo=".
Proof.
  exact (image_data_of_data_url "data:image/png;base64" "iVBORw0KGgo=" eq_refl eq_refl).
Defined.

Lemma append_assoc (s1 s2 s3 : string) : (s1 +:+ s2) +:+ s3 = s1 +:+ (s2 +:+ s3).
Proof.
  induction s1 as [|c s1 IH]; [reflexivity|].
  change (String c ((s1 +:+ s2) +:+ s3) = String c (s1 +:+ (s2 +:+ s3))). f_equal. exact IH.
Qed.

Lemma string_of_list_ascii_app (l1 l2 : list ascii) :
  string_of_list_ascii (l1 ++ l2) = string_of_list_ascii l1 +:+ string_of_list_ascii l2.
Proof.
  induction l1 as [|c l1 IH]; [reflexivity|].
  change (String c (string_of_list_ascii (l1 ++ l2))
          = String c (string_of_list_ascii l1 +:+ string_of_list_ascii l2)).
  f_equal. exact IH.
Qed.

(** The loop of lines 208-211 builds the binary string of the bytes. *)
Lemma binary_loop (wavData : list Z) :
  for_loop (length wavData) (fun i binary =>
    binary +:+ String (fromCharCode (get 0 wavData (Z.of_nat i))) EmptyString) EmptyString
  = string_of_bytes wavData.
Proof.
  unfold for_loop, string_of_bytes.
  assert (forall k s acc, (s + k <= length wavData)%nat ->
            foldl (fun acc i => acc +:+ String (fromCharCode (get 0 wavData (Z.of_nat i))) EmptyString)
              acc (seq s k)
            = acc +:+ string_of_list_ascii (map fromCharCode (take k (drop s wavData)))) as H.
  { induction k as [|k IH]; intros s acc Hk.
    - change (acc = acc +:+ EmptyString). clear.
      induction acc as [|c acc IH]; [reflexivity|].
      change (String c acc = String c (acc +:+ EmptyString)). f_equal. exact IH.
    - cbn [seq foldl]. rewrite IH by lia.
      destruct (lookup_lt_is_Some_2 wavData s ltac:(lia)) as [x Hx].
      rewrite (drop_S _ _ _ Hx), (get_lookup 0 wavData s x Hx), append_assoc. reflexivity. }
  rewrite (H (length wavData) 0%nat EmptyString) by lia.
  rewrite drop_0, firstn_all. reflexivity.
Qed.

Lemma ToUint32_inject_Z (x : Q) (v : Z) : (x == inject_Z v)%Q -> ToUint32 x = v mod 4294967296.
Proof. intros H. unfold ToUint32. rewrite (trunc_comp _ _ H), trunc_inject_Z. reflexivity. Qed.

Lemma ToUint16_inject_Z (x : Q) (v : Z) : (x == inject_Z v)%Q -> ToUint16 x = v mod 65536.
Proof. intros H. unfold ToUint16. rewrite (trunc_comp _ _ H), trunc_inject_Z. reflexivity. Qed.

Lemma mod_mul_div (v a b : Z) : 0 < a -> 0 < b -> (v mod (a * b)) / a = (v / a) mod b.
Proof.
  intros Ha Hb. rewrite Z.rem_mul_r by lia. rewrite (Z.mul_comm a), Z.div_add by lia.
  rewrite Z.div_small; [lia|]. apply Z.mod_pos_bound; lia.
Qed.

Lemma mod_mul_mod (v a b : Z) : 0 < a -> 0 < b -> (v mod (a * b)) mod a = v mod a.
Proof. intros Ha Hb. apply Z.mod_mod_divide. exists b. lia. Qed.

Lemma le32_bytes (v : Z) :
  let u := v mod 4294967296 in
  [u mod 256; u / 256 mod 256; u / 65536 mod 256; u / 16777216] = le32 v.
Proof.
  cbv zeta. unfold le32. f_equal; [|f_equal; [|f_equal; [|f_equal]]].
  - exact (mod_mul_mod v 256 16777216 ltac:(lia) ltac:(lia)).
  - change 4294967296 with (256 * (256 * 65536)).
    rewrite mod_mul_div by lia. apply mod_mul_mod; lia.
  - change 4294967296 with (65536 * (256 * 256)).
    rewrite mod_mul_div by lia. apply mod_mul_mod; lia.
  - exact (mod_mul_div v 16777216 256 ltac:(lia) ltac:(lia)).
Qed.

Lemma le16_bytes (v : Z) :
  let u := v mod 65536 in [u mod 256; u / 256] = le16 v.
Proof.
  cbv zeta. unfold le16. f_equal; [|f_equal].
  - exact (mod_mul_mod v 256 256 ltac:(lia) ltac:(lia)).
  - exact (mod_mul_div v 256 256 ltac:(lia) ltac:(lia)).
Qed.

Lemma setUint32_le (byteOffset : nat) (value : Q) (v : Z) (view : list Z) :
  (value == inject_Z v)%Q ->
  setUint32 byteOffset value true view
  = <[(byteOffset + 3)%nat := v / 16777216 mod 256]> (<[(byteOffset + 2)%nat := v / 65536 mod 256]>
      (<[(byteOffset + 1)%nat := v / 256 mod 256]> (<[byteOffset := v mod 256]> view))).
Proof.
  intros H. unfold setUint32. cbv zeta. rewrite (ToUint32_inject_Z value v H).
  pose proof (le32_bytes v) as Hb. cbv zeta in Hb. unfold le32 in Hb.
  injection Hb as -> -> -> ->. reflexivity.
Qed.

Lemma addWavHeader_canonical (pcmBase64 binary : string) (sampleRate : Z) :
  atob pcmBase64 = Some binary ->
  addWavHeader pcmBase64 (inject_Z sampleRate)
  = Some ("data:audio/wav;base64," +:+
          btoa (string_of_bytes (wav_header sampleRate (Z.of_nat (String.length binary))
                                 ++ bytes_of_string binary)))
  /\ length (wav_header sampleRate (Z.of_nat (String.length binary))) = 44%nat.
Proof.
  intros H. split; [|reflexivity].
  unfold addWavHeader. rewrite H. cbn [mbind option_bind]. cbv zeta.
  rewrite binary_loop. do 4 f_equal. fold (bytes_of_string binary).
  assert (array_length (bytes_of_string binary) = Z.of_nat (String.length binary)) as ->.
  { unfold array_length, bytes_of_string. rewrite length_map, string_length_list. reflexivity. }
  set (n := Z.of_nat (String.length binary)).
  rewrite (setUint32_le 40 (inject_Z n) n) by reflexivity.
  rewrite (setUint32_le 28 _ (sampleRate * 2)) by (rewrite inject_Z_mult; field).
  rewrite (setUint32_le 24 (inject_Z sampleRate) sampleRate) by reflexivity.
  rewrite (setUint32_le 4 _ (36 + n)) by (rewrite inject_Z_plus; reflexivity).
  reflexivity.
Qed.

(** X19: the file that [addWavHeader] returns.  For a payload that is valid
    base64 and an integer sample rate, the result is the data URL of the
    canonical 44-byte header of 16-bit mono PCM followed by the decoded
    bytes. *)
Theorem addWavHeader_layout (pcmBase64 binary : string) (sampleRate : Z) :
  atob pcmBase64 = Some binary ->
  addWavHeader pcmBase64 (inject_Z sampleRate)
  = Some ("data:audio/wav;base64," +:+
          btoa (string_of_bytes (wav_header sampleRate (Z.of_nat (String.length binary))
                                 ++ bytes_of_string binary)))
  /\ length (wav_header sampleRate (Z.of_nat (String.length binary))) = 44%nat.
Proof. exact (addWavHeader_canonical pcmBase64 binary sampleRate). Qed.

(** X19, witness: the chunk [[1; 2]]. *)
Lemma addWavHeader_layout_witness :
  addWavHeader "AQACAA==" 24000
  = Some "data:audio/wav;base64,UklGRigAAABXQVZFZm10IBAAAAABAAEAwF0AAIC7AAACABAAZGF0YQQAAAABAAIA".
Proof.
  destruct (addWavHeader_layout "AQACAA==" (string_of_bytes [1; 0; 2; 0]) 24000 eq_refl)
    as [H _].
  exact H.
Defined.

Lemma wav_header_bytes (sampleRate dataSize : Z) :
  wav_header sampleRate dataSize
  = [82; 73; 70; 70] ++ le32 (36 + dataSize) ++ [87; 65; 86; 69; 102; 109; 116; 32]
    ++ [16; 0; 0; 0; 1; 0; 1; 0] ++ le32 sampleRate ++ le32 (sampleRate * 2)
    ++ [2; 0; 16; 0; 100; 97; 116; 97] ++ le32 dataSize.
Proof. reflexivity. Qed.

Lemma le32_is_byte (v : Z) : Forall is_byte (le32 v).
Proof.
  unfold le32, is_byte. repeat constructor; apply Z.mod_pos_bound; lia.
Qed.

Lemma wav_header_is_byte (sampleRate dataSize : Z) :
  Forall is_byte (wav_header sampleRate dataSize).
Proof.
  rewrite wav_header_bytes. repeat (apply Forall_app; split); try apply le32_is_byte;
    repeat constructor; unfold is_byte; lia.
Qed.

Lemma bytes_of_string_is_byte (s : string) : Forall is_byte (bytes_of_string s).
Proof.
  unfold bytes_of_string. apply Forall_forall. intros v Hv.
  apply list_elem_of_fmap in Hv as (c & -> & _). apply charCode_is_byte.
Qed.

Lemma bytes_of_string_of_bytes (bytes : list Z) :
  Forall is_byte bytes -> bytes_of_string (string_of_bytes bytes) = bytes.
Proof.
  intros H. unfold bytes_of_string, string_of_bytes.
  rewrite list_ascii_of_string_of_list_ascii, map_map.
  rewrite (map_ext_Forall _ id), map_id; [reflexivity|].
  eapply Forall_impl; [exact H|]. intros v Hv. apply charCode_fromCharCode. exact Hv.
Qed.

Lemma read_le_le32 (v : Z) : 0 <= v < 4294967296 -> read_le (le32 v) = v.
Proof.
  intros H. unfold read_le, le32. cbn [foldr]. Z.div_mod_to_equations. lia.
Qed.

(** X20: a reader of the file that [addWavHeader] returns finds a consistent
    header: 44 bytes before the samples, the RIFF size 8 less than the file,
    the data size that of the samples, the byte rate equal to the sample rate
    times the block alignment, one channel of 16 bits.  (Sample rates below
    2^31 and files below 2^32 bytes, where no field wraps.) *)
Theorem addWavHeader_fields (pcmBase64 binary : string) (sampleRate : Z) :
  atob pcmBase64 = Some binary ->
  0 <= sampleRate < 2147483648 ->
  Z.of_nat (String.length binary) < 4294967260 ->
  exists base64 wav,
    addWavHeader pcmBase64 (inject_Z sampleRate) = Some ("data:audio/wav;base64," +:+ base64)
    /\ atob base64 = Some wav
    /\ let bytes := bytes_of_string wav in
       drop 44 bytes = bytes_of_string binary
       /\ string_of_bytes (bytes_at 0 4 bytes) = "RIFF"
       /\ read_le (bytes_at 4 4 bytes) = array_length bytes - 8
       /\ string_of_bytes (bytes_at 8 8 bytes) = "WAVEfmt "
       /\ read_le (bytes_at 16 4 bytes) = 16
       /\ read_le (bytes_at 20 2 bytes) = 1
       /\ read_le (bytes_at 22 2 bytes) = 1
       /\ read_le (bytes_at 24 4 bytes) = sampleRate
       /\ read_le (bytes_at 28 4 bytes) = sampleRate * read_le (bytes_at 32 2 bytes)
       /\ read_le (bytes_at 34 2 bytes) = 16
       /\ string_of_bytes (bytes_at 36 4 bytes) = "data"
       /\ read_le (bytes_at 40 4 bytes) = array_length bytes - 44.
Proof.
  intros H Hr Hn.
  destruct (addWavHeader_canonical pcmBase64 binary sampleRate H) as [Hl _].
  eexists. eexists. split; [exact Hl|]. split; [apply atob_btoa|]. cbv zeta.
  rewrite bytes_of_string_of_bytes
    by (apply Forall_app; split; [apply wav_header_is_byte | apply bytes_of_string_is_byte]).
  set (n := Z.of_nat (String.length binary)) in *.
  assert (array_length (bytes_of_string binary) = n) as Hlen.
  { unfold array_length, bytes_of_string. rewrite length_map, <- string_length_list. reflexivity. }
  assert (array_length (wav_header sampleRate n ++ bytes_of_string binary) = 44 + n) as ->.
  { unfold array_length in *. rewrite length_app.
    change (length (wav_header sampleRate n)) with 44%nat. lia. }
  pose proof (read_le_le32 (36 + n) ltac:(lia)) as H1.
  pose proof (read_le_le32 sampleRate ltac:(lia)) as H2.
  pose proof (read_le_le32 (sampleRate * 2) ltac:(lia)) as H3.
  pose proof (read_le_le32 n ltac:(lia)) as H4.
  rewrite wav_header_bytes. unfold bytes_at, le32 in *. cbn [app take drop]. rewrite ?take_0.
  repeat split; try reflexivity; try assumption; lia.
Qed.

(** X20, witness: the chunk [[1; 2]]. *)
Lemma addWavHeader_fields_witness :
  exists base64 wav,
    addWavHeader "AQACAA==" 24000 = Some ("data:audio/wav;base64," +:+ base64)
    /\ atob base64 = Some wav
    /\ drop 44 (bytes_of_string wav) = [1; 0; 2; 0]
    /\ read_le (bytes_at 24 4 (bytes_of_string wav)) = 24000
    /\ read_le (bytes_at 34 2 (bytes_of_string wav)) = 16.
Proof.
  destruct (addWavHeader_fields "AQACAA==" (string_of_bytes [1; 0; 2; 0]) 24000 eq_refl)
    as (base64 & wav & H1 & H2 & H3); [lia | vm_compute; reflexivity |].
  cbv zeta in H3.
  destruct H3 as (H4 & _ & _ & _ & _ & _ & _ & H5 & _ & H6 & _).
  exists base64, wav. split; [exact H1|]. split; [exact H2|].
  split; [exact H4|]. split; [exact H5 | exact H6].
Defined.

(** X21: [generateSpeech] calls the service at most three times, waiting
    2 s and then 4 s; it resolves exactly when the last response carries audio
    that is valid base64, to the WAV file of that audio at 24 kHz; an absent
    or empty payload is an error, not an empty file. *)
Theorem generateSpeech_result (fn : nat -> Outcome (option string)) :
  let result := fst (generateSpeech fn) in
  let waited := snd (generateSpeech fn) in
  waited `prefix_of` [2000; 4000]
  /\ match result with
     | inr url =>
         exists base64Audio binary,
           fn (length waited) = Resolved (Some base64Audio) /\ base64Audio <> EmptyString
           /\ atob base64Audio = Some binary
           /\ url = "data:audio/wav;base64," +:+
                    btoa (string_of_bytes (wav_header 24000 (Z.of_nat (String.length binary))
                                           ++ bytes_of_string binary))
     | inl NoAudio =>
         fn (length waited) = Resolved None \/ fn (length waited) = Resolved (Some EmptyString)
     | inl InvalidCharacterError =>
         exists base64Audio, fn (length waited) = Resolved (Some base64Audio)
                             /\ atob base64Audio = None
     | inl (ServiceError err) =>
         fn (length waited) = Rejected err
         /\ (is_quota_error err = false \/ length waited = 2%nat)
     end.
Proof.
  cbv zeta. unfold generateSpeech.
  pose proof (withRetry_delays fn 2 2000 0) as (W1 & W2 & _).
  pose proof (withRetry_outcome fn 2 2000 0) as (R1 & _ & R3).
  destruct (withRetry fn 2 2000 0) as [response waited]. cbn [fst snd] in *.
  rewrite Nat.add_0_l in R1.
  assert (waited `prefix_of` [2000; 4000]) as Hp.
  { rewrite W2. destruct (length waited) as [|[|[|k]]]; [| | |lia].
    - apply prefix_nil.
    - exists [4000]. reflexivity.
    - reflexivity. }
  destruct response as [base64Audio|err].
  - destruct base64Audio as [[|c b]|]; cbn [truthy_string].
    + cbn [fst snd]. split; [exact Hp|]. right. symmetry. exact R1.
    + destruct (addWavHeader (String c b) 24000) as [url|] eqn:E; cbn [fst snd];
        (split; [exact Hp|]).
      * destruct (atob (String c b)) as [binary|] eqn:A.
        -- exists (String c b), binary. split; [symmetry; exact R1|]. split; [discriminate|].
           split; [exact A|].
           destruct (addWavHeader_canonical (String c b) binary 24000 A) as [Hl _].
           change (inject_Z 24000) with 24000%Q in Hl. congruence.
        -- unfold addWavHeader in E. rewrite A in E. discriminate.
      * exists (String c b). split; [symmetry; exact R1|].
        destruct (atob (String c b)) as [binary|] eqn:A; [|reflexivity].
        destruct (addWavHeader_canonical (String c b) binary 24000 A) as [Hl _].
        change (inject_Z 24000) with 24000%Q in Hl. congruence.
    + cbn [fst snd]. split; [exact Hp|]. left. symmetry. exact R1.
  - cbn [fst snd]. split; [exact Hp|]. split; [symmetry; exact R1 | exact R3].
Qed.

(** X21, witness: two rejections for lack of quota, then an answer. *)
Lemma generateSpeech_result_witness :
  snd (generateSpeech answers_third) `prefix_of` [2000; 4000].
Proof. exact (proj1 (generateSpeech_result answers_third)). Defined.
